(** * Dedalus: distributed spectral data engine

    A shallow embedding of the layout graph built by
    [dedalus2/data/distributor.py], of the block distribution computed by
    [Layout], of the coefficient resizing and Chebyshev differentiation of
    [dedalus2/pde/basis.py], of [Compound.interp_vector], of
    [Field.__setitem__] and of the library property of the bases, together
    with the properties stated about them. *)

From Stdlib Require Import ZArith QArith String Lia.
From stdpp Require Import base list.

Local Open Scope nat_scope.

(** ** Python results

    A Python call either returns a value or raises.  Only the exception
    classes that the embedded code can raise are listed. *)

Module Py.

Inductive exn : Type :=
| ValueError
| IndexError
| TypeError
| AttributeError
| NameError
| KeyError
| NotImplementedError
| UnboundLocalError
| OverflowError.

Inductive result (A : Type) : Type :=
| Ok (a : A)
| Raise (e : exn).
Arguments Ok {A} a.
Arguments Raise {A} e.

Definition bind {A B : Type} (m : result A) (k : A -> result B) : result B :=
  match m with
  | Ok a => k a
  | Raise e => Raise e
  end.

(** [l[i]] for a Python list and a non-negative index. *)
Definition getitem {A : Type} (l : list A) (i : nat) : result A :=
  match l !! i with
  | Some x => Ok x
  | None => Raise IndexError
  end.

(** [l[i]] and [l[i] = x] for an index that may be negative and then counts
    from the end. *)
Definition position (n : nat) (i : Z) : result nat :=
  if decide (0 <= i < Z.of_nat n)%Z then Ok (Z.to_nat i)
  else if decide (- Z.of_nat n <= i < 0)%Z then Ok (Z.to_nat (Z.of_nat n + i))
  else Raise IndexError.

Definition getitemZ {A : Type} (l : list A) (i : Z) : result A :=
  match position (length l) i with
  | Ok k => getitem l k
  | Raise e => Raise e
  end.

Definition setitemZ {A : Type} (l : list A) (i : Z) (x : A) : result (list A) :=
  match position (length l) i with
  | Ok k => Ok (<[k:=x]> l)
  | Raise e => Raise e
  end.

(** [l[i] = x]: Python raises where stdpp's insert would do nothing. *)
Definition setitem {A : Type} (l : list A) (i : nat) (x : A) : result (list A) :=
  if decide (i < length l) then Ok (<[i:=x]> l) else Raise IndexError.

End Py.

Import Py.

Notation "'let*' x ':=' m 'in' k" := (Py.bind m (fun x => k))
  (at level 10, x name, m at level 100, k at level 200).

(** ** Layouts and paths (distributor.py) *)

Module Distributor.

Inductive dtype : Type := float64 | complex128.

(** The attributes of a basis that the distributor reads; both are set by
    [set_dtype] before the distributor is built. *)
Record Basis : Type := {
  grid_dtype : dtype;
  coeff_dtype : dtype
}.

Record Domain : Type := {
  bases : list Basis
}.

Definition dim (domain : Domain) : nat := length (bases domain).

(** [base[mask] = vals] for a boolean mask: the values are written in
    order to the positions where the mask holds. *)
Fixpoint scatter (base : list Z) (mask : list bool) (vals : list Z) : list Z :=
  match base, mask with
  | b :: bs, true :: ms =>
      match vals with
      | v :: vs => v :: scatter bs ms vs
      | [] => b :: scatter bs ms []
      end
  | b :: bs, false :: ms => b :: scatter bs ms vals
  | _, _ => base
  end.

Definition count_true (mask : list bool) : nat :=
  length (filter (fun b => b = true) mask).

(** numpy's masked assignment: the mask has the array's length, and the
    values either match the number of selected positions or are a single
    value that is broadcast. *)
Definition mask_assign (base : list Z) (mask : list bool) (vals : list Z)
  : result (list Z) :=
  if decide (length mask = length base) then
    if decide (length vals = count_true mask) then Ok (scatter base mask vals)
    else match vals with
         | [v] => Ok (scatter base mask (replicate (count_true mask) v))
         | _ => Raise ValueError
         end
  else Raise IndexError.

Record Layout : Type := {
  index : nat;
  local : list bool;
  grid_space : list bool;
  ldtype : dtype;
  ext_mesh : list Z;
  ext_coords : list Z
}.

Definition set_index (i : nat) (l : Layout) : Layout :=
  {| index := i; local := local l; grid_space := grid_space l;
     ldtype := ldtype l; ext_mesh := ext_mesh l; ext_coords := ext_coords l |}.

(** [Layout.__init__]: the lists are frozen into fresh arrays, so a layout
    does not alias the lists the builder keeps mutating.  The index is
    assigned by the builder afterwards; it is 0 until then. *)
Definition Layout_init (domain : Domain) (mesh coords : list Z)
    (local grid_space : list bool) (dt : dtype) : result Layout :=
  let* em := mask_assign (replicate (dim domain) 1%Z) (negb <$> local) mesh in
  let* ec := mask_assign (replicate (dim domain) 0%Z) (negb <$> local) coords in
  Ok {| index := 0; local := local; grid_space := grid_space; ldtype := dt;
        ext_mesh := em; ext_coords := ec |}.

(** A path keeps its two layouts, its axis, and either the basis
    (transform) or the dimensions kept by its sub-communicator
    (transpose). *)
Inductive Path : Type :=
| Transform (layout0 layout1 : Layout) (axis : nat) (basis : Basis)
| Transpose (layout0 layout1 : Layout) (axis : nat) (remain_dims : list Z).

Definition path_layout0 (p : Path) : Layout :=
  match p with Transform l0 _ _ _ | Transpose l0 _ _ _ => l0 end.

Definition path_layout1 (p : Path) : Layout :=
  match p with Transform _ l1 _ _ | Transpose _ l1 _ _ => l1 end.

Definition path_axis (p : Path) : nat :=
  match p with Transform _ _ d _ | Transpose _ _ d _ => d end.

Definition set_path_layout1 (l : Layout) (p : Path) : Path :=
  match p with
  | Transform l0 _ d b => Transform l0 l d b
  | Transpose l0 _ d r => Transpose l0 l d r
  end.

(** [Transpose.__init__]: [remain_dims[axis] = 1] on a list of the mesh's
    dimension. *)
Definition Transpose_init (layout0 layout1 : Layout) (axis : nat)
    (comm_dim : nat) : result Path :=
  let* remain_dims := setitem (replicate comm_dim 0%Z) axis 1%Z in
  Ok (Transpose layout0 layout1 axis remain_dims).

(** The local variables and the two lists of [_build_layouts]. *)
Record Build : Type := {
  b_local : list bool;
  b_grid_space : list bool;
  b_dtype : dtype;
  b_layout_i : option Layout;
  b_path_i : option Path;
  b_layouts : list Layout;
  b_paths : list Path
}.

(** What one pass of the inner loop leaves behind when it breaks. *)
Record Found : Type := {
  f_local : list bool;
  f_grid_space : list bool;
  f_dtype : dtype;
  f_layout : Layout;
  f_path : option Path
}.

Section Build.

Variables (domain : Domain) (mesh coords : list Z) (dry_run : bool).

(** The body of the inner loop for an axis [d] that is still in
    coefficient space; both branches end in [break]. *)
Definition visit (d : nat) (basis : Basis) (i : nat) (st : Build)
  : result Found :=
  let* l := getitem (b_local st) d in
  if l then
    let* gs' := setitem (b_grid_space st) d true in
    let* layout_i := Layout_init domain mesh coords (b_local st) gs'
                       (grid_dtype basis) in
    let* path_i :=
      (if dry_run then Ok None
       else let* last := getitem (b_layouts st) (length (b_layouts st) - 1) in
            Ok (Some (Transform last (set_index i layout_i) d basis))) in
    Ok {| f_local := b_local st; f_grid_space := gs';
          f_dtype := grid_dtype basis; f_layout := layout_i;
          f_path := path_i |}
  else
    let* loc1 := setitem (b_local st) d true in
    let* loc2 := setitem loc1 (d + 1) false in
    let* layout_i := Layout_init domain mesh coords loc2 (b_grid_space st)
                       (b_dtype st) in
    let* path_i :=
      (if dry_run then Ok None
       else let* last := getitem (b_layouts st) (length (b_layouts st) - 1) in
            let* p := Transpose_init last (set_index i layout_i) d
                        (length mesh) in
            Ok (Some p)) in
    Ok {| f_local := loc2; f_grid_space := b_grid_space st;
          f_dtype := b_dtype st; f_layout := layout_i;
          f_path := path_i |}.

(** The inner loop, over [rev_enumerate(domain.bases)] given as the
    enumerated bases in reverse.  [None] is the loop running to its end
    without a break. *)
Fixpoint inner (items : list (nat * Basis)) (i : nat) (st : Build)
  : result (option Found) :=
  match items with
  | [] => Ok None
  | (d, basis) :: rest =>
      let* g := getitem (b_grid_space st) d in
      if negb g then
        let* f := visit d basis i st in Ok (Some f)
      else inner rest i st
  end.

Definition rev_enumerate (l : list Basis) : list (nat * Basis) :=
  reverse (imap (fun d b => (d, b)) l).

(** One iteration of the outer loop.  When the inner loop does not
    break, [layout_i] and [path_i] are still the objects of the previous
    iteration, which are also the last entries of both lists: assigning
    the index is seen through every alias. *)
Definition step (i : nat) (st : Build) : result Build :=
  let* r := inner (rev_enumerate (bases domain)) i st in
  match r with
  | Some f =>
      let layout_i := set_index i (f_layout f) in
      Ok {| b_local := f_local f; b_grid_space := f_grid_space f;
            b_dtype := f_dtype f; b_layout_i := Some layout_i;
            b_path_i := f_path f;
            b_layouts := b_layouts st ++ [layout_i];
            b_paths := match f_path f with
                       | Some p => b_paths st ++ [p]
                       | None => b_paths st
                       end |}
  | None =>
      match b_layout_i st with
      | None => Raise UnboundLocalError
      | Some l =>
          let layout_i := set_index i l in
          let path_i := set_path_layout1 layout_i <$> b_path_i st in
          Ok {| b_local := b_local st; b_grid_space := b_grid_space st;
                b_dtype := b_dtype st; b_layout_i := Some layout_i;
                b_path_i := path_i;
                b_layouts := removelast (b_layouts st) ++ [layout_i; layout_i];
                b_paths := match path_i with
                           | Some p => removelast (b_paths st) ++ [p; p]
                           | None => b_paths st
                           end |}
      end
  end.

Fixpoint for_range (range : list nat) (st : Build) : result Build :=
  match range with
  | [] => Ok st
  | i :: range' => let* st' := step i st in for_range range' st'
  end.

(** [_build_layouts] up to the end of its loop: the layout and path
    lists. *)
Definition build_layouts : result (list Layout * list Path) :=
  let D := dim domain in
  let R := length mesh in
  let local := replicate R false ++ replicate (D - R) true in
  let grid_space := replicate D false in
  let* last_basis := getitem (bases domain) (D - 1) in
  let* layout_0 := Layout_init domain mesh coords local grid_space
                (coeff_dtype last_basis) in
  let* st := for_range (seq 1 (R + D))
               {| b_local := local; b_grid_space := grid_space;
                  b_dtype := coeff_dtype last_basis;
                  b_layout_i := None; b_path_i := None;
                  b_layouts := [set_index 0 layout_0]; b_paths := [] |} in
  Ok (b_layouts st, b_paths st).

End Build.

(** What [Distributor.__init__] takes from MPI: the number of processes
    and this process's coordinates in the Cartesian communicator. *)
Record Distributor : Type := {
  mesh : list Z;
  layouts : list Layout;
  paths : list Path
}.

Definition prodZ (l : list Z) : Z := foldr Z.mul 1%Z l.

(** The mesh a distributor works with: the given one, or one row of all
    processes, with the dimensions of size at most 1 squeezed out. *)
Definition effective_mesh (mesh : option (list Z)) (size : Z) : list Z :=
  filter (fun i => (1 < i)%Z) (match mesh with Some m => m | None => [size] end).

(** [Distributor.__init__] with the product of the mesh taken exactly;
    [Int64.Distributor_init] has numpy's 64-bit arithmetic, and the two agree
    where the exact product is the number of processes. *)
Definition Distributor_init (domain : Domain) (mesh : option (list Z))
    (size : Z) (cart_coords : list Z -> list Z) : result Distributor :=
  let mesh := effective_mesh mesh size in
  if decide (dim domain <= length mesh) then Raise ValueError
  else if decide (prodZ mesh = size) then
    let* lp := build_layouts domain mesh (cart_coords mesh) false in
    Ok {| mesh := mesh; layouts := lp.1; paths := lp.2 |}
  else Raise ValueError.

End Distributor.

(** ** Shapes of a layout (the [Layout] queries of distributor.py)

    The queries take the domain's [global_coeff_shape] and its
    [global_grid_shape(scales)] as they are: two arrays of the domain's
    dimension.  Every array of a layout has that dimension too, so numpy's
    elementwise operations never broadcast.  Shapes are far below 2^53, where
    the float64 quotients that numpy rounds with [ceil] and [floor] are the
    integer ones. *)

Module Shape.

Import Distributor.

(** [vals[mask]]: the values at the positions where the mask holds. *)
Fixpoint gather (vals : list Z) (mask : list bool) : list Z :=
  match vals, mask with
  | v :: vs, m :: ms => if m then v :: gather vs ms else gather vs ms
  | _, _ => []
  end.

(** [base[mask] = x] for a scalar [x]. *)
Fixpoint fill (base : list Z) (mask : list bool) (x : Z) : list Z :=
  match base, mask with
  | b :: bs, m :: ms => (if m then x else b) :: fill bs ms x
  | _, _ => base
  end.

(** [ceil(g / m)] and [floor(g / m)] *)
Definition ceil_div (g m : Z) : Z := (- ((- g) / m))%Z.
Definition floor_div (g m : Z) : Z := (g / m)%Z.

Section Queries.

Variables (layout : Layout) (global_coeff_shape global_grid_shape : list Z).

Definition global_shape : list Z :=
  let global_shape := global_coeff_shape in
  scatter global_shape (grid_space layout)
    (gather global_grid_shape (grid_space layout)).

Definition blocks : list Z :=
  zip_with ceil_div global_shape (ext_mesh layout).

Definition start : list Z :=
  zip_with Z.mul (ext_coords layout) blocks.

Definition local_shape : list Z :=
  let cuts := zip_with floor_div global_shape blocks in
  let local_shape := blocks in
  let at_cut := zip_with Z.eqb (ext_coords layout) cuts in
  let local_shape :=
    scatter local_shape at_cut
      (gather (zip_with Z.sub global_shape (zip_with Z.mul cuts blocks)) at_cut) in
  let past_cut := zip_with Z.gtb (ext_coords layout) cuts in
  fill local_shape past_cut 0%Z.

Definition slices : list (Z * Z) :=
  zip_with (fun s l => (s, (s + l)%Z)) start local_shape.

Definition buffer_size (itemsize : dtype -> Z) : Z :=
  (prodZ local_shape * itemsize (ldtype layout))%Z.

End Queries.

(** The size of one axis on one process, as [local_shape] computes it:
    global size [g], [m] processes along the axis, coordinate [c]. *)
Definition local_size (g m c : Z) : Z :=
  let b := ceil_div g m in
  let cut := floor_div g b in
  if (c >? cut)%Z then 0%Z
  else if (c =? cut)%Z then (g - cut * b)%Z
  else b.

Definition local_sizes (global mesh coords : list Z) : list Z :=
  zip_with (fun g mc => local_size g mc.1 mc.2) global (zip mesh coords).

(** The coordinates of all processes of a Cartesian communicator, in rank
    order. *)
Fixpoint all_coords (mesh : list Z) : list (list Z) :=
  match mesh with
  | [] => [[]]
  | m :: ms => c ← seqZ 0 m; cons c <$> all_coords ms
  end.

Definition sumZ (l : list Z) : Z := foldr Z.add 0%Z l.

(** A list comprehension over calls that may raise. *)
Fixpoint for_each {A B : Type} (f : A -> result B) (l : list A) : result (list B) :=
  match l with
  | [] => Ok []
  | x :: l' =>
      let* y := f x in
      let* ys := for_each f l' in
      Ok (y :: ys)
  end.

(** The layout of scenario S5 on the process of coordinate [r]: two
    axes, the first distributed over four processes. *)
Definition two_axes : Domain :=
  {| bases := [ {| grid_dtype := complex128; coeff_dtype := complex128 |};
                {| grid_dtype := complex128; coeff_dtype := complex128 |} ] |}.

Definition cut_layout (r : Z) : result Layout :=
  Layout_init two_axes [4%Z] [r] [false; true] [false; false] complex128.

Definition last_rank_layout : Layout :=
  {| index := 0; local := [false; true]; grid_space := [false; false];
     ldtype := complex128; ext_mesh := [4%Z; 1%Z]; ext_coords := [3%Z; 0%Z] |}.

End Shape.

(** ** Coefficient resizing (basis.py)

    The arrays are followed along the axis that is resized: an array is the
    list of its entries along that axis.  [axslice(axis, start, stop)]
    selects [start:stop] on that axis and everything on the others. *)

Module Resize.

(** The bounds of [start:stop] on a sequence of length [n]: a missing bound
    is the end of the sequence, a negative one counts from the end, and both
    are clipped to the sequence. *)
Definition clip (i n : Z) : Z :=
  if (i <? 0)%Z then Z.max (i + n) 0 else Z.min i n.

Definition slice_bounds (start stop : option Z) (n : Z) : Z * Z :=
  (match start with Some i => clip i n | None => 0%Z end,
   match stop with Some i => clip i n | None => n end).

Section Arrays.

Context {A : Type}.

(** [l[start:stop]] *)
Definition getslice (l : list A) (start stop : option Z) : list A :=
  let '(lo, hi) := slice_bounds start stop (Z.of_nat (length l)) in
  take (Z.to_nat (hi - lo)) (drop (Z.to_nat lo) l).

(** [np.copyto(dst[start:stop], src)]: the source has the length of the
    selection, or a single entry that is broadcast over it. *)
Definition copyto_slice (dst : list A) (start stop : option Z) (src : list A)
  : result (list A) :=
  let '(lo, hi) := slice_bounds start stop (Z.of_nat (length dst)) in
  let n := Z.to_nat (hi - lo) in
  let write (vals : list A) :=
    take (Z.to_nat lo) dst ++ vals ++ drop (Z.to_nat lo + n) dst in
  if decide (length src = n) then Ok (write src)
  else match src with
       | [x] => Ok (write (replicate n x))
       | _ => Raise ValueError
       end.

(** [np.copyto(dst[start:stop], x)] for a scalar [x]. *)
Definition fill_slice (dst : list A) (start stop : option Z) (x : A) : list A :=
  let '(lo, hi) := slice_bounds start stop (Z.of_nat (length dst)) in
  let n := Z.to_nat (hi - lo) in
  take (Z.to_nat lo) dst ++ replicate n x ++ drop (Z.to_nat lo + n) dst.

(** [np.copyto(dst, src)] *)
Definition copyto (dst src : list A) : result (list A) :=
  copyto_slice dst None None src.

Variable zero : A.

(** [Chebyshev._resize_coeffs]; the result is the content of [cdata_out]
    afterwards. *)
Definition Chebyshev_resize_coeffs (cdata_in cdata_out : list A) : result (list A) :=
  let size_in := Z.of_nat (length cdata_in) in
  let size_out := Z.of_nat (length cdata_out) in
  if (size_in <? size_out)%Z then
    let* cdata_out := copyto_slice cdata_out (Some 0%Z) (Some size_in) cdata_in in
    Ok (fill_slice cdata_out (Some size_in) None zero)
  else if (size_in >? size_out)%Z then
    copyto cdata_out (getslice cdata_in (Some 0%Z) (Some size_out))
  else
    copyto cdata_out cdata_in.

(** [Fourier._resize_complex_coeffs] *)
Definition Fourier_resize_complex_coeffs (cdata_in cdata_out : list A)
  : result (list A) :=
  let size_in := Z.of_nat (length cdata_in) in
  let size_out := Z.of_nat (length cdata_out) in
  let kmax := ((Z.min size_in size_out - 1) / 2)%Z in
  let* cdata_out :=
    copyto_slice cdata_out (Some 0%Z) (Some (kmax + 1)%Z)
      (getslice cdata_in (Some 0%Z) (Some (kmax + 1)%Z)) in
  let cdata_out := fill_slice cdata_out (Some (kmax + 1)%Z) (Some (- kmax)%Z) zero in
  copyto_slice cdata_out (Some (- kmax)%Z) None
    (getslice cdata_in (Some (- kmax)%Z) None).

(** Resizing an array of [N] coefficients to [S] and back to [N], whatever
    the output arrays held before. *)
Definition there_and_back (resize : list A -> list A -> result (list A))
    (a out_S out_N : list A) : result (list A) :=
  let* b := resize a out_S in resize b out_N.

(** The property of the test suite, for one resize function: up and down is
    the identity, down and up keeps the first [S] entries and zeroes the
    others. *)
Definition resize_idempotent (resize : list A -> list A -> result (list A))
    (N S : nat) : Prop :=
  forall a out_S out_N : list A,
    length a = N -> length out_S = S -> length out_N = N ->
    there_and_back resize a out_S out_N
    = Ok (if decide (N <= S) then a else take S a ++ replicate (N - S) zero).

End Arrays.

End Resize.

(** ** Chebyshev differentiation (basis.py)

    Coefficients are rationals: the recursion only adds, multiplies and
    divides, and on the small integers of the scenario the float64 results
    are the rational ones. *)

Module Differentiate.

Local Open Scope Q_scope.

(** The names a function body can read: the parameters that hold arrays.
    The class is built inside a method whose only local is [self], and the
    module has no global array. *)
Definition scope : Type := list (string * list Q).

Fixpoint resolve (sc : scope) (name : string) : result (list Q) :=
  match sc with
  | [] => Raise NameError
  | (n, v) :: sc' => if String.eqb n name then Ok v else resolve sc' name
  end.

(** The loop [for i in range(N-2, 0, -1)], over the values of [i]. *)
Fixpoint recursion_loop (range : list Z) (a b : list Q) : result (list Q) :=
  match range with
  | [] => Ok b
  | i :: range' =>
      let* a1 := getitemZ a (i + 1)%Z in
      let* b2 := getitemZ b (i + 2)%Z in
      let* b := setitemZ b i (2 * inject_Z (i + 1) * a1 + b2) in
      recursion_loop range' a b
  end.

(** The statements of [explicit_form] after its arrays are bound to [a] and
    [b]; the result is the content of [b] afterwards. *)
Definition recursion (coeff_size : Z) (grid_stretch : Q) (a b : list Q)
  : result (list Q) :=
  let N := (coeff_size - 1)%Z in
  let* b := setitemZ b N 0 in
  let* aN := getitemZ a N in
  let* b := setitemZ b (N - 1)%Z (2 * inject_Z N * aN) in
  let* b := recursion_loop (reverse (seqZ 1 (N - 2))) a b in
  let* a1 := getitemZ a 1%Z in
  let* b2 := getitemZ b 2%Z in
  let* b := setitemZ b 0%Z (a1 + b2 / 2) in
  Ok ((fun x => x / grid_stretch) <$> b).

(** [DifferentiateChebyshev.explicit_form(self, input, output, axis)]: the
    parameters are [input] and [output], the body reads [cdata] and
    [cderiv]. *)
Definition explicit_form (coeff_size : Z) (grid_stretch : Q)
    (input output : list Q) (axis : Z) : result (list Q) :=
  let sc : scope := [("input"%string, input); ("output"%string, output)] in
  let* _ :=
    (if decide (axis <> (-1)%Z) then
       let* cdata := resolve sc "cdata" in
       let len_shape := 1%Z in
       if decide (axis <> (len_shape - 1)%Z) then Raise NotImplementedError
       else Ok tt
     else Ok tt) in
  let* a := resolve sc "cdata" in
  let* b := resolve sc "cderiv" in
  recursion coeff_size grid_stretch a b.

(** [Chebyshev.__init__]: the radius of the interval. *)
Definition grid_stretch (interval : Q * Q) : Q :=
  (interval.2 - interval.1) / 2 / 1.

End Differentiate.

(** ** The compound basis (basis.py) *)

Module Compound.

Section Values.

(** The entries of an interpolation vector. *)
Context {V : Type} (zero : V).

Record Subbasis : Type := {
  interval : Q * Q;
  coeff_size : nat;
  interp_vector : Q -> list V
}.

Record Compound : Type := {
  subbases : list Subbasis
}.

Definition Compound_coeff_size (self : Compound) : Z :=
  Z.of_nat (sum_list (coeff_size <$> subbases self)).

(** [Compound.coeff_start(index)]: the sizes of [subbases[:index]]. *)
Definition coeff_start (self : Compound) (index : Z) : Z :=
  Z.of_nat (sum_list (coeff_size <$> Resize.getslice (subbases self) None (Some index))).

(** An attribute that holds either a bound method or a sequence, and the
    two ways the class uses [self.coeff_start]. *)
Inductive attribute : Type :=
| BoundMethod (f : Z -> Z)
| Sequence (l : list Z).

Definition call (a : attribute) (i : Z) : result Z :=
  match a with
  | BoundMethod f => Ok (f i)
  | Sequence _ => Raise TypeError
  end.

Definition subscript (a : attribute) (i : Z) : result Z :=
  match a with
  | BoundMethod _ => Raise TypeError
  | Sequence l => getitemZ l i
  end.

(** [self.coeff_start]: the class defines it with [def]. *)
Definition get_coeff_start (self : Compound) : attribute :=
  BoundMethod (coeff_start self).

Definition contains (b : Subbasis) (position : Q) : bool :=
  Qle_bool (interval b).1 position && Qle_bool position (interval b).2.

(** [interp_vector[start:end] = values] *)
Definition assign_slice (vector : list V) (start stop : Z) (values : list V)
  : result (list V) :=
  Resize.copyto_slice vector (Some start) (Some stop) values.

(** The loop of [Compound.interp_vector] over [enumerate(self.subbases)]. *)
Fixpoint interp_vector_loop (self : Compound) (items : list (nat * Subbasis))
    (vector : list V) (position : Q) : result (list V) :=
  match items with
  | [] => Raise ValueError
  | (i, b) :: items' =>
      if contains b position then
        let* start := subscript (get_coeff_start self) (Z.of_nat i) in
        let* stop := subscript (get_coeff_start self) (Z.of_nat i + 1)%Z in
        assign_slice vector start stop (interp_vector b position)
      else interp_vector_loop self items' vector position
  end.

Definition Compound_interp_vector (self : Compound) (position : Q)
  : result (list V) :=
  let vector := replicate (Z.to_nat (Compound_coeff_size self)) zero in
  interp_vector_loop self (imap (fun i b => (i, b)) (subbases self)) vector position.

(** [Compound.sub_cdata], which calls [coeff_start]. *)
Definition sub_cdata (self : Compound) (cdata : list V) (index : Z)
  : result (list V) :=
  let* start := call (get_coeff_start self) index in
  let* stop := call (get_coeff_start self) (index + 1)%Z in
  Ok (Resize.getslice cdata (Some start) (Some stop)).

End Values.

(** Two subbases of four modes on [0, 1] and [1, 2]. *)
Definition two_intervals : Compound :=
  {| subbases :=
       [ {| interval := (0, 1)%Q; coeff_size := 4;
            interp_vector := fun x => [1; x; x * x; x * x * x]%Q |};
         {| interval := (1, 2)%Q; coeff_size := 4;
            interp_vector := fun x => [1; x; x * x; x * x * x]%Q |} ] |}.

End Compound.

(** ** Fields (field.py) *)

Module Field.

Import Distributor.

(** An array: its shape, its dtype and its bytes. *)
Record Array : Type := {
  shape : list Z;
  adtype : dtype;
  bytes : list Z
}.

Definition itemsize (dt : dtype) : Z :=
  match dt with float64 => 8%Z | complex128 => 16%Z end.

Definition dtype_eqb (x y : dtype) : bool :=
  match x, y with
  | float64, float64 | complex128, complex128 => true
  | _, _ => false
  end.

(** [np.copyto(dst, src)] between arrays of one shape and dtype, the case of
    the claims; other pairs are reported as an error. *)
Definition copyto (dst src : Array) : result Array :=
  if decide (shape dst = shape src) then
    if dtype_eqb (adtype dst) (adtype src) then
      Ok {| shape := shape dst; adtype := adtype dst; bytes := bytes src |}
    else Raise TypeError
  else Raise ValueError.

Section Fields.

(** The shapes of the field's domain. *)
Variables (global_coeff_shape global_grid_shape : list Z).

(** Modelled from the spec: [Layout.view_data] is not in the source.  The
    typed view of a field is derived from the buffer, the layout's local
    shape and the layout's dtype; it shares the bytes of the buffer. *)
Definition view_data (layout : Layout) (buffer : list Z) : Array :=
  let local_shape := Shape.local_shape layout global_coeff_shape global_grid_shape in
  {| shape := local_shape; adtype := ldtype layout;
     bytes := take (Z.to_nat (prodZ local_shape * itemsize (ldtype layout))) buffer |}.

(** A field: its buffer and its layout.  [data] is the view of the buffer
    under the layout. *)
Record Field : Type := {
  _buffer : list Z;
  _layout : Layout
}.

Definition data (self : Field) : Array := view_data (_layout self) (_buffer self).

(** The [layout] setter. *)
Definition set_layout (self : Field) (layout : Layout) : Field :=
  {| _buffer := _buffer self; _layout := layout |}.

(** The key of [field[key] = data]: a layout or its name. *)
Inductive key : Type :=
| KLayout (layout : Layout)
| KName (name : string).

(** [self.domain] holds [weakref.ref(domain)]: reading an attribute of the
    domain from the reference object itself raises. *)
Definition weakref_getattr (name : string) : result Distributor :=
  Raise AttributeError.

(** The distributor keeps its names in [layout_references]; it has no
    [string_references]. *)
Definition string_references (distributor : Distributor)
  : result (list (string * Layout)) :=
  Raise AttributeError.

Fixpoint dict_getitem (d : list (string * Layout)) (name : string) : result Layout :=
  match d with
  | [] => Raise KeyError
  | (n, l) :: d' => if String.eqb n name then Ok l else dict_getitem d' name
  end.

(** [Field.__setitem__(self, layout, data)]: the field and the caller's
    array afterwards. *)
Definition __setitem__ (self : Field) (layout : key) (data_arg : Array)
  : result (Field * Array) :=
  let* layout :=
    match layout with
    | KName name =>
        let* distributor := weakref_getattr "distributor" in
        let* references := string_references distributor in
        dict_getitem references name
    | KLayout layout => Ok layout
    end in
  let self := set_layout self layout in
  let* data_arg := copyto data_arg (data self) in
  Ok (self, data_arg).

End Fields.

(** A field of two reals on one process, all zero, and an array to store. *)
Definition line_layout : Layout :=
  {| index := 1; local := [true]; grid_space := [true]; ldtype := float64;
     ext_mesh := [1%Z]; ext_coords := [0%Z] |}.

Definition zero_field : Field :=
  {| _buffer := replicate 16 0%Z; _layout := line_layout |}.

Definition one_two : Array :=
  {| shape := [2%Z]; adtype := float64;
     bytes := [0; 0; 0; 0; 0; 0; 240; 63; 0; 0; 0; 0; 0; 0; 0; 64]%Z |}.

End Field.

(** ** The library of a basis (basis.py) *)

Module Library.

Inductive class : Type :=
| Basis | TransverseBasis | ImplicitBasis | Chebyshev | Fourier | SinCos.

(** The order in which Python looks a name up in the classes of an
    instance. *)
Definition mro (c : class) : list class :=
  match c with
  | Basis => [Basis]
  | TransverseBasis => [TransverseBasis; Basis]
  | ImplicitBasis => [ImplicitBasis; Basis]
  | Chebyshev => [Chebyshev; ImplicitBasis; Basis]
  | Fourier => [Fourier; TransverseBasis; ImplicitBasis; Basis]
  | SinCos => [SinCos; TransverseBasis; Basis]
  end.

(** The functions each class body defines. *)
Definition body (c : class) : list string :=
  match c with
  | Basis =>
      ["__repr__"; "__str__"; "set_dtype"; "forward"; "backward"; "differentiate";
       "integrate"; "interpolate"; "grid_size"; "check_arrays"]
  | TransverseBasis => ["trans_diff"]
  | ImplicitBasis => ["Pre"; "Mult"; "bc_vector"]
  | Chebyshev =>
      ["__init__"; "default_meta"; "grid"; "set_dtype"; "_resize_coeffs";
       "_forward_scaling"; "_backward_scaling"; "_forward_scipy"; "_backward_scipy";
       "_fftw_setup"; "_forward_fftw"; "_backward_fftw"; "Integrate"; "Interpolate";
       "Differentiate"; "Pre"; "Mult"; "build_mult"]
  | Fourier =>
      ["__init__"; "default_meta"; "grid"; "set_dtype"; "_resize_real_coeffs";
       "_resize_complex_coeffs"; "_forward_scipy"; "_backward_scipy"; "_fftw_setup";
       "_forward_fftw"; "_backward_fftw"; "Integrate"; "Interpolate"; "Differentiate";
       "HilbertTransform"]
  | SinCos =>
      ["__init__"; "grid"; "set_dtype"; "_resize_coeffs"; "_forward_scipy";
       "_backward_scipy"; "_fftw_setup"; "_forward_fftw"; "_backward_fftw";
       "differentiate"; "integ_vector"; "interpolate"; "interp_vector"; "trans_diff"]
  end%string.

(** A function of a class body, bound to an instance. *)
Record method : Type := Method {
  owner : class;
  name : string
}.

Fixpoint lookup (classes : list class) (n : string) : result method :=
  match classes with
  | [] => Raise AttributeError
  | c :: classes' =>
      if existsb (String.eqb n) (body c) then Ok (Method c n) else lookup classes' n
  end.

(** [getattr(self, name)] for a name that is not an attribute of the
    instance itself. *)
Definition getattr (c : class) (n : string) : result method := lookup (mro c) n.

Definition lower_ascii (a : Ascii.ascii) : Ascii.ascii :=
  let n := Ascii.nat_of_ascii a in
  if (65 <=? n)%nat && (n <=? 90)%nat then Ascii.ascii_of_nat (n + 32) else a.

Fixpoint lower (s : string) : string :=
  match s with
  | EmptyString => EmptyString
  | String a s' => String (lower_ascii a) (lower s')
  end.

(** The attributes of an instance that the [library] property sets. *)
Record instance : Type := {
  cls : class;
  forward : option method;
  backward : option method;
  _library : option string
}.

Definition new (c : class) : instance :=
  {| cls := c; forward := None; backward := None; _library := None |}.

(** The setter of [Basis.library]. *)
Definition set_library (self : instance) (value : string) : result instance :=
  let* f := getattr (cls self) ("_forward_" ++ lower value) in
  let* b := getattr (cls self) ("_backward_" ++ lower value) in
  Ok {| cls := cls self; forward := Some f; backward := Some b;
        _library := Some (lower value) |}.

(** The last statement of each [__init__], given the configured
    [DEFAULT_LIBRARY]. *)
Definition Chebyshev_init (DEFAULT_LIBRARY : string) : result instance :=
  set_library (new Chebyshev) DEFAULT_LIBRARY.

Definition Fourier_init (DEFAULT_LIBRARY : string) : result instance :=
  set_library (new Fourier) DEFAULT_LIBRARY.

Definition SinCos_init (DEFAULT_LIBRARY : string) : result instance :=
  set_library (new SinCos) "scipy".

End Library.

(** ** Closed forms of the layout chain

    With [a] axes still distributed in front, [j] axes already transposed
    behind the local one and [t] local axes in the tail, and with [c] axes in
    coefficient space followed by [g] in grid space. *)

Module Chain.

Import Distributor.

Definition local_form (a j t : nat) : list bool :=
  replicate a false ++ true :: replicate j false ++ replicate t true.

Definition grid_form (c g : nat) : list bool :=
  replicate c false ++ replicate g true.

(** One atomic change between two layouts, and the path that records it. *)
Definition transform_change (l0 l1 : Layout) (d : nat) : Prop :=
  grid_space l0 !! d = Some false /\
  local l0 !! d = Some true /\
  grid_space l1 = <[d:=true]> (grid_space l0) /\
  local l1 = local l0.

Definition transpose_change (l0 l1 : Layout) (d : nat) : Prop :=
  local l0 !! d = Some false /\
  local l0 !! (d + 1) = Some true /\
  local l1 = <[d + 1:=false]> (<[d:=true]> (local l0)) /\
  grid_space l1 = grid_space l0 /\
  ldtype l1 = ldtype l0.

Definition atomic (l0 l1 : Layout) (p : Path) : Prop :=
  (exists d basis, p = Transform l0 l1 d basis /\ transform_change l0 l1 d) \/
  (exists d r, p = Transpose l0 l1 d r /\ transpose_change l0 l1 d).

Definition indexed (ls : list Layout) : Prop :=
  forall k l, ls !! k = Some l -> index l = k.

Definition linked (ls : list Layout) (ps : list Path) : Prop :=
  forall k p, ps !! k = Some p ->
    exists l0 l1, ls !! k = Some l0 /\ ls !! (S k) = Some l1 /\ atomic l0 l1 p.

(** The builder's state after [i] iterations. *)
Record Inv (a j t c g i : nat) (st : Build) : Prop := {
  inv_local : b_local st = local_form a j t;
  inv_grid : b_grid_space st = grid_form c g;
  inv_last : exists l, last (b_layouts st) = Some l /\
               local l = local_form a j t /\ grid_space l = grid_form c g /\
               ldtype l = b_dtype st;
  inv_layouts : length (b_layouts st) = S i;
  inv_paths : length (b_paths st) = i;
  inv_indexed : indexed (b_layouts st);
  inv_linked : linked (b_layouts st) (b_paths st)
}.

Definition valid (a j c : nat) : Prop := a <= c /\ (c <= a + 1 \/ j = 0).

(** The domain of the scenario with three axes, a real Fourier basis
    followed by two Chebyshev bases, for four processes in a row. *)
Definition fourier_cheb_cheb : Domain :=
  {| bases := [ {| grid_dtype := float64; coeff_dtype := complex128 |};
                {| grid_dtype := complex128; coeff_dtype := complex128 |};
                {| grid_dtype := complex128; coeff_dtype := complex128 |} ] |}.

End Chain.

(** ** The distributor's lookups (distributor.py) *)

Module Lookup.

Import Distributor.

(** [self.coeff_layout = self.layouts[0]] and
    [self.grid_layout = self.layouts[-1]] *)
Definition coeff_layout (dist : Distributor) : result Layout :=
  getitemZ (layouts dist) 0%Z.

Definition grid_layout (dist : Distributor) : result Layout :=
  getitemZ (layouts dist) (-1)%Z.

(** The dictionary [layout_references]. *)
Definition layout_references (dist : Distributor) : result (list (string * Layout)) :=
  let* c := coeff_layout dist in
  let* g := grid_layout dist in
  Ok [("c"%string, c); ("g"%string, g); ("coeff"%string, c); ("grid"%string, g)].

(** [Distributor.get_layout_object] *)
Definition get_layout_object (dist : Distributor) (input : Field.key) : result Layout :=
  match input with
  | Field.KLayout layout => Ok layout
  | Field.KName name =>
      let* references := layout_references dist in
      Field.dict_getitem references name
  end.

(** The layout of [Shape.cut_layout] on the process of coordinate [r]. *)
Definition rank_layout (r : Z) : Layout :=
  {| index := 0; local := [false; true]; grid_space := [false; false];
     ldtype := complex128; ext_mesh := [4%Z; 1%Z]; ext_coords := [r; 0%Z] |}.

Definition is_transform (p : Path) : bool :=
  match p with Transform _ _ _ _ => true | Transpose _ _ _ _ => false end.

Definition is_transpose (p : Path) : bool := negb (is_transform p).

(** What the inner loop leaves behind in a dry run: no path. *)
Definition dry_found (f : Found) : Found :=
  {| f_local := f_local f; f_grid_space := f_grid_space f; f_dtype := f_dtype f;
     f_layout := f_layout f; f_path := None |}.

(** The builder's state in a dry run: no path is kept. *)
Definition dry (st : Build) : Build :=
  {| b_local := b_local st; b_grid_space := b_grid_space st;
     b_dtype := b_dtype st; b_layout_i := b_layout_i st; b_path_i := None;
     b_layouts := b_layouts st; b_paths := [] |}.

End Lookup.

(** ** More of basis.py and tools/array.py *)

Module Basis.

Import Distributor Resize.

Section Arrays.

Context {A : Type} (zero : A).

(** [Fourier._resize_real_coeffs]; the result is the content of
    [cdata_out] afterwards. *)
Definition Fourier_resize_real_coeffs (cdata_in cdata_out : list A)
    (grid_size : Z) : result (list A) :=
  let size_in := Z.of_nat (length cdata_in) in
  let size_out := Z.of_nat (length cdata_out) in
  let kmax := Z.min (Z.min ((grid_size - 1) / 2) (size_in - 1)) (size_out - 1) in
  let* cdata_out :=
    copyto_slice cdata_out (Some 0%Z) (Some (kmax + 1)%Z)
      (getslice cdata_in (Some 0%Z) (Some (kmax + 1)%Z)) in
  Ok (fill_slice cdata_out (Some (kmax + 1)%Z) None zero).

End Arrays.

(** [np.arange(start, stop)] and [np.roll(a, shift)] on one axis. *)
Definition arange (start stop : Z) : list Z := seqZ start (stop - start).

Definition roll {A : Type} (a : list A) (shift : Z) : list A :=
  let k := Z.to_nat ((- shift) mod Z.of_nat (length a)) in
  drop k a ++ take k a.

(** [Fourier.set_dtype]: the native wavenumbers, before they are divided by
    the stretch of the grid, and the number of coefficients. *)
Definition Fourier_native_wavenumbers (base_grid_size : Z) (grid_dtype : dtype)
  : list Z :=
  let kmax := ((base_grid_size - 1) / 2)%Z in
  match grid_dtype with
  | float64 => arange 0 (kmax + 1)
  | complex128 => roll (arange (- kmax) (kmax + 1)) (- kmax)
  end.

Definition Fourier_coeff_size (base_grid_size : Z) (grid_dtype : dtype) : nat :=
  length (Fourier_native_wavenumbers base_grid_size grid_dtype).

(** [reshape_vector(data, dim, axis)] of tools/array.py: the shape given to
    [reshape], for data of [size] entries. *)
Definition reshape_vector_shape (size : Z) (dim : Z) (axis : Z) : result (list Z) :=
  let shape := replicate (Z.to_nat dim) 1%Z in
  setitemZ shape axis size.

End Basis.

(** ** Joining subbases (basis.py, [Compound.__init__]) *)

Module Join.

Import Compound.

Section Values.

Context {V : Type}.

(** The check of [Compound.__init__], over [range(len(subbases) - 1)]. *)
Fixpoint check_intervals (subbases : list (@Subbasis V)) (range : list nat)
  : result unit :=
  match range with
  | [] => Ok tt
  | i :: range' =>
      let* b0 := getitem subbases i in
      let* b1 := getitem subbases (i + 1) in
      if negb (Qeq_bool (interval b0).2 (interval b1).1) then Raise ValueError
      else check_intervals subbases range'
  end.

(** [Compound.__init__]: the compound basis and its [interval]. *)
Definition Compound_init (subbases : list (@Subbasis V))
  : result (@Compound V * (Q * Q)) :=
  let* checked := check_intervals subbases (seq 0 (length subbases - 1)) in
  let* first := getitemZ subbases 0%Z in
  let* final := getitemZ subbases (-1)%Z in
  Ok ({| Compound.subbases := subbases |},
      ((interval first).1, (interval final).2)).

(** Each subbasis ends where the next one starts. *)
Definition adjacent (subbases : list (@Subbasis V)) : Prop :=
  forall i b0 b1,
    subbases !! i = Some b0 -> subbases !! (i + 1) = Some b1 ->
    ((interval b0).2 == (interval b1).1)%Q.

End Values.

End Join.

(** ** The buffers of a transpose (distributor.py, [Transpose._fftw_setup]) *)

Module Views.

Import Basis.

(** The axes of [np.transpose(a, axes)] as positions; an axis out of range
    raises numpy's [AxisError], which is an [IndexError]. *)
Fixpoint positions (n : nat) (axes : list Z) : result (list nat) :=
  match axes with
  | [] => Ok []
  | a :: axes' =>
      let* p := position n a in
      let* ps := positions n axes' in
      Ok (p :: ps)
  end.

Fixpoint select (shape : list Z) (ps : list nat) : result (list Z) :=
  match ps with
  | [] => Ok []
  | p :: ps' =>
      let* x := getitem shape p in
      let* xs := select shape ps' in
      Ok (x :: xs)
  end.

(** The shape of [np.transpose(a, axes)] for an array of shape [shape]:
    [axes] must name every axis once. *)
Definition transpose_shape (shape : list Z) (axes : list Z) : result (list Z) :=
  if decide (length axes = length shape) then
    let* ps := positions (length shape) axes in
    if decide (NoDup ps) then select shape ps else Raise ValueError
  else Raise ValueError.

(** [Transpose._fftw_setup]: the shape of the view [temp0] (or [temp1]) of a
    plan buffer, for the local shape [shape] of the layout. *)
Definition temp_shape (shape : list Z) (dim axis : Z) : result (list Z) :=
  let tr_shape := roll shape (- axis) in
  transpose_shape tr_shape (roll (arange 0 dim) axis).

(** [Transpose._group_fftw_setup]: the same for a group of [nfields]
    fields. *)
Definition group_temp_shape (nfields : Z) (shape : list Z) (dim axis : Z)
  : result (list Z) :=
  let tr_shape := roll (nfields :: shape) (- (axis + 1)) in
  transpose_shape tr_shape (roll (arange 0 (dim + 1)) (axis + 1)).

End Views.

(** ** Fields of the earlier code (keaton/code/data/field.py) *)

Module Keaton.

Import Ascii.

Section Fields.

(** The contents of an array. *)
Context {D : Type}.

(** What a field reads of its domain.  A transform of a basis works in
    place on the data, along the axis it is given. *)
Record Basis : Type := {
  forward : nat -> D -> D;
  backward : nat -> D -> D
}.

Record Domain : Type := {
  dim : nat;
  bases : list Basis
}.

Record Field : Type := {
  domain : Domain;
  data : D;
  space : list Ascii.ascii;
  local : list bool
}.

(** The contents of [a] after [a[:] = b], which numpy refuses when [b]
    cannot be broadcast to the shape of [a]. *)
Variable store : D -> D -> result D.

Definition transpose (self : Field) (i : nat) : result Field :=
  Raise NotImplementedError.

Definition require_local (self : Field) (index : nat) : result Field :=
  let* here := getitem (local self) index in
  if negb here then transpose self index else Ok self.

Definition transform (self : Field) (i : nat) : result Field :=
  let* self := require_local self i in
  let* s := getitem (space self) i in
  if Ascii.eqb s "x"%char then
    let* basis := getitem (bases (domain self)) i in
    let data' := forward basis i (data self) in
    let* space' := setitem (space self) i "k"%char in
    Ok {| domain := domain self; data := data'; space := space';
          local := local self |}
  else if Ascii.eqb s "k"%char then
    let* basis := getitem (bases (domain self)) i in
    let data' := backward basis i (data self) in
    let* space' := setitem (space self) i "x"%char in
    Ok {| domain := domain self; data := data'; space := space';
          local := local self |}
  else Ok self.

Definition require_space (self : Field) (index : nat) (s : Ascii.ascii)
  : result Field :=
  let* current := getitem (space self) index in
  if negb (Ascii.eqb current s) then transform self index else Ok self.

(** [c * n] for a string of one character. *)
Fixpoint times (c : Ascii.ascii) (n : nat) : string :=
  match n with
  | O => EmptyString
  | S n' => String c (times c n')
  end.

(** The full-space shortcuts [K] and [X]. *)
Definition expand (self : Field) (s : string) : string :=
  if String.eqb s "K"%string then times "k"%char (dim (domain self))
  else if String.eqb s "X"%string then times "x"%char (dim (domain self))
  else s.

Fixpoint require_loop (self : Field) (items : list (nat * Ascii.ascii))
  : result Field :=
  match items with
  | [] => Ok self
  | (i, s) :: items' =>
      let* self := require_space self i s in
      require_loop self items'
  end.

Definition enumerate (s : string) : list (nat * Ascii.ascii) :=
  imap (fun i c => (i, c)) (list_ascii_of_string s).

Definition require_global_space (self : Field) (s : string) : result Field :=
  require_loop self (enumerate (expand self s)).

(** [field[space]]: the field afterwards and the array that is returned. *)
Definition __getitem__ (self : Field) (s : string) : result (Field * D) :=
  let* self := require_global_space self s in
  Ok (self, data self).

(** [field[space] = data] *)
Definition __setitem__ (self : Field) (s : string) (new : D) : result Field :=
  let space' := list_ascii_of_string (expand self s) in
  let* data' := store (data self) new in
  Ok {| domain := domain self; data := data'; space := space';
        local := local self |}.

(** An entry of [space] that a transform knows. *)
Definition known (c : Ascii.ascii) : Prop := c = "x"%char \/ c = "k"%char.

End Fields.

(** A field on two axes in grid space, whose transforms count how often
    they are applied, and the same field with its second axis distributed. *)
Definition counting : @Basis Z :=
  {| forward := fun _ d => (d + 1)%Z; backward := fun _ d => (d - 1)%Z |}.

Definition plane : @Field Z :=
  {| domain := {| dim := 2; bases := [counting; counting] |};
     data := 0%Z;
     space := ["x"%char; "x"%char];
     local := [true; true] |}.

Definition distributed_plane : @Field Z :=
  {| domain := domain plane; data := data plane; space := space plane;
     local := [true; false] |}.

End Keaton.

(** ** Checking transform arrays (basis.py, [Basis.check_arrays]) *)

Module Check.

Import Distributor.

(** What [check_arrays] reads of an array. *)
Record ndarray : Type := {
  shape : list Z;
  adtype : dtype
}.

(** What it reads of the basis, once [set_dtype] has run. *)
Record Attributes : Type := {
  coeff_size : Z;
  coeff_dtype : dtype;
  grid_dtype : dtype
}.

(** [fftw.create_array(shape, dtype)] *)
Definition create_array (shape : list Z) (dt : dtype) : ndarray :=
  {| shape := shape; adtype := dt |}.

Section Scales.

(** The scales, whether a scale counts as true, and [Basis.grid_size]. *)
Variables (S : Type) (truthy : S -> bool) (grid_size : S -> result Z).

Definition check_arrays (self : Attributes) (cdata gdata : option ndarray)
    (axis : Z) (scale : option S) : result (ndarray * ndarray) :=
  let* cdata :=
    match cdata with
    | None =>
        match gdata with
        | None => Raise AttributeError
        | Some g =>
            let* cshape := setitemZ (shape g) axis (coeff_size self) in
            Ok (create_array cshape (coeff_dtype self))
        end
    | Some c =>
        let* n := getitemZ (shape c) axis in
        if negb (n =? coeff_size self)%Z then Raise ValueError
        else if negb (Field.dtype_eqb (adtype c) (coeff_dtype self))
        then Raise ValueError
        else Ok c
    end in
  let* size :=
    match scale with
    | Some sc =>
        if truthy sc then let* n := grid_size sc in Ok (Some n) else Ok None
    | None => Ok None
    end in
  match gdata with
  | None =>
      match size with
      | None => Raise UnboundLocalError
      | Some n =>
          let* gshape := setitemZ (shape cdata) axis n in
          Ok (cdata, create_array gshape (grid_dtype self))
      end
  | Some g =>
      let* checked :=
        match size with
        | Some n =>
            let* m := getitemZ (shape g) axis in
            if negb (m =? n)%Z then Raise ValueError else Ok tt
        | None => Ok tt
        end in
      if negb (Field.dtype_eqb (adtype g) (grid_dtype self)) then Raise ValueError
      else Ok (cdata, g)
  end.

End Scales.

End Check.

(** ** The mesh as an array of machine integers (distributor.py,
    [Distributor.__init__])

    numpy's default integer has 64 bits on the platforms the code runs on:
    an array of that type refuses a Python integer outside the range, and
    its product wraps around. *)

Module Int64.

Import Distributor.

Definition fits (i : Z) : bool := ((- 2 ^ 63 <=? i) && (i <? 2 ^ 63))%Z.

(** What an operation on two such integers leaves in 64 bits. *)
Definition wrap (i : Z) : Z := ((i + 2 ^ 63) mod 2 ^ 64 - 2 ^ 63)%Z.

(** [np.array(l, dtype=int)] of Python integers *)
Definition np_array (l : list Z) : result (list Z) :=
  if forallb fits l then Ok l else Raise OverflowError.

(** [np.prod] of such an array *)
Definition np_prod (l : list Z) : Z :=
  foldl (fun acc i => wrap (acc * i)) 1%Z l.

(** [Distributor.__init__], with the number of processes and with what
    [Create_cart(self.mesh).coords] gives, or raises, for a mesh. *)
Definition Distributor_init (domain : Domain) (mesh : option (list Z))
    (size : Z) (Create_cart : list Z -> result (list Z)) : result Distributor :=
  let* mesh :=
    match mesh with
    | None => np_array [size]
    | Some m => Ok m
    end in
  let* mesh := np_array (filter (fun i => (1 < i)%Z) mesh) in
  if decide (dim domain <= length mesh) then Raise ValueError
  else if decide (np_prod mesh = size) then
    let* coords := Create_cart mesh in
    let* coords := np_array coords in
    let* lp := build_layouts domain mesh coords false in
    Ok {| mesh := mesh; layouts := lp.1; paths := lp.2 |}
  else Raise ValueError.

End Int64.

(** ** Walking a field along the paths (distributor.py, [Transform]) *)

Module Walk.

Import Distributor Library.

(** How a function is called once [self] is bound: the number of parameters
    that take their argument by position, none of which has a default here,
    and the keyword-only parameters without a default. *)
Record parameters : Type := {
  positional : nat;
  required : list string
}.

(** The parameters of the functions that a basis holds under the names
    [forward] and [backward].  The transforms that the [library] setter binds
    are declared [(self, gdata, *, axis, cdata=None)] and
    [(self, cdata, *, axis, gdata=None, scale=1.)], as are the two methods of
    [Basis]; the two scaling functions of Chebyshev are static and declared
    [(pdata, axis)]. *)
Definition parameters_of (m : method) : parameters :=
  if existsb (String.eqb (name m)) ["_forward_scaling"; "_backward_scaling"]%string
  then {| positional := 2; required := [] |}
  else {| positional := 1; required := ["axis"%string] |}.

(** A call with [args] arguments by position and no keyword: before the
    body runs, Python raises [TypeError] for a wrong number of arguments or
    for a keyword-only parameter that is left without a value. *)
Definition call (m : method) (args : nat) : result unit :=
  let p := parameters_of m in
  if negb (args =? positional p)%nat then Raise TypeError
  else match required p with
       | [] => Ok tt
       | _ :: _ => Raise TypeError
       end.

(** [basis.forward] and [basis.backward]: what the [library] setter bound to
    the instance, or else the method of its class. *)
Definition forward_of (basis : instance) : result method :=
  match forward basis with
  | Some m => Ok m
  | None => getattr (cls basis) "forward"
  end.

Definition backward_of (basis : instance) : result method :=
  match backward basis with
  | Some m => Ok m
  | None => getattr (cls basis) "backward"
  end.

Section Fields.

(** The shapes of the field's domain, and the metadata of an axis. *)
Variables (global_coeff_shape global_grid_shape : list Z).
Context {M : Type}.

(** A field as the paths use it: the field of field.py, and the attribute
    [meta] that the paths read, where the object has one. *)
Record operand : Type := {
  field : Field.Field;
  meta : option (list M)
}.

Definition data (f : operand) : Field.Array :=
  Field.data global_coeff_shape global_grid_shape (field f).

Definition set_layout (f : operand) (layout : Layout) : operand :=
  {| field := Field.set_layout (field f) layout; meta := meta f |}.

(** [field.meta[axis]] *)
Definition meta_item (f : operand) (axis : Z) : result M :=
  match meta f with
  | None => Raise AttributeError
  | Some items => getitemZ items axis
  end.

(** What lies outside the source: the body of a transform whose call has
    bound its arguments, the grouped transforms, and the transposes, which
    run FFTW and MPI.  The flag says whether the step is an increment. *)
Variable run : method -> operand -> result operand.
Variable group : bool -> Layout -> Layout -> nat -> instance -> list operand ->
                 result (list operand).
Variable transpose : bool -> Layout -> Layout -> nat -> list operand ->
                     result (list operand).
Variable GROUP_TRANSFORMS : bool.

(** [Transform.increment_single] and [Transform.decrement_single], for a
    transform with the attributes [layout0], [layout1], [axis] and [basis]. *)
Definition increment_single (layout0 layout1 : Layout) (axis : nat)
    (basis : instance) (f : operand) : result operand :=
  let cdata := data f in
  let f := set_layout f layout1 in
  if (prodZ (Field.shape cdata) =? 0)%Z then Ok f
  else
    let* backward := backward_of basis in
    let* m := meta_item f (Z.of_nat axis) in
    let* bound := call backward 4 in
    run backward f.

Definition decrement_single (layout0 layout1 : Layout) (axis : nat)
    (basis : instance) (f : operand) : result operand :=
  let gdata := data f in
  let f := set_layout f layout0 in
  if (prodZ (Field.shape gdata) =? 0)%Z then Ok f
  else
    let* forward := forward_of basis in
    let* m := meta_item f (Z.of_nat axis) in
    let* bound := call forward 4 in
    run forward f.

Fixpoint each (step : operand -> result operand) (fields : list operand)
  : result (list operand) :=
  match fields with
  | [] => Ok []
  | f :: fields' =>
      let* f := step f in
      let* fields' := each step fields' in
      Ok (f :: fields')
  end.

(** [Transform.increment] and [Transform.decrement] *)
Definition increment (layout0 layout1 : Layout) (axis : nat) (basis : instance)
    (fields : list operand) : result (list operand) :=
  match fields with
  | [f] => let* f := increment_single layout0 layout1 axis basis f in Ok [f]
  | _ =>
      if GROUP_TRANSFORMS then group true layout0 layout1 axis basis fields
      else each (increment_single layout0 layout1 axis basis) fields
  end.

Definition decrement (layout0 layout1 : Layout) (axis : nat) (basis : instance)
    (fields : list operand) : result (list operand) :=
  match fields with
  | [f] => let* f := decrement_single layout0 layout1 axis basis f in Ok [f]
  | _ =>
      if GROUP_TRANSFORMS then group false layout0 layout1 axis basis fields
      else each (decrement_single layout0 layout1 axis basis) fields
  end.

(** The bases of the domain as objects, by axis: a transform keeps the one
    of its axis. *)
Variable bases : list instance.

Definition path_increment (p : Path) (fields : list operand)
  : result (list operand) :=
  match p with
  | Transform layout0 layout1 axis _ =>
      let* basis := getitem bases axis in
      increment layout0 layout1 axis basis fields
  | Transpose layout0 layout1 axis _ => transpose true layout0 layout1 axis fields
  end.

Definition path_decrement (p : Path) (fields : list operand)
  : result (list operand) :=
  match p with
  | Transform layout0 layout1 axis _ =>
      let* basis := getitem bases axis in
      decrement layout0 layout1 axis basis fields
  | Transpose layout0 layout1 axis _ => transpose false layout0 layout1 axis fields
  end.

(** Modelled from the spec: the navigation of a field is not in the source,
    where [_towards_grid_space] and [_towards_coeff_space] are empty.  A step
    towards grid space invokes [paths[layout.index]], a step towards
    coefficient space [paths[layout.index - 1]], and a walk compares the
    indices of the current and the target layout and steps until they
    agree. *)
Definition towards_grid_space (dist : Distributor) (f : operand) : result operand :=
  let* p := getitem (paths dist) (index (Field._layout (field f))) in
  let* fields := path_increment p [f] in
  getitem fields 0.

Definition towards_coeff_space (dist : Distributor) (f : operand) : result operand :=
  let* p := getitemZ (paths dist)
              (Z.of_nat (index (Field._layout (field f))) - 1)%Z in
  let* fields := path_decrement p [f] in
  getitem fields 0.

Fixpoint steps (step : operand -> result operand) (n : nat) (f : operand)
  : result operand :=
  match n with
  | O => Ok f
  | S n' => let* f := step f in steps step n' f
  end.

Definition walk (dist : Distributor) (target : Layout) (f : operand)
  : result operand :=
  let i := index (Field._layout (field f)) in
  let j := index target in
  if (i <? j)%nat then steps (towards_grid_space dist) (j - i) f
  else steps (towards_coeff_space dist) (i - j) f.

(** From the layout of the field to [target] and back. *)
Definition round_trip (dist : Distributor) (target : Layout) (f : operand)
  : result operand :=
  let home := Field._layout (field f) in
  let* f := walk dist target f in
  walk dist home f.

End Fields.

(** The domain of a round trip with scales: a complex Fourier basis of 4
    points, which has 3 coefficients, and a Chebyshev basis of 8, on one
    process, at scale 3/2 on both axes; the bases with the transforms of
    scipy bound; a field of zeros, whose buffer has the 6 * 12 * 16 bytes of
    the grid layout. *)
Definition fourier_cheb : Domain :=
  {| bases := [ {| grid_dtype := complex128; coeff_dtype := complex128 |};
                {| grid_dtype := complex128; coeff_dtype := complex128 |} ] |}.

Definition scipy_bases : list instance :=
  [ {| cls := Fourier;
       forward := Some (Method Fourier "_forward_scipy");
       backward := Some (Method Fourier "_backward_scipy");
       _library := Some "scipy"%string |};
    {| cls := Chebyshev;
       forward := Some (Method Chebyshev "_forward_scipy");
       backward := Some (Method Chebyshev "_backward_scipy");
       _library := Some "scipy"%string |} ].

(** A layout of the two axes on one process. *)
Definition serial (i : nat) (grid_space : list bool) : Layout :=
  {| index := i; local := [true; true]; grid_space := grid_space;
     ldtype := complex128; ext_mesh := [1; 1]%Z; ext_coords := [0; 0]%Z |}.

(** The distributor of that domain on one process. *)
Definition serial_paths : list Path :=
  [ Transform (serial 0 [false; false]) (serial 1 [false; true]) 1
      {| grid_dtype := complex128; coeff_dtype := complex128 |};
    Transform (serial 1 [false; true]) (serial 2 [true; true]) 0
      {| grid_dtype := complex128; coeff_dtype := complex128 |} ].

Definition serial_distributor : Distributor :=
  {| mesh := [];
     layouts := [serial 0 [false; false]; serial 1 [false; true];
                 serial 2 [true; true]];
     paths := serial_paths |}.

Definition zeros (layout : Layout) (meta : option (list Q)) : @operand Q :=
  {| field := {| Field._buffer := replicate 1152 0%Z;
                 Field._layout := layout |};
     meta := meta |}.

End Walk.

(** * Properties *)

(** ** The layout chain *)

Module ChainFacts.

Import Distributor Chain.

Lemma bind_ok {A B : Type} (m : result A) (k : A -> result B) (a : A) :
  m = Ok a -> Py.bind m k = k a.
Proof. intros ->. reflexivity. Qed.

Lemma getitem_ok {A : Type} (l : list A) (i : nat) (x : A) :
  l !! i = Some x -> getitem l i = Ok x.
Proof. unfold getitem. intros ->. reflexivity. Qed.

Lemma setitem_ok {A : Type} (l : list A) (i : nat) (x : A) :
  i < length l -> setitem l i x = Ok (<[i:=x]> l).
Proof. unfold setitem. intros H. destruct (decide (i < length l)); [reflexivity | lia]. Qed.

Lemma length_local_form a j t : length (local_form a j t) = a + j + 1 + t.
Proof. unfold local_form. rewrite length_app; simpl. rewrite length_app, !length_replicate. lia. Qed.

Lemma length_grid_form c g : length (grid_form c g) = c + g.
Proof. unfold grid_form. rewrite length_app, !length_replicate. lia. Qed.

Lemma grid_form_coeff c g d : d < c -> grid_form c g !! d = Some false.
Proof.
  intros H. unfold grid_form.
  rewrite lookup_app_l by (rewrite length_replicate; lia).
  apply lookup_replicate_2, H.
Qed.

Lemma grid_form_grid c g d : c <= d -> d < c + g -> grid_form c g !! d = Some true.
Proof.
  intros H1 H2. unfold grid_form.
  rewrite lookup_app_r by (rewrite length_replicate; lia).
  rewrite length_replicate. apply lookup_replicate_2. lia.
Qed.

Lemma grid_form_insert c g : <[c:=true]> (grid_form (S c) g) = grid_form c (S g).
Proof.
  unfold grid_form. rewrite replicate_S_end, <- app_assoc.
  replace c with (length (replicate c false) + 0) at 1
    by (rewrite length_replicate; lia).
  rewrite insert_app_r. reflexivity.
Qed.

Lemma local_form_front a j t d : d < a -> local_form a j t !! d = Some false.
Proof.
  intros H. unfold local_form.
  rewrite lookup_app_l by (rewrite length_replicate; lia).
  apply lookup_replicate_2, H.
Qed.

Lemma local_form_pivot a j t : local_form a j t !! a = Some true.
Proof.
  unfold local_form.
  rewrite lookup_app_r by (rewrite length_replicate; lia).
  rewrite length_replicate, Nat.sub_diag. reflexivity.
Qed.

Lemma local_form_tail a t d : a <= d -> d < a + 1 + t -> local_form a 0 t !! d = Some true.
Proof.
  intros H1 H2. unfold local_form.
  rewrite lookup_app_r by (rewrite length_replicate; lia).
  rewrite length_replicate. simpl.
  destruct (d - a) as [|k] eqn:E; [reflexivity|]. simpl.
  apply lookup_replicate_2. lia.
Qed.

Lemma local_form_transpose a j t :
  <[a + 1:=false]> (<[a:=true]> (local_form (S a) j t)) = local_form a (S j) t.
Proof.
  unfold local_form. rewrite replicate_S_end, <- app_assoc. simpl.
  replace a with (length (replicate a false) + 0) at 2
    by (rewrite length_replicate; lia).
  rewrite insert_app_r. simpl.
  replace (a + 1) with (length (replicate a false) + 1)
    by (rewrite length_replicate; lia).
  rewrite insert_app_r. reflexivity.
Qed.

Lemma local_form_coeff R D :
  R < D -> replicate R false ++ replicate (D - R) true = local_form R 0 (D - R - 1).
Proof.
  intros H. unfold local_form. simpl.
  destruct (D - R) as [|n] eqn:E; [lia|]. simpl.
  rewrite Nat.sub_0_r. reflexivity.
Qed.

Lemma count_true_app l1 l2 : count_true (l1 ++ l2) = count_true l1 + count_true l2.
Proof. unfold count_true. rewrite filter_app, length_app. reflexivity. Qed.

Lemma count_true_replicate_true n : count_true (replicate n true) = n.
Proof.
  unfold count_true. induction n as [|n IH]; [reflexivity|].
  rewrite replicate_S, filter_cons_True by reflexivity.
  rewrite length_cons, IH. reflexivity.
Qed.

Lemma count_true_replicate_false n : count_true (replicate n false) = 0.
Proof.
  unfold count_true. induction n as [|n IH]; [reflexivity|].
  rewrite replicate_S, filter_cons_False by discriminate. exact IH.
Qed.

Lemma count_distributed a j t : count_true (negb <$> local_form a j t) = a + j.
Proof.
  unfold local_form. rewrite fmap_app, fmap_cons, fmap_app.
  rewrite !fmap_replicate. simpl.
  rewrite count_true_app.
  change (false :: ?l) with ([false] ++ l).
  rewrite !count_true_app, !count_true_replicate_true, count_true_replicate_false.
  unfold count_true. rewrite filter_cons_False by discriminate.
  rewrite filter_nil. simpl. lia.
Qed.

Lemma rev_enumerate_snoc (bs : list Basis) (b : Basis) :
  rev_enumerate (bs ++ [b]) = (length bs, b) :: rev_enumerate bs.
Proof.
  unfold rev_enumerate. rewrite imap_app, reverse_app. simpl.
  rewrite Nat.add_0_r. reflexivity.
Qed.

Lemma indexed_snoc (ls : list Layout) (l : Layout) :
  indexed ls -> index l = length ls -> indexed (ls ++ [l]).
Proof.
  intros Hls Hl k x Hk.
  apply lookup_snoc_Some in Hk as [[_ Hk] | [-> ->]]; [exact (Hls _ _ Hk) | exact Hl].
Qed.

Lemma linked_snoc (ls : list Layout) (ps : list Path) (l0 l1 : Layout) (p : Path) :
  linked ls ps -> length ls = S (length ps) -> last ls = Some l0 ->
  atomic l0 l1 p -> linked (ls ++ [l1]) (ps ++ [p]).
Proof.
  intros Hlink Hlen Hlast Hat k q Hk.
  apply lookup_snoc_Some in Hk as [[Hlt Hk] | [-> ->]].
  - destruct (Hlink _ _ Hk) as (x0 & x1 & H0 & H1 & Hx).
    exists x0, x1. split; [|split]; [| |exact Hx].
    + apply lookup_app_l_Some, H0.
    + apply lookup_app_l_Some, H1.
  - exists l0, l1. split; [|split]; [| |exact Hat].
    + apply lookup_app_l_Some. rewrite last_lookup, Hlen in Hlast. exact Hlast.
    + rewrite <- Hlen. apply list_lookup_middle. reflexivity.
Qed.

Section Run.

Variables (domain : Domain) (mesh coords : list Z).
Hypothesis Hcoords : length coords = length mesh.

Lemma inner_found (bs : list Basis) (i : nat) (st : Build) (d : nat) (b : Basis) :
  bs !! d = Some b ->
  b_grid_space st !! d = Some false ->
  (forall d', d < d' -> d' < length bs -> b_grid_space st !! d' = Some true) ->
  inner domain mesh coords false (rev_enumerate bs) i st
  = let* f := visit domain mesh coords false d b i st in Ok (Some f).
Proof.
  induction bs as [|x bs IH] using rev_ind; intros Hb Hd Hafter.
  - discriminate.
  - rewrite rev_enumerate_snoc. cbn [inner].
    apply lookup_snoc_Some in Hb as [[Hlt Hb] | [-> ->]].
    + rewrite (getitem_ok _ _ true).
      * cbn [Py.bind negb]. apply IH; [exact Hb | exact Hd |].
        intros d' H1 H2. apply Hafter; [exact H1|]. rewrite length_app. simpl. lia.
      * apply Hafter; [exact Hlt|]. rewrite length_app. simpl. lia.
    + rewrite (getitem_ok _ _ false) by exact Hd. reflexivity.
Qed.

Lemma Layout_init_form (a j t : nat) (gs : list bool) (dt : dtype) :
  a + j = length mesh -> a + j + 1 + t = dim domain ->
  exists em ec,
    Layout_init domain mesh coords (local_form a j t) gs dt
    = Ok {| index := 0; local := local_form a j t; grid_space := gs;
            ldtype := dt; ext_mesh := em; ext_coords := ec |}.
Proof.
  intros HR HD. unfold Layout_init, mask_assign.
  rewrite length_fmap, length_local_form, length_replicate, count_distributed.
  rewrite !length_replicate.
  destruct (decide (a + j + 1 + t = dim domain)) as [_|n]; [|contradiction].
  destruct (decide (length mesh = a + j)) as [_|n]; [|symmetry in HR; contradiction].
  destruct (decide (length coords = a + j)) as [_|n]; [|congruence].
  cbn [Py.bind]. eauto.
Qed.

Lemma local_form_local (a j t c : nat) :
  a <= c -> c <= a \/ j = 0 -> c < a + j + 1 + t ->
  local_form a j t !! c = Some true.
Proof.
  intros H1 [H2 | ->] H3.
  - replace c with a by lia. apply local_form_pivot.
  - apply local_form_tail; lia.
Qed.

Lemma getitem_last (ls : list Layout) (l : Layout) :
  last ls = Some l -> getitem ls (length ls - 1) = Ok l.
Proof.
  intros H. apply getitem_ok. rewrite last_lookup in H.
  replace (length ls - 1) with (pred (length ls)) by lia. exact H.
Qed.

(** A local axis in coefficient space is transformed. *)
Lemma step_transform (a j t c g i : nat) (st : Build) :
  a + j = length mesh -> a + j + 1 + t = dim domain -> S c + g = dim domain ->
  a <= c -> c <= a \/ j = 0 ->
  Inv a j t (S c) g i st ->
  exists st', step domain mesh coords false (S i) st = Ok st' /\
              Inv a j t c (S g) (S i) st' /\
              exists l, b_layouts st' = b_layouts st ++ [l].
Proof.
  intros HR HD HG Hac Hj [Hloc Hgs (l0 & Hlast & Hl0loc & Hl0gs & Hl0dt) Hnl Hnp Hidx Hlnk].
  destruct (lookup_lt_is_Some_2 (bases domain) c) as [b Hb]; [unfold dim in HG; lia|].
  destruct (Layout_init_form a j t (grid_form c (S g)) (grid_dtype b) HR HD)
    as (em & ec & Hinit).
  unfold step.
  rewrite (inner_found _ _ _ c b Hb).
  2: { rewrite Hgs. apply grid_form_coeff. lia. }
  2: { intros d' H1 H2. rewrite Hgs. apply grid_form_grid; [lia|]. unfold dim in HG. lia. }
  unfold visit.
  rewrite (getitem_ok _ _ true)
    by (rewrite Hloc; apply local_form_local; [exact Hac | exact Hj | unfold dim in *; lia]).
  cbn [Py.bind].
  rewrite setitem_ok by (rewrite Hgs, length_grid_form; lia).
  cbn [Py.bind].
  rewrite Hgs, grid_form_insert, Hloc, Hinit. cbn [Py.bind].
  rewrite (getitem_last _ _ Hlast). cbn [Py.bind].
  eexists. split; [reflexivity|]. split; [|eexists; reflexivity].
  constructor; cbn.
  - reflexivity.
  - reflexivity.
  - eexists. split; [apply last_snoc|]. cbn. auto.
  - rewrite length_app, Hnl. simpl. lia.
  - rewrite length_app, Hnp. simpl. lia.
  - apply indexed_snoc; [exact Hidx | cbn; lia].
  - apply (linked_snoc _ _ l0); [exact Hlnk | lia | exact Hlast |].
    left. exists c, b. split; [reflexivity|].
    unfold transform_change. cbn. rewrite Hl0gs, Hl0loc.
    split; [apply grid_form_coeff; lia|].
    split; [apply local_form_local; [exact Hac | exact Hj | unfold dim in *; lia]|].
    split; [symmetry; apply grid_form_insert | reflexivity].
Qed.

(** A distributed axis in coefficient space is transposed with the
    next one. *)
Lemma step_transpose (a j t g i : nat) (st : Build) :
  S a + j = length mesh -> S a + j + 1 + t = dim domain -> S a + g = dim domain ->
  Inv (S a) j t (S a) g i st ->
  exists st', step domain mesh coords false (S i) st = Ok st' /\
              Inv a (S j) t (S a) g (S i) st' /\
              exists l, b_layouts st' = b_layouts st ++ [l].
Proof.
  intros HR HD HG [Hloc Hgs (l0 & Hlast & Hl0loc & Hl0gs & Hl0dt) Hnl Hnp Hidx Hlnk].
  destruct (lookup_lt_is_Some_2 (bases domain) a) as [b Hb]; [unfold dim in HG; lia|].
  destruct (Layout_init_form a (S j) t (grid_form (S a) g) (b_dtype st))
    as (em & ec & Hinit); [lia | lia |].
  unfold step.
  rewrite (inner_found _ _ _ a b Hb).
  2: { rewrite Hgs. apply grid_form_coeff. lia. }
  2: { intros d' H1 H2. rewrite Hgs. apply grid_form_grid; [lia|]. unfold dim in HG. lia. }
  unfold visit.
  rewrite (getitem_ok _ _ false) by (rewrite Hloc; apply local_form_front; lia).
  cbn [Py.bind].
  rewrite setitem_ok by (rewrite Hloc, length_local_form; lia).
  cbn [Py.bind].
  rewrite setitem_ok by (rewrite length_insert, Hloc, length_local_form; lia).
  cbn [Py.bind].
  rewrite Hloc, local_form_transpose, Hgs, Hinit. cbn [Py.bind].
  rewrite (getitem_last _ _ Hlast). cbn [Py.bind].
  unfold Transpose_init.
  rewrite setitem_ok by (rewrite length_replicate; lia).
  cbn [Py.bind].
  eexists. split; [reflexivity|]. split; [|eexists; reflexivity].
  constructor; cbn.
  - reflexivity.
  - reflexivity.
  - eexists. split; [apply last_snoc|]. cbn. auto.
  - rewrite length_app, Hnl. simpl. lia.
  - rewrite length_app, Hnp. simpl. lia.
  - apply indexed_snoc; [exact Hidx | cbn; lia].
  - apply (linked_snoc _ _ l0); [exact Hlnk | lia | exact Hlast |].
    right. eexists a, _. split; [reflexivity|].
    unfold transpose_change. cbn. rewrite Hl0gs, Hl0loc.
    split; [apply local_form_front; lia|].
    split; [replace (a + 1) with (S a) by lia; apply local_form_pivot|].
    split; [symmetry; apply local_form_transpose|].
    split; [reflexivity | symmetry; exact Hl0dt].
Qed.

Lemma for_range_cons (i n : nat) (st st' : Build) :
  step domain mesh coords false i st = Ok st' ->
  for_range domain mesh coords false (seq i (S n)) st
  = for_range domain mesh coords false (seq (S i) n) st'.
Proof. intros H. cbn [seq for_range]. rewrite H. reflexivity. Qed.

(** From any state of the chain, the remaining [a + c] iterations reach
    the grid layout, and only append to the layouts. *)
Lemma for_range_run (n : nat) :
  forall (a j t c g i : nat) (st : Build),
    n = a + c ->
    a + j = length mesh -> a + j + 1 + t = dim domain -> c + g = dim domain ->
    valid a j c ->
    Inv a j t c g i st ->
    exists st', for_range domain mesh coords false (seq (S i) n) st = Ok st' /\
                Inv 0 (length mesh) t 0 (dim domain) (i + n) st' /\
                exists more, b_layouts st' = b_layouts st ++ more.
Proof.
  induction n as [|n IH]; intros a j t c g i st Hn HR HD HG [Hac Hv] HInv.
  - assert (a = 0) as -> by lia. assert (c = 0) as -> by lia.
    simpl in HR, HG. subst j g. rewrite Nat.add_0_r.
    exists st. split; [reflexivity|]. split; [exact HInv|].
    exists []. rewrite app_nil_r. reflexivity.
  - destruct (decide (a = c)) as [Heq|Hne].
    + subst c. destruct a as [|a]; [lia|].
      destruct (step_transpose a j t g i st) as (st1 & Hstep & HInv1 & l & Hl);
        [lia | lia | lia | exact HInv |].
      destruct (IH a (S j) t (S a) g (S i) st1) as (st2 & Hrun & HInv2 & more & Hmore);
        [lia | lia | lia | lia | split; lia | exact HInv1 |].
      exists st2. rewrite (for_range_cons _ _ _ _ Hstep).
      split; [exact Hrun|]. split.
      * replace (i + S n) with (S i + n) by lia. exact HInv2.
      * exists (l :: more). rewrite Hmore, Hl, <- app_assoc. reflexivity.
    + destruct c as [|c]; [lia|].
      destruct (step_transform a j t c g i st) as (st1 & Hstep & HInv1 & l & Hl);
        [lia | lia | lia | lia | lia | exact HInv |].
      destruct (IH a j t c (S g) (S i) st1) as (st2 & Hrun & HInv2 & more & Hmore);
        [lia | lia | lia | lia | split; lia | exact HInv1 |].
      exists st2. rewrite (for_range_cons _ _ _ _ Hstep).
      split; [exact Hrun|]. split.
      * replace (i + S n) with (S i + n) by lia. exact HInv2.
      * exists (l :: more). rewrite Hmore, Hl, <- app_assoc. reflexivity.
Qed.

(** [_build_layouts] returns, and its lists have the closed forms. *)
Lemma build_layouts_chain :
  length mesh < dim domain ->
  exists ls ps,
    build_layouts domain mesh coords false = Ok (ls, ps) /\
    length ls = length mesh + dim domain + 1 /\
    length ps = length mesh + dim domain /\
    indexed ls /\ linked ls ps /\
    (exists l0, ls !! 0 = Some l0 /\
       local l0 = replicate (length mesh) false
                    ++ replicate (dim domain - length mesh) true /\
       grid_space l0 = replicate (dim domain) false) /\
    (exists lf, last ls = Some lf /\
       local lf = local_form 0 (length mesh) (dim domain - length mesh - 1) /\
       grid_space lf = grid_form 0 (dim domain)).
Proof.
  intros HRD. unfold build_layouts.
  destruct (lookup_lt_is_Some_2 (bases domain) (dim domain - 1)) as [b Hb];
    [unfold dim in *; lia|].
  rewrite (getitem_ok _ _ _ Hb). cbn [Py.bind].
  rewrite (local_form_coeff _ _ HRD).
  destruct (Layout_init_form (length mesh) 0 (dim domain - length mesh - 1)
              (replicate (dim domain) false) (coeff_dtype b))
    as (em & ec & Hinit); [lia | lia |].
  rewrite Hinit. cbn [Py.bind].
  match goal with
  | |- context [for_range _ _ _ _ _ ?st] => set (st0 := st)
  end.
  assert (HInv : Inv (length mesh) 0 (dim domain - length mesh - 1)
                   (dim domain) 0 0 st0).
  { constructor; subst st0; cbn.
    - reflexivity.
    - unfold grid_form. simpl. rewrite app_nil_r. reflexivity.
    - eexists. split; [reflexivity|]. cbn. split; [reflexivity|].
      split; [|reflexivity]. unfold grid_form. simpl. rewrite app_nil_r. reflexivity.
    - reflexivity.
    - reflexivity.
    - intros [|k] l Hk; [|discriminate]. injection Hk as <-. reflexivity.
    - intros k p Hk. discriminate. }
  destruct (for_range_run (length mesh + dim domain) (length mesh) 0
              (dim domain - length mesh - 1) (dim domain) 0 0 st0)
    as (st' & Hrun & HInv' & more & Hmore);
    [lia | lia | lia | lia | split; lia | exact HInv |].
  rewrite Hrun. cbn [Py.bind].
  destruct HInv' as [_ _ (lf & Hlast & Hlfloc & Hlfgs & _) Hnl Hnp Hidx Hlnk].
  exists (b_layouts st'), (b_paths st').
  split; [reflexivity|].
  split; [rewrite Hnl; simpl; lia|].
  split; [rewrite Hnp; simpl; lia|].
  split; [exact Hidx|]. split; [exact Hlnk|]. split.
  - rewrite Hmore. subst st0. cbn. eexists. split; [reflexivity|]. cbn.
    split; reflexivity.
  - exists lf. auto.
Qed.

End Run.

Lemma indexed_seq (ls : list Layout) :
  indexed ls -> index <$> ls = seq 0 (length ls).
Proof.
  intros H. apply list_eq. intros k. rewrite list_lookup_fmap.
  destruct (ls !! k) as [l|] eqn:E; simpl.
  - rewrite (H _ _ E). symmetry. apply lookup_seq_lt.
    apply lookup_lt_Some in E. exact E.
  - symmetry. apply lookup_seq_ge. apply lookup_ge_None in E. exact E.
Qed.

Lemma Distributor_init_chain (domain : Domain) (mesh : option (list Z))
    (size : Z) (cart_coords : list Z -> list Z) :
  let eff := effective_mesh mesh size in
  length eff < dim domain -> prodZ eff = size ->
  length (cart_coords eff) = length eff ->
  exists ls ps,
    Distributor_init domain mesh size cart_coords
    = Ok {| Distributor.mesh := eff; layouts := ls; paths := ps |} /\
    length ls = length eff + dim domain + 1 /\
    length ps = length eff + dim domain /\
    indexed ls /\ linked ls ps /\
    (exists l0, ls !! 0 = Some l0 /\
       local l0 = replicate (length eff) false
                    ++ replicate (dim domain - length eff) true /\
       grid_space l0 = replicate (dim domain) false) /\
    (exists lf, last ls = Some lf /\
       local lf = local_form 0 (length eff) (dim domain - length eff - 1) /\
       grid_space lf = grid_form 0 (dim domain)).
Proof.
  intros eff HRD Hprod Hcoords.
  destruct (build_layouts_chain domain eff (cart_coords eff) Hcoords HRD)
    as (ls & ps & Hbuild & H).
  exists ls, ps. split; [|exact H].
  unfold Distributor_init. fold eff.
  destruct (decide (dim domain <= length eff)); [lia|].
  destruct (decide (prodZ eff = size)); [|contradiction].
  rewrite Hbuild. reflexivity.
Qed.

(** C1. For a domain of dimension [D] and a mesh with [R < D] effective
    dimensions, the distributor is built and holds exactly [R+D+1] layouts,
    indexed [0..R+D], and [R+D] paths; layout 0 has
    [local = [False]*R + [True]*(D-R)] and is in coefficient space on every
    axis; layout [R+D] is in grid space on every axis, with axis 0 local,
    axes [1..R] distributed and the tail local. *)
Theorem layout_graph_structure (domain : Domain) (mesh : option (list Z))
    (size : Z) (cart_coords : list Z -> list Z) (R D : nat) :
  length (effective_mesh mesh size) = R ->
  dim domain = D ->
  R < D ->
  prodZ (effective_mesh mesh size) = size ->
  length (cart_coords (effective_mesh mesh size)) = R ->
  exists dist,
    Distributor_init domain mesh size cart_coords = Ok dist /\
    length (layouts dist) = R + D + 1 /\
    index <$> layouts dist = seq 0 (R + D + 1) /\
    length (paths dist) = R + D /\
    (exists l0, layouts dist !! 0 = Some l0 /\
       local l0 = replicate R false ++ replicate (D - R) true /\
       grid_space l0 = replicate D false) /\
    (exists lf, layouts dist !! (R + D) = Some lf /\
       grid_space lf = replicate D true /\
       local lf = [true] ++ replicate R false ++ replicate (D - R - 1) true).
Proof.
  intros HR HD HRD Hprod Hcoords. subst R D.
  destruct (Distributor_init_chain domain mesh size cart_coords HRD Hprod Hcoords)
    as (ls & ps & Hinit & Hnl & Hnp & Hidx & _ & Hl0 & lf & Hlast & Hlfloc & Hlfgs).
  eexists. split; [exact Hinit|]. cbn.
  split; [exact Hnl|].
  split; [rewrite (indexed_seq _ Hidx), Hnl; reflexivity|].
  split; [exact Hnp|].
  split; [exact Hl0|].
  exists lf. rewrite last_lookup, Hnl in Hlast.
  replace (pred (length (effective_mesh mesh size) + dim domain + 1))
    with (length (effective_mesh mesh size) + dim domain) in Hlast by lia.
  split; [exact Hlast|]. split; [exact Hlfgs | exact Hlfloc].
Qed.

Lemma layout_graph_structure_witness :
  exists dist,
    Distributor_init fourier_cheb_cheb None 4 (fun _ => [1%Z]) = Ok dist /\
    length (layouts dist) = 1 + 3 + 1 /\
    index <$> layouts dist = seq 0 (1 + 3 + 1) /\
    length (paths dist) = 1 + 3 /\
    (exists l0, layouts dist !! 0 = Some l0 /\
       local l0 = replicate 1 false ++ replicate (3 - 1) true /\
       grid_space l0 = replicate 3 false) /\
    (exists lf, layouts dist !! (1 + 3) = Some lf /\
       grid_space lf = replicate 3 true /\
       local lf = [true] ++ replicate 1 false ++ replicate (3 - 1 - 1) true).
Proof.
  apply (layout_graph_structure fourier_cheb_cheb None 4 (fun _ => [1%Z]) 1 3).
  - reflexivity.
  - reflexivity.
  - lia.
  - reflexivity.
  - reflexivity.
Defined.

(** C2. Every consecutive pair of layouts of the chain is joined by the
    path of the same position, and differs by exactly one atomic change:
    a transform that turns one local axis from coefficient to grid space
    and leaves the locality flags alone, or a transpose that makes axis [d]
    local and axis [d+1] distributed and leaves the grid-space flags and the
    dtype alone. *)
Theorem adjacent_layouts_atomic (domain : Domain) (mesh : option (list Z))
    (size : Z) (cart_coords : list Z -> list Z) (R D : nat) :
  length (effective_mesh mesh size) = R ->
  dim domain = D ->
  R < D ->
  prodZ (effective_mesh mesh size) = size ->
  length (cart_coords (effective_mesh mesh size)) = R ->
  exists dist,
    Distributor_init domain mesh size cart_coords = Ok dist /\
    forall i, i < R + D ->
      exists layout_i layout_i1 path_i,
        layouts dist !! i = Some layout_i /\
        layouts dist !! (i + 1) = Some layout_i1 /\
        paths dist !! i = Some path_i /\
        atomic layout_i layout_i1 path_i.
Proof.
  intros HR HD HRD Hprod Hcoords. subst R D.
  destruct (Distributor_init_chain domain mesh size cart_coords HRD Hprod Hcoords)
    as (ls & ps & Hinit & _ & Hnp & _ & Hlnk & _).
  eexists. split; [exact Hinit|]. cbn. intros i Hi.
  destruct (lookup_lt_is_Some_2 ps i) as [p Hp]; [lia|].
  destruct (Hlnk _ _ Hp) as (l0 & l1 & H0 & H1 & Hat).
  exists l0, l1, p. rewrite Nat.add_1_r. auto.
Qed.

Lemma adjacent_layouts_atomic_witness :
  exists dist,
    Distributor_init fourier_cheb_cheb None 4 (fun _ => [1%Z]) = Ok dist /\
    forall i, i < 1 + 3 ->
      exists layout_i layout_i1 path_i,
        layouts dist !! i = Some layout_i /\
        layouts dist !! (i + 1) = Some layout_i1 /\
        paths dist !! i = Some path_i /\
        atomic layout_i layout_i1 path_i.
Proof.
  apply (adjacent_layouts_atomic fourier_cheb_cheb None 4 (fun _ => [1%Z]) 1 3).
  - reflexivity.
  - reflexivity.
  - lia.
  - reflexivity.
  - reflexivity.
Defined.

End ChainFacts.

(** ** The block distribution *)

Module ShapeFacts.

Import Distributor Shape.

Local Open Scope Z_scope.

Lemma length_scatter (base : list Z) (mask : list bool) (vals : list Z) :
  length (scatter base mask vals) = length base.
Proof.
  revert mask vals. induction base as [|b bs IH]; intros [|[] ms] vals; try reflexivity.
  - destruct vals; simpl; rewrite IH; reflexivity.
  - simpl. rewrite IH. reflexivity.
Qed.

Lemma length_fill (base : list Z) (mask : list bool) (x : Z) :
  length (fill base mask x) = length base.
Proof.
  revert mask. induction base as [|b bs IH]; intros [|m ms]; try reflexivity.
  simpl. rewrite IH. reflexivity.
Qed.

(** [base[mask] = vals[mask]] takes, position by position, the value
    where the mask holds and keeps the base elsewhere. *)
Lemma lookup_scatter_gather (base : list Z) (mask : list bool) (vals : list Z)
    (d : nat) (b v : Z) (m : bool) :
  base !! d = Some b -> mask !! d = Some m -> vals !! d = Some v ->
  scatter base mask (gather vals mask) !! d = Some (if m then v else b).
Proof.
  revert base mask vals.
  induction d as [|d IH]; intros [|b0 bs] [|m0 ms] [|v0 vs] Hb Hm Hv;
    try discriminate; simpl in Hb, Hm, Hv.
  - injection Hb as ->. injection Hm as ->. injection Hv as ->.
    destruct m; reflexivity.
  - destruct m0; simpl; apply IH; assumption.
Qed.

Lemma lookup_fill (base : list Z) (mask : list bool) (x : Z) (d : nat) (b : Z) (m : bool) :
  base !! d = Some b -> mask !! d = Some m ->
  fill base mask x !! d = Some (if m then x else b).
Proof.
  revert base mask.
  induction d as [|d IH]; intros [|b0 bs] [|m0 ms] Hb Hm; try discriminate;
    simpl in Hb, Hm.
  - injection Hb as ->. injection Hm as ->. reflexivity.
  - simpl. apply IH; assumption.
Qed.

Lemma ceil_div_bounds (g m : Z) :
  0 < m -> (ceil_div g m - 1) * m < g <= ceil_div g m * m.
Proof.
  intros Hm. unfold ceil_div.
  pose proof (Z.mul_div_le (- g) m Hm).
  pose proof (Z.mul_succ_div_gt (- g) m Hm).
  lia.
Qed.

Lemma floor_div_bounds (g b : Z) :
  0 < b -> floor_div g b * b <= g < (floor_div g b + 1) * b.
Proof.
  intros Hb. unfold floor_div.
  pose proof (Z.mul_div_le g b Hb).
  pose proof (Z.mul_succ_div_gt g b Hb).
  lia.
Qed.

Lemma ceil_div_pos (g m : Z) : 0 < g -> 0 < m -> 0 < ceil_div g m.
Proof. intros Hg Hm. pose proof (ceil_div_bounds g m Hm). nia. Qed.

Lemma lookup_blocks (layout : Layout) (coeff grid : list Z) (d : nat) (g m : Z) :
  global_shape layout coeff grid !! d = Some g ->
  ext_mesh layout !! d = Some m ->
  blocks layout coeff grid !! d = Some (ceil_div g m).
Proof.
  intros Hg Hm. unfold blocks. rewrite lookup_zip_with, Hg, Hm. reflexivity.
Qed.

Lemma lookup_local_shape (layout : Layout) (coeff grid : list Z) (d : nat) (g m c : Z) :
  global_shape layout coeff grid !! d = Some g ->
  ext_mesh layout !! d = Some m ->
  ext_coords layout !! d = Some c ->
  local_shape layout coeff grid !! d = Some (local_size g m c).
Proof.
  intros Hg Hm Hc. pose proof (lookup_blocks _ _ _ _ _ _ Hg Hm) as Hb.
  unfold local_shape.
  set (cuts := zip_with floor_div _ _).
  assert (Hcut : cuts !! d = Some (floor_div g (ceil_div g m))).
  { subst cuts. rewrite lookup_zip_with, Hg, Hb. reflexivity. }
  erewrite lookup_fill; cycle 1.
  - apply lookup_scatter_gather.
    + exact Hb.
    + rewrite lookup_zip_with, Hc, Hcut. reflexivity.
    + rewrite lookup_zip_with, Hg. simpl.
      rewrite lookup_zip_with, Hcut, Hb. reflexivity.
  - rewrite lookup_zip_with, Hc, Hcut. reflexivity.
  - unfold local_size. simpl. reflexivity.
Qed.

Lemma cut_layout_shapes (grid : list Z) (r : Z) :
  0 <= r <= 3 ->
  exists l, cut_layout r = Ok l /\
    global_shape l [9; 8] grid = [9; 8] /\
    blocks l [9; 8] grid = [3; 8] /\
    local_shape l [9; 8] grid = if r <? 3 then [3; 8] else [0; 8].
Proof.
  intros Hr.
  assert (Hglobal : forall l, grid_space l = [false; false] ->
                      global_shape l [9; 8] grid = [9; 8]).
  { intros l Hl. unfold global_shape. rewrite Hl.
    destruct grid as [|x [|y grid]]; reflexivity. }
  assert (r = 0 \/ r = 1 \/ r = 2 \/ r = 3) as [-> | [-> | [-> | ->]]] by lia;
    (eexists; split; [reflexivity|]);
    unfold local_shape, blocks; rewrite Hglobal by reflexivity;
    repeat split; reflexivity.
Qed.

(** C4. On every axis of a layout, the block is the global size divided
    by the number of processes along the axis, rounded up, the cut is the
    global size divided by the block, rounded down, and a process holds a
    whole block below the cut, the remainder at the cut and nothing past
    it.  With global shape [9, 8] and four processes along axis 0, the
    processes 0 to 2 hold [3, 8] and process 3 holds [0, 8]. *)
Theorem local_shape_block_distribution (layout : Layout) (coeff grid : list Z)
    (d : nat) (g m c : Z) :
  global_shape layout coeff grid !! d = Some g ->
  ext_mesh layout !! d = Some m ->
  ext_coords layout !! d = Some c ->
  0 < g -> 0 < m ->
  (exists b cut,
     blocks layout coeff grid !! d = Some b /\
     (b - 1) * m < g <= b * m /\
     cut * b <= g < (cut + 1) * b /\
     (c < cut -> local_shape layout coeff grid !! d = Some b) /\
     (c = cut -> local_shape layout coeff grid !! d = Some (g - cut * b)) /\
     (cut < c -> local_shape layout coeff grid !! d = Some 0)) /\
  (forall (scaled : list Z) (r : Z), 0 <= r <= 3 ->
     exists l, cut_layout r = Ok l /\
       global_shape l [9; 8] scaled = [9; 8] /\
       blocks l [9; 8] scaled = [3; 8] /\
       local_shape l [9; 8] scaled = if r <? 3 then [3; 8] else [0; 8]).
Proof.
  intros Hg Hm Hc Hgpos Hmpos. split; [|exact cut_layout_shapes].
  exists (ceil_div g m), (floor_div g (ceil_div g m)).
  pose proof (ceil_div_pos g m Hgpos Hmpos) as Hb.
  split; [exact (lookup_blocks _ _ _ _ _ _ Hg Hm)|].
  split; [exact (ceil_div_bounds g m Hmpos)|].
  split; [exact (floor_div_bounds g _ Hb)|].
  rewrite (lookup_local_shape _ _ _ _ _ _ _ Hg Hm Hc). unfold local_size.
  repeat split; intros H.
  - destruct (Z.gtb_spec c (floor_div g (ceil_div g m))); [lia|].
    destruct (Z.eqb_spec c (floor_div g (ceil_div g m))); [lia | reflexivity].
  - destruct (Z.gtb_spec c (floor_div g (ceil_div g m))); [lia|].
    destruct (Z.eqb_spec c (floor_div g (ceil_div g m))); [reflexivity | lia].
  - destruct (Z.gtb_spec c (floor_div g (ceil_div g m))); [reflexivity | lia].
Qed.

Lemma sumZ_cons (x : Z) (l : list Z) : sumZ (x :: l) = x + sumZ l.
Proof. reflexivity. Qed.

Lemma sumZ_app (l k : list Z) : sumZ (l ++ k) = sumZ l + sumZ k.
Proof.
  induction l as [|x l IH]; [reflexivity|].
  rewrite <- app_comm_cons, !sumZ_cons, IH. lia.
Qed.

Lemma sumZ_scale_l {A : Type} (a : Z) (f : A -> Z) (l : list A) :
  sumZ ((fun x => a * f x) <$> l) = a * sumZ (f <$> l).
Proof.
  induction l as [|x l IH]; [cbn; lia|].
  rewrite !fmap_cons, !sumZ_cons, IH. lia.
Qed.

Lemma sumZ_scale_r {A : Type} (a : Z) (f : A -> Z) (l : list A) :
  sumZ ((fun x => f x * a) <$> l) = sumZ (f <$> l) * a.
Proof.
  induction l as [|x l IH]; [cbn; lia|].
  rewrite !fmap_cons, !sumZ_cons, IH. lia.
Qed.

Lemma sumZ_bind {A B : Type} (f : B -> Z) (k : A -> list B) (l : list A) :
  sumZ (f <$> (l ≫= k)) = sumZ ((fun x => sumZ (f <$> k x)) <$> l).
Proof.
  induction l as [|x l IH]; [reflexivity|].
  rewrite bind_cons, fmap_app, sumZ_app, IH, fmap_cons, sumZ_cons. reflexivity.
Qed.

(** The sizes of one axis over its processes add up to the axis. *)
Lemma axis_partial (g m : Z) (n : nat) :
  0 < g -> 0 < m -> Z.of_nat n <= m ->
  sumZ (local_size g m <$> seqZ 0 (Z.of_nat n))
  = if Z.of_nat n <=? floor_div g (ceil_div g m)
    then Z.of_nat n * ceil_div g m else g.
Proof.
  intros Hg Hm. pose proof (ceil_div_pos g m Hg Hm) as Hb.
  pose proof (floor_div_bounds g _ Hb) as Hcut.
  induction n as [|n IH]; intros Hn.
  - change (Z.of_nat 0) with 0. rewrite seqZ_nil by lia.
    destruct (Z.leb_spec 0 (floor_div g (ceil_div g m))); [reflexivity | nia].
  - rewrite seqZ_S, fmap_app, sumZ_app, IH by lia.
    rewrite Z.add_0_l. cbn [fmap list_fmap sumZ foldr]. unfold local_size.
    destruct (Z.leb_spec (Z.of_nat n) (floor_div g (ceil_div g m)));
      destruct (Z.leb_spec (Z.of_nat (S n)) (floor_div g (ceil_div g m)));
      destruct (Z.gtb_spec (Z.of_nat n) (floor_div g (ceil_div g m)));
      destruct (Z.eqb_spec (Z.of_nat n) (floor_div g (ceil_div g m)));
      lia.
Qed.

Lemma axis_total (g m : Z) :
  0 < g -> 0 < m -> sumZ (local_size g m <$> seqZ 0 m) = g.
Proof.
  intros Hg Hm. pose proof (ceil_div_pos g m Hg Hm) as Hb.
  pose proof (floor_div_bounds g _ Hb) as Hcut.
  pose proof (ceil_div_bounds g m Hm) as Hceil.
  rewrite <- (Z2Nat.id m) at 2 by lia.
  rewrite axis_partial by lia. rewrite Z2Nat.id by lia.
  destruct (Z.leb_spec m (floor_div g (ceil_div g m))); [nia | reflexivity].
Qed.

Lemma local_size_whole (g : Z) : 0 < g -> local_size g 1 0 = g.
Proof.
  intros Hg. unfold local_size.
  pose proof (ceil_div_bounds g 1 ltac:(lia)) as Hb.
  assert (ceil_div g 1 = g) as -> by lia.
  pose proof (floor_div_bounds g g Hg) as Hcut.
  assert (floor_div g g = 1) as -> by nia.
  reflexivity.
Qed.

Lemma sumZ_fmap_ext {A : Type} (f g : A -> Z) (l : list A) :
  (forall x, f x = g x) -> sumZ (f <$> l) = sumZ (g <$> l).
Proof. intros H. f_equal. apply list_fmap_ext. intros _ x _. apply H. Qed.

Lemma count_true_cons (b : bool) (l : list bool) :
  count_true (b :: l) = ((if b then 1 else 0) + count_true l)%nat.
Proof.
  unfold count_true. destruct b.
  - rewrite filter_cons_True by reflexivity. reflexivity.
  - rewrite filter_cons_False by discriminate. reflexivity.
Qed.

(** Summed over all processes, the local element counts give the global
    count: the sum of products is the product of the sums per axis. *)
Lemma product_total (local : list bool) :
  forall (global mesh : list Z),
    length global = length local ->
    count_true (negb <$> local) = length mesh ->
    Forall (fun g => 0 < g) global -> Forall (fun m => 0 < m) mesh ->
    sumZ ((fun coords =>
             prodZ (local_sizes global
                      (scatter (replicate (length local) 1) (negb <$> local) mesh)
                      (scatter (replicate (length local) 0) (negb <$> local) coords)))
            <$> all_coords mesh)
    = prodZ global.
Proof.
  induction local as [|[] local IH]; intros global mesh Hlen Hcount Hglobal Hmesh.
  - destruct global; [|discriminate]. destruct mesh; [|discriminate]. reflexivity.
  - destruct global as [|g global]; [discriminate|].
    apply Forall_cons in Hglobal as [Hg Hglobal].
    rewrite fmap_cons, count_true_cons in Hcount. simpl in Hcount.
    rewrite (sumZ_fmap_ext _ (fun coords =>
               g * prodZ (local_sizes global
                            (scatter (replicate (length local) 1) (negb <$> local) mesh)
                            (scatter (replicate (length local) 0) (negb <$> local) coords)))).
    + rewrite sumZ_scale_l, IH; [reflexivity | | exact Hcount | exact Hglobal | exact Hmesh].
      simpl in Hlen. lia.
    + intros coords. cbn. rewrite (local_size_whole g Hg). reflexivity.
  - destruct global as [|g global]; [discriminate|].
    apply Forall_cons in Hglobal as [Hg Hglobal].
    rewrite fmap_cons, count_true_cons in Hcount. simpl in Hcount.
    destruct mesh as [|m mesh]; [discriminate|].
    apply Forall_cons in Hmesh as [Hm Hmesh].
    cbn [all_coords]. rewrite sumZ_bind.
    rewrite (sumZ_fmap_ext _ (fun c => local_size g m c * prodZ global)).
    + rewrite sumZ_scale_r, (axis_total g m Hg Hm). reflexivity.
    + intros c. rewrite <- list_fmap_compose.
      rewrite (sumZ_fmap_ext _ (fun coords =>
                 local_size g m c *
                 prodZ (local_sizes global
                          (scatter (replicate (length local) 1) (negb <$> local) mesh)
                          (scatter (replicate (length local) 0) (negb <$> local) coords))));
        [|reflexivity].
      rewrite sumZ_scale_l, IH; [reflexivity | | | exact Hglobal | exact Hmesh].
      * simpl in Hlen. lia.
      * simpl in Hcount. lia.
Qed.

Lemma Layout_init_ok (domain : Domain) (mesh coords : list Z)
    (local grid_space : list bool) (dt : dtype) :
  length local = dim domain ->
  count_true (negb <$> local) = length mesh ->
  length coords = length mesh ->
  Layout_init domain mesh coords local grid_space dt
  = Ok {| index := 0; local := local; grid_space := grid_space; ldtype := dt;
          ext_mesh := scatter (replicate (dim domain) 1) (negb <$> local) mesh;
          ext_coords := scatter (replicate (dim domain) 0) (negb <$> local) coords |}.
Proof.
  intros Hlocal Hcount Hcoords. unfold Layout_init, mask_assign.
  rewrite length_fmap, !length_replicate, Hcount, Hlocal, Hcoords.
  destruct (decide (dim domain = dim domain)) as [_|n]; [|contradiction].
  destruct (decide (length mesh = length mesh)) as [_|n]; [|contradiction].
  reflexivity.
Qed.

Lemma length_all_coords_elem (mesh coords : list Z) :
  coords ∈ all_coords mesh -> length coords = length mesh.
Proof.
  revert coords. induction mesh as [|m mesh IH]; intros coords H.
  - apply list_elem_of_singleton in H. subst. reflexivity.
  - cbn [all_coords] in H. apply list_elem_of_bind in H as (c & H & _).
    apply list_elem_of_fmap in H as (cs & -> & H). simpl. rewrite (IH _ H). reflexivity.
Qed.

Lemma length_bind_const {A B : Type} (k : A -> list B) (l : list A) (n : nat) :
  (forall x, length (k x) = n) -> length (l ≫= k) = (length l * n)%nat.
Proof.
  intros H. induction l as [|x l IH]; [reflexivity|].
  rewrite bind_cons, length_app, H, IH. simpl. reflexivity.
Qed.

Lemma prodZ_pos (l : list Z) : Forall (fun x => 0 < x) l -> 0 < prodZ l.
Proof.
  induction 1 as [|x l Hx _ IH]; [reflexivity|].
  change (prodZ (x :: l)) with (x * prodZ l). lia.
Qed.

(** One coordinate tuple per process. *)
Lemma length_all_coords (mesh : list Z) :
  Forall (fun m => 0 < m) mesh ->
  length (all_coords mesh) = Z.to_nat (prodZ mesh).
Proof.
  induction 1 as [|m mesh Hm Hmesh IH]; [reflexivity|].
  cbn [all_coords].
  rewrite (length_bind_const _ _ (length (all_coords mesh)))
    by (intros c; apply length_fmap).
  rewrite length_seqZ, IH. change (prodZ (m :: mesh)) with (m * prodZ mesh).
  pose proof (prodZ_pos mesh Hmesh).
  rewrite Z2Nat.inj_mul by lia. reflexivity.
Qed.

Lemma for_each_ok {A B : Type} (f : A -> result B) (g : A -> B) (l : list A) :
  (forall x, x ∈ l -> f x = Ok (g x)) -> for_each f l = Ok (g <$> l).
Proof.
  induction l as [|x l IH]; intros H; [reflexivity|].
  cbn [for_each]. rewrite (H x) by apply list_elem_of_here. cbn [Py.bind].
  rewrite IH by (intros y Hy; apply H, list_elem_of_further, Hy). reflexivity.
Qed.

Lemma local_shape_sizes (layout : Layout) (coeff grid : list Z) :
  length (ext_mesh layout) = length coeff ->
  length (ext_coords layout) = length coeff ->
  local_shape layout coeff grid
  = local_sizes (global_shape layout coeff grid) (ext_mesh layout) (ext_coords layout).
Proof.
  intros Hm Hc.
  assert (Hg : length (global_shape layout coeff grid) = length coeff)
    by apply length_scatter.
  apply (list_eq_same_length _ _ (length coeff)).
  - unfold local_sizes. rewrite length_zip_with, length_zip, Hg, Hm, Hc. lia.
  - unfold local_shape. rewrite length_fill, length_scatter.
    unfold blocks. rewrite length_zip_with, Hg, Hm. lia.
  - intros i x y Hi Hx Hy.
    destruct (lookup_lt_is_Some_2 (global_shape layout coeff grid) i) as [g Hgi]; [lia|].
    destruct (lookup_lt_is_Some_2 (ext_mesh layout) i) as [m Hmi]; [lia|].
    destruct (lookup_lt_is_Some_2 (ext_coords layout) i) as [c Hci]; [lia|].
    rewrite (lookup_local_shape _ _ _ _ _ _ _ Hgi Hmi Hci) in Hx.
    unfold local_sizes in Hy.
    rewrite lookup_zip_with, Hgi in Hy. simpl in Hy.
    rewrite lookup_zip_with, Hmi, Hci in Hy. simpl in Hy. congruence.
Qed.

Lemma global_shape_pos (layout : Layout) (coeff grid : list Z) :
  length (grid_space layout) = length coeff -> length grid = length coeff ->
  Forall (fun g => 0 < g) coeff -> Forall (fun g => 0 < g) grid ->
  Forall (fun g => 0 < g) (global_shape layout coeff grid).
Proof.
  intros Hs Hgrid Hc Hg. apply Forall_lookup_2. intros i x Hx.
  assert (Hi : (i < length coeff)%nat).
  { apply lookup_lt_Some in Hx. unfold global_shape in Hx.
    rewrite length_scatter in Hx. exact Hx. }
  destruct (lookup_lt_is_Some_2 coeff i) as [gc Hgc]; [lia|].
  destruct (lookup_lt_is_Some_2 grid i) as [gg Hgg]; [lia|].
  destruct (lookup_lt_is_Some_2 (grid_space layout) i) as [s Hsi]; [lia|].
  unfold global_shape in Hx.
  rewrite (lookup_scatter_gather _ _ _ _ _ _ _ Hgc Hsi Hgg) in Hx.
  injection Hx as <-.
  destruct s; [exact (Forall_lookup_1 _ _ _ _ Hg Hgg) | exact (Forall_lookup_1 _ _ _ _ Hc Hgc)].
Qed.

Lemma local_shape_block_distribution_witness :
  (exists b cut,
     blocks last_rank_layout [9; 8] [9; 8] !! 0%nat = Some b /\
     (b - 1) * 4 < 9 <= b * 4 /\
     cut * b <= 9 < (cut + 1) * b /\
     (3 < cut -> local_shape last_rank_layout [9; 8] [9; 8] !! 0%nat = Some b) /\
     (3 = cut ->
      local_shape last_rank_layout [9; 8] [9; 8] !! 0%nat = Some (9 - cut * b)) /\
     (cut < 3 -> local_shape last_rank_layout [9; 8] [9; 8] !! 0%nat = Some 0)) /\
  (forall (scaled : list Z) (r : Z), 0 <= r <= 3 ->
     exists l, cut_layout r = Ok l /\
       global_shape l [9; 8] scaled = [9; 8] /\
       blocks l [9; 8] scaled = [3; 8] /\
       local_shape l [9; 8] scaled = if r <? 3 then [3; 8] else [0; 8]).
Proof.
  apply (local_shape_block_distribution last_rank_layout [9; 8] [9; 8] 0 9 4 3).
  - reflexivity.
  - reflexivity.
  - reflexivity.
  - lia.
  - lia.
Defined.

(** C5. Take the layouts that the processes of a mesh build from the same
    flags, one per coordinate tuple.  The products of their local shapes
    add up to the product of the global shape: the block distribution
    neither loses nor duplicates an element. *)
Theorem shape_conservation (domain : Domain) (mesh : list Z)
    (local grid_space : list bool) (dt : dtype) (coeff grid : list Z) :
  length local = dim domain ->
  length grid_space = dim domain ->
  length coeff = dim domain ->
  length grid = dim domain ->
  count_true (negb <$> local) = length mesh ->
  Forall (fun m => 0 < m) mesh ->
  Forall (fun g => 0 < g) coeff ->
  Forall (fun g => 0 < g) grid ->
  exists ls,
    for_each (fun coords => Layout_init domain mesh coords local grid_space dt)
      (all_coords mesh) = Ok ls /\
    length ls = Z.to_nat (prodZ mesh) /\
    forall l, l ∈ ls ->
      sumZ ((fun rank_layout => prodZ (local_shape rank_layout coeff grid)) <$> ls)
      = prodZ (global_shape l coeff grid).
Proof.
  intros Hlocal Hspace Hcoeff Hgrid Hcount Hmesh Hcpos Hgpos.
  set (mk := fun coords =>
    {| index := 0; local := local; grid_space := grid_space; ldtype := dt;
       ext_mesh := scatter (replicate (dim domain) 1) (negb <$> local) mesh;
       ext_coords := scatter (replicate (dim domain) 0) (negb <$> local) coords |}).
  exists (mk <$> all_coords mesh).
  split; [|split].
  - apply for_each_ok. intros coords Hin.
    apply Layout_init_ok; [exact Hlocal | exact Hcount |].
    apply length_all_coords_elem, Hin.
  - rewrite length_fmap. apply length_all_coords, Hmesh.
  - intros l Hl. apply list_elem_of_fmap in Hl as (cs & -> & _).
    rewrite <- list_fmap_compose.
    rewrite (sumZ_fmap_ext _ (fun coords =>
               prodZ (local_sizes (global_shape (mk cs) coeff grid)
                        (scatter (replicate (length local) 1) (negb <$> local) mesh)
                        (scatter (replicate (length local) 0) (negb <$> local) coords)))).
    + apply product_total.
      * unfold global_shape. rewrite length_scatter. congruence.
      * exact Hcount.
      * apply global_shape_pos; [cbn; congruence | congruence | exact Hcpos | exact Hgpos].
      * exact Hmesh.
    + intros coords. cbn [compose].
      rewrite local_shape_sizes
        by (cbn; rewrite length_scatter, length_replicate; congruence).
      rewrite Hlocal. reflexivity.
Qed.

Lemma shape_conservation_witness :
  exists ls,
    for_each (fun coords =>
                Layout_init two_axes [4] coords [false; true] [false; false] complex128)
      (all_coords [4]) = Ok ls /\
    length ls = Z.to_nat (prodZ [4]) /\
    forall l, l ∈ ls ->
      sumZ ((fun rank_layout => prodZ (local_shape rank_layout [9; 8] [9; 8])) <$> ls)
      = prodZ (global_shape l [9; 8] [9; 8]).
Proof.
  apply (shape_conservation two_axes [4] [false; true] [false; false] complex128
           [9; 8] [9; 8]).
  - reflexivity.
  - reflexivity.
  - reflexivity.
  - reflexivity.
  - reflexivity.
  - repeat constructor.
  - repeat constructor.
  - repeat constructor.
Defined.

End ShapeFacts.

(** ** Coefficient resizing *)

Module ResizeFacts.

Import Resize.

Section Slices.

Context {A : Type}.
Implicit Types l dst src : list A.

Lemma getslice_range l (lo hi : nat) :
  lo <= hi <= length l ->
  getslice l (Some (Z.of_nat lo)) (Some (Z.of_nat hi)) = take (hi - lo) (drop lo l).
Proof.
  intros H. unfold getslice, slice_bounds, clip.
  destruct (Z.ltb_spec (Z.of_nat lo) 0); [lia|].
  destruct (Z.ltb_spec (Z.of_nat hi) 0); [lia|].
  rewrite !Z.min_l by lia.
  replace (Z.to_nat (Z.of_nat hi - Z.of_nat lo)) with (hi - lo) by lia.
  rewrite Nat2Z.id. reflexivity.
Qed.

Lemma getslice_tail l (k : nat) :
  1 <= k <= length l ->
  getslice l (Some (- Z.of_nat k)%Z) None = drop (length l - k) l.
Proof.
  intros H. unfold getslice, slice_bounds, clip.
  destruct (Z.ltb_spec (- Z.of_nat k) 0); [|lia].
  rewrite Z.max_l by lia.
  replace (Z.to_nat (- Z.of_nat k + Z.of_nat (length l))) with (length l - k) by lia.
  apply take_ge. rewrite length_drop. lia.
Qed.

Lemma copyto_slice_range dst (lo hi : nat) src :
  lo <= hi <= length dst -> length src = hi - lo ->
  copyto_slice dst (Some (Z.of_nat lo)) (Some (Z.of_nat hi)) src
  = Ok (take lo dst ++ src ++ drop hi dst).
Proof.
  intros H Hsrc. unfold copyto_slice, slice_bounds, clip.
  destruct (Z.ltb_spec (Z.of_nat lo) 0); [lia|].
  destruct (Z.ltb_spec (Z.of_nat hi) 0); [lia|].
  rewrite !Z.min_l by lia.
  replace (Z.to_nat (Z.of_nat hi - Z.of_nat lo)) with (hi - lo) by lia.
  rewrite Nat2Z.id.
  destruct (decide (length src = hi - lo)) as [_|n]; [|contradiction].
  replace (lo + (hi - lo)) with hi by lia. reflexivity.
Qed.

Lemma copyto_slice_tail dst (k : nat) src :
  1 <= k <= length dst -> length src = k ->
  copyto_slice dst (Some (- Z.of_nat k)%Z) None src
  = Ok (take (length dst - k) dst ++ src).
Proof.
  intros H Hsrc. unfold copyto_slice, slice_bounds, clip.
  destruct (Z.ltb_spec (- Z.of_nat k) 0); [|lia].
  rewrite Z.max_l by lia.
  replace (Z.to_nat (- Z.of_nat k + Z.of_nat (length dst))) with (length dst - k) by lia.
  replace (Z.to_nat (Z.of_nat (length dst) - (- Z.of_nat k + Z.of_nat (length dst))))
    with k by lia.
  destruct (decide (length src = k)) as [_|n]; [|contradiction].
  rewrite drop_ge by lia. rewrite app_nil_r. reflexivity.
Qed.

Lemma copyto_full dst src : length src = length dst -> copyto dst src = Ok src.
Proof.
  intros H. unfold copyto, copyto_slice, slice_bounds.
  rewrite Z.sub_0_r, Nat2Z.id.
  destruct (decide (length src = length dst)) as [_|n]; [|contradiction].
  simpl. rewrite drop_all, app_nil_r. reflexivity.
Qed.

Lemma fill_slice_to_end dst (lo : nat) (x : A) :
  lo <= length dst ->
  fill_slice dst (Some (Z.of_nat lo)) None x
  = take lo dst ++ replicate (length dst - lo) x.
Proof.
  intros H. unfold fill_slice, slice_bounds, clip.
  destruct (Z.ltb_spec (Z.of_nat lo) 0); [lia|].
  rewrite Z.min_l by lia.
  replace (Z.to_nat (Z.of_nat (length dst) - Z.of_nat lo)) with (length dst - lo) by lia.
  rewrite Nat2Z.id, drop_ge by lia. rewrite app_nil_r. reflexivity.
Qed.

Lemma fill_slice_middle dst (lo k : nat) (x : A) :
  1 <= k -> lo + k <= length dst ->
  fill_slice dst (Some (Z.of_nat lo)) (Some (- Z.of_nat k)%Z) x
  = take lo dst ++ replicate (length dst - k - lo) x ++ drop (length dst - k) dst.
Proof.
  intros Hk H. unfold fill_slice, slice_bounds, clip.
  destruct (Z.ltb_spec (Z.of_nat lo) 0); [lia|].
  destruct (Z.ltb_spec (- Z.of_nat k) 0); [|lia].
  rewrite Z.min_l, Z.max_l by lia.
  replace (Z.to_nat (- Z.of_nat k + Z.of_nat (length dst) - Z.of_nat lo))
    with (length dst - k - lo) by lia.
  rewrite Nat2Z.id.
  replace (lo + (length dst - k - lo)) with (length dst - k) by lia. reflexivity.
Qed.

Variable zero : A.

(** Padding: the coefficients, then zeros for the higher modes. *)
Lemma Chebyshev_resize_pad (cdata_in cdata_out : list A) :
  length cdata_in <= length cdata_out ->
  Chebyshev_resize_coeffs zero cdata_in cdata_out
  = Ok (cdata_in ++ replicate (length cdata_out - length cdata_in) zero).
Proof.
  intros H. unfold Chebyshev_resize_coeffs.
  destruct (Z.ltb_spec (Z.of_nat (length cdata_in)) (Z.of_nat (length cdata_out))).
  - change 0%Z with (Z.of_nat 0).
    rewrite copyto_slice_range by lia. cbn [Py.bind].
    rewrite take_0, app_nil_l.
    rewrite fill_slice_to_end by (rewrite length_app, length_drop; lia).
    rewrite take_app_length, length_app, length_drop. f_equal. f_equal. f_equal. lia.
  - destruct (Z.gtb_spec (Z.of_nat (length cdata_in)) (Z.of_nat (length cdata_out))); [lia|].
    rewrite copyto_full by lia.
    replace (length cdata_out - length cdata_in) with 0 by lia.
    rewrite app_nil_r. reflexivity.
Qed.

(** Truncation: the coefficients that fit. *)
Lemma Chebyshev_resize_truncate (cdata_in cdata_out : list A) :
  length cdata_out <= length cdata_in ->
  Chebyshev_resize_coeffs zero cdata_in cdata_out
  = Ok (take (length cdata_out) cdata_in).
Proof.
  intros H. unfold Chebyshev_resize_coeffs.
  destruct (Z.ltb_spec (Z.of_nat (length cdata_in)) (Z.of_nat (length cdata_out))); [lia|].
  destruct (Z.gtb_spec (Z.of_nat (length cdata_in)) (Z.of_nat (length cdata_out))).
  - change 0%Z with (Z.of_nat 0).
    rewrite getslice_range by lia. rewrite drop_0, Nat.sub_0_r.
    apply copyto_full. rewrite length_take. lia.
  - rewrite copyto_full by lia. rewrite take_ge by lia. reflexivity.
Qed.

(** The complex Fourier resize for at least three entries on both sides:
    the modes [0..k], zeros, and the modes [-k..-1]. *)
Lemma Fourier_resize_complex_modes (cdata_in cdata_out : list A) (k : nat) :
  1 <= k ->
  2 * k + 1 <= length cdata_in -> 2 * k + 1 <= length cdata_out ->
  length cdata_in <= 2 * k + 2 \/ length cdata_out <= 2 * k + 2 ->
  Fourier_resize_complex_coeffs zero cdata_in cdata_out
  = Ok (take (k + 1) cdata_in
          ++ replicate (length cdata_out - (2 * k + 1)) zero
          ++ drop (length cdata_in - k) cdata_in).
Proof.
  intros Hk Hin Hout Hmin. unfold Fourier_resize_complex_coeffs.
  assert ((Z.min (Z.of_nat (length cdata_in)) (Z.of_nat (length cdata_out)) - 1) / 2
          = Z.of_nat k)%Z as ->.
  { symmetry. apply Z.div_unique with
      (r := (Z.min (Z.of_nat (length cdata_in)) (Z.of_nat (length cdata_out)) - 1
             - 2 * Z.of_nat k)%Z); lia. }
  replace (Z.of_nat k + 1)%Z with (Z.of_nat (k + 1)) by lia.
  change 0%Z with (Z.of_nat 0).
  rewrite getslice_range by lia. rewrite drop_0, Nat.sub_0_r.
  assert (Htake : length (take (k + 1) cdata_in) = k + 1)
    by (rewrite length_take; lia).
  rewrite copyto_slice_range by lia.
  cbn [Py.bind]. rewrite take_0, app_nil_l.
  set (out1 := take (k + 1) cdata_in ++ drop (k + 1) cdata_out).
  assert (Hout1 : length out1 = length cdata_out)
    by (subst out1; rewrite length_app, length_drop; lia).
  rewrite fill_slice_middle by lia.
  rewrite Hout1.
  assert (take (k + 1) out1 = take (k + 1) cdata_in) as ->
    by (subst out1; rewrite take_app_length' by lia; reflexivity).
  set (out2 := take (k + 1) cdata_in
                 ++ replicate (length cdata_out - k - (k + 1)) zero
                 ++ drop (length cdata_out - k) out1).
  assert (Hdrop : length (drop (length cdata_out - k) out1) = k)
    by (rewrite length_drop; lia).
  assert (Hout2 : length out2 = length cdata_out)
    by (subst out2; rewrite !length_app, length_replicate; lia).
  rewrite getslice_tail by lia.
  rewrite copyto_slice_tail by (rewrite ?length_drop; lia).
  rewrite Hout2. subst out2. rewrite app_assoc.
  rewrite take_app_length' by (rewrite length_app, length_replicate; lia).
  rewrite <- app_assoc.
  replace (length cdata_out - k - (k + 1)) with (length cdata_out - (2 * k + 1)) by lia.
  reflexivity.
Qed.

Lemma Chebyshev_there_and_back (N S : nat) : resize_idempotent zero (Chebyshev_resize_coeffs zero) N S.
Proof.
  intros a out_S out_N Ha HS HN. unfold there_and_back.
  destruct (decide (N <= S)) as [Hle|Hgt].
  - rewrite Chebyshev_resize_pad by lia. cbn [Py.bind].
    rewrite Chebyshev_resize_truncate by (rewrite length_app; lia).
    rewrite take_app_length' by lia. reflexivity.
  - rewrite Chebyshev_resize_truncate by lia. cbn [Py.bind].
    rewrite Chebyshev_resize_pad by (rewrite length_take; lia).
    rewrite length_take, HS, HN, Ha. f_equal. f_equal. f_equal. lia.
Qed.

(** Resizing twice with the same highest mode [k] keeps what the first
    resize kept. *)
Lemma Fourier_there_and_back (a out_S out_N : list A) (k : nat) :
  1 <= k ->
  2 * k + 1 <= length a -> 2 * k + 1 <= length out_S -> length out_N = length a ->
  length a <= 2 * k + 2 \/ length out_S <= 2 * k + 2 ->
  there_and_back (Fourier_resize_complex_coeffs zero) a out_S out_N
  = Ok (take (k + 1) a
          ++ replicate (length out_N - (2 * k + 1)) zero
          ++ drop (length a - k) a).
Proof.
  intros Hk Ha HS HN Hmin. unfold there_and_back.
  rewrite (Fourier_resize_complex_modes a out_S k) by assumption. cbn [Py.bind].
  set (b := take (k + 1) a ++ replicate (length out_S - (2 * k + 1)) zero
              ++ drop (length a - k) a).
  assert (Hb : length b = length out_S).
  { subst b. rewrite !length_app, length_take, length_replicate, length_drop. lia. }
  rewrite (Fourier_resize_complex_modes b out_N k) by lia.
  rewrite Hb. subst b. f_equal. f_equal.
  - apply take_app_length'. rewrite length_take. lia.
  - f_equal. rewrite app_assoc. apply drop_app_length'.
    rewrite length_app, length_take, length_replicate. lia.
Qed.

End Slices.

(** C6, as the code has it.  The Chebyshev resize keeps the order of the
    modes: padding to [S >= N] entries and truncating back is the identity,
    and truncating to [S < N] entries and padding back keeps the entries
    [0..S-1] and zeroes the entries [S..N-1].  The complex Fourier resize
    keeps the positive modes in front and the negative ones at the end: for
    an odd [N >= 3], padding to [S >= N] and back is the identity, and for
    [3 <= S < N], with [k] the highest mode that fits [S], truncating and
    padding back keeps the entries [0..k] and [N-k..N-1] and zeroes the
    entries between. *)
Theorem resize_there_and_back {A : Type} (zero : A) (N S : nat)
    (a out_S out_N : list A) :
  length a = N -> length out_S = S -> length out_N = N ->
  there_and_back (Chebyshev_resize_coeffs zero) a out_S out_N
  = Ok (if decide (N <= S) then a else take S a ++ replicate (N - S) zero) /\
  (forall k, 1 <= k -> N = 2 * k + 1 -> N <= S ->
     there_and_back (Fourier_resize_complex_coeffs zero) a out_S out_N = Ok a) /\
  (forall k, 1 <= k -> S = 2 * k + 1 \/ S = 2 * k + 2 -> S < N ->
     there_and_back (Fourier_resize_complex_coeffs zero) a out_S out_N
     = Ok (take (k + 1) a ++ replicate (N - (2 * k + 1)) zero ++ drop (N - k) a)).
Proof.
  intros Ha HS HN. split; [|split].
  - apply Chebyshev_there_and_back; assumption.
  - intros k Hk HNk HNS.
    rewrite (Fourier_there_and_back zero a out_S out_N k) by lia.
    rewrite HN, Ha, HNk.
    replace (2 * k + 1 - (2 * k + 1)) with 0 by lia.
    replace (2 * k + 1 - k) with (k + 1) by lia.
    cbn [replicate app]. rewrite take_drop. reflexivity.
  - intros k Hk HSk HSN.
    rewrite (Fourier_there_and_back zero a out_S out_N k) by lia.
    rewrite HN, Ha. reflexivity.
Qed.

Lemma resize_there_and_back_witness :
  there_and_back (Chebyshev_resize_coeffs 0%Z) [10; 11; 12; 13; 14]%Z
    [0; 0; 0]%Z [0; 0; 0; 0; 0]%Z
  = Ok (if decide (5 <= 3) then [10; 11; 12; 13; 14]%Z
        else take 3 [10; 11; 12; 13; 14]%Z ++ replicate (5 - 3) 0%Z) /\
  (forall k, 1 <= k -> 5 = 2 * k + 1 -> 5 <= 3 ->
     there_and_back (Fourier_resize_complex_coeffs 0%Z) [10; 11; 12; 13; 14]%Z
       [0; 0; 0]%Z [0; 0; 0; 0; 0]%Z
     = Ok [10; 11; 12; 13; 14]%Z) /\
  (forall k, 1 <= k -> 3 = 2 * k + 1 \/ 3 = 2 * k + 2 -> 3 < 5 ->
     there_and_back (Fourier_resize_complex_coeffs 0%Z) [10; 11; 12; 13; 14]%Z
       [0; 0; 0]%Z [0; 0; 0; 0; 0]%Z
     = Ok (take (k + 1) [10; 11; 12; 13; 14]%Z ++ replicate (5 - (2 * k + 1)) 0%Z
             ++ drop (5 - k) [10; 11; 12; 13; 14]%Z)).
Proof.
  apply (resize_there_and_back 0%Z 5 3 [10; 11; 12; 13; 14]%Z [0; 0; 0]%Z
           [0; 0; 0; 0; 0]%Z).
  - reflexivity.
  - reflexivity.
  - reflexivity.
Defined.

(** A single mode is outside the amended statement: with [kmax = 0] the
    slice [-kmax:] is the whole array, so padding one coefficient fills the
    output with it and truncating back raises. *)
Example Fourier_resize_single_mode :
  Fourier_resize_complex_coeffs 0%Z [10]%Z [7; 7; 7]%Z = Ok [10; 10; 10]%Z /\
  there_and_back (Fourier_resize_complex_coeffs 0%Z) [10]%Z [7; 7; 7]%Z [0]%Z
  = Raise ValueError.
Proof. split; reflexivity. Qed.

(** C6 as stated fails for the complex Fourier resize: from five modes down
    to three and back, the entry of mode [-1] survives at the end and the
    entry of mode [2] is lost. *)
Lemma resize_idempotent_counterexample :
  ~ resize_idempotent 0%Z (Fourier_resize_complex_coeffs 0%Z) 5 3.
Proof.
  intros H.
  specialize (H [10; 11; 12; 13; 14]%Z [0; 0; 0]%Z [0; 0; 0; 0; 0]%Z
                eq_refl eq_refl eq_refl).
  vm_compute in H. discriminate H.
Qed.

End ResizeFacts.

(** ** Chebyshev differentiation *)

Module DifferentiateFacts.

Import Differentiate.

Local Open Scope Q_scope.

Lemma position_nat (n k : nat) : (k < n)%nat -> position n (Z.of_nat k) = Ok k.
Proof.
  intros H. unfold position.
  destruct (decide (0 <= Z.of_nat k < Z.of_nat n)%Z); [|lia].
  rewrite Nat2Z.id. reflexivity.
Qed.

Lemma getitemZ_nat {A : Type} (l : list A) (k : nat) (x : A) :
  l !! k = Some x -> getitemZ l (Z.of_nat k) = Ok x.
Proof.
  intros H. unfold getitemZ.
  rewrite position_nat by (apply lookup_lt_Some in H; exact H).
  unfold getitem. rewrite H. reflexivity.
Qed.

Lemma setitemZ_nat {A : Type} (l : list A) (k : nat) (x : A) :
  (k < length l)%nat -> setitemZ l (Z.of_nat k) x = Ok (<[k:=x]> l).
Proof. intros H. unfold setitemZ. rewrite position_nat by exact H. reflexivity. Qed.

Section Recursion.

Variables (N : nat) (a : list Q).
Hypothesis Ha : length a = S N.

(** The loop fills the entries [m], [m-1], ..., [1], each from the entry two
    places above it, and touches nothing else. *)
Lemma recursion_loop_spec (m : nat) :
  forall b : list Q,
    (m + 2 <= N)%nat -> length b = S N ->
    exists c,
      recursion_loop (reverse (seqZ 1 (Z.of_nat m))) a b = Ok c /\
      length c = S N /\
      (forall j, (j = 0 \/ m < j)%nat -> c !! j = b !! j) /\
      (forall i a1 c2, (1 <= i <= m)%nat ->
         a !! (i + 1)%nat = Some a1 -> c !! (i + 2)%nat = Some c2 ->
         c !! i = Some (2 * inject_Z (Z.of_nat i + 1) * a1 + c2)).
Proof.
  induction m as [|m IH]; intros b Hm Hb.
  - exists b. split; [reflexivity|]. split; [exact Hb|].
    split; [reflexivity|]. intros i a1 c2 Hi. lia.
  - rewrite seqZ_S, reverse_snoc. cbn [recursion_loop].
    destruct (lookup_lt_is_Some_2 a (m + 2)) as [a1 Ha1]; [lia|].
    destruct (lookup_lt_is_Some_2 b (m + 3)) as [b2 Hb2]; [lia|].
    replace (1 + Z.of_nat m + 1)%Z with (Z.of_nat (m + 2)) by lia.
    replace (1 + Z.of_nat m + 2)%Z with (Z.of_nat (m + 3)) by lia.
    replace (1 + Z.of_nat m)%Z with (Z.of_nat (m + 1)) by lia.
    rewrite (getitemZ_nat _ _ _ Ha1), (getitemZ_nat _ _ _ Hb2). cbn [Py.bind].
    rewrite setitemZ_nat by lia. cbn [Py.bind].
    destruct (IH (<[(m + 1)%nat:=2 * inject_Z (Z.of_nat (m + 2)) * a1 + b2]> b))
      as (c & Hrun & Hc & Hsame & Hrec); [lia | rewrite length_insert; exact Hb |].
    exists c. split; [exact Hrun|]. split; [exact Hc|]. split.
    + intros j Hj. rewrite Hsame by lia. apply list_lookup_insert_ne. lia.
    + intros i x1 c2 Hi Hx1 Hc2.
      destruct (decide (i = S m)) as [->|Hne].
      * rewrite Hsame in Hc2 by lia.
        rewrite list_lookup_insert_ne in Hc2 by lia.
        replace (S m + 1)%nat with (m + 2)%nat in Hx1 by lia.
        replace (S m + 2)%nat with (m + 3)%nat in Hc2 by lia.
        rewrite Hsame by lia.
        replace (S m) with (m + 1)%nat by lia.
        rewrite list_lookup_insert_eq by lia.
        replace (Z.of_nat (m + 1) + 1)%Z with (Z.of_nat (m + 2)) by lia.
        congruence.
      * apply Hrec; [lia | exact Hx1 | exact Hc2].
Qed.

(** For at least three coefficients the recursion returns, and before the
    division by the stretch its array [c] satisfies the equations of the
    recursion. *)
Lemma recursion_equations (grid_stretch : Q) (b : list Q) :
  (2 <= N)%nat -> length b = S N ->
  exists c,
    recursion (Z.of_nat (S N)) grid_stretch a b
    = Ok ((fun x => x / grid_stretch) <$> c) /\
    length c = S N /\
    c !! N = Some 0 /\
    (forall aN, a !! N = Some aN ->
       c !! (N - 1)%nat = Some (2 * inject_Z (Z.of_nat N) * aN)) /\
    (forall i a1 c2, (1 <= i <= N - 2)%nat ->
       a !! (i + 1)%nat = Some a1 -> c !! (i + 2)%nat = Some c2 ->
       c !! i = Some (2 * inject_Z (Z.of_nat i + 1) * a1 + c2)) /\
    (forall a1 c2, a !! 1%nat = Some a1 -> c !! 2%nat = Some c2 ->
       c !! 0%nat = Some (a1 + c2 / 2)).
Proof.
  intros HN Hb. unfold recursion.
  replace (Z.of_nat (S N) - 1)%Z with (Z.of_nat N) by lia.
  replace (Z.of_nat N - 1)%Z with (Z.of_nat (N - 1)) by lia.
  replace (Z.of_nat N - 2)%Z with (Z.of_nat (N - 2)) by lia.
  destruct (lookup_lt_is_Some_2 a N) as [aN HaN]; [lia|].
  destruct (lookup_lt_is_Some_2 a 1) as [a1 Ha1]; [lia|].
  rewrite setitemZ_nat by lia. cbn [Py.bind].
  rewrite (getitemZ_nat _ _ _ HaN). cbn [Py.bind].
  rewrite setitemZ_nat by (rewrite length_insert; lia). cbn [Py.bind].
  set (b1 := <[(N - 1)%nat:=2 * inject_Z (Z.of_nat N) * aN]> (<[N:=0]> b)).
  assert (Hb1 : length b1 = S N) by (subst b1; rewrite !length_insert; exact Hb).
  destruct (recursion_loop_spec (N - 2) b1) as (c & Hrun & Hc & Hsame & Hrec);
    [lia | exact Hb1 |].
  rewrite Hrun. cbn [Py.bind].
  destruct (lookup_lt_is_Some_2 c 2) as [c2 Hc2]; [lia|].
  change (getitemZ a 1%Z) with (getitemZ a (Z.of_nat 1)).
  change (getitemZ c 2%Z) with (getitemZ c (Z.of_nat 2)).
  rewrite (getitemZ_nat _ _ _ Ha1), (getitemZ_nat _ _ _ Hc2). cbn [Py.bind].
  change (setitemZ c 0%Z) with (setitemZ c (Z.of_nat 0)).
  rewrite setitemZ_nat by lia. cbn [Py.bind].
  eexists. split; [reflexivity|].
  split; [rewrite length_insert; exact Hc|].
  split; [|split; [|split]].
  - rewrite list_lookup_insert_ne by lia. rewrite Hsame by lia. subst b1.
    rewrite list_lookup_insert_ne by lia. apply list_lookup_insert_eq. lia.
  - intros x Hx. rewrite list_lookup_insert_ne by lia. rewrite Hsame by lia.
    subst b1. rewrite list_lookup_insert_eq by (rewrite length_insert; lia).
    congruence.
  - intros i x1 x2 Hi Hx1 Hx2.
    rewrite list_lookup_insert_ne in Hx2 by lia.
    rewrite list_lookup_insert_ne by lia.
    apply Hrec; [lia | exact Hx1 | exact Hx2].
  - intros x1 x2 Hx1 Hx2.
    rewrite list_lookup_insert_ne in Hx2 by lia.
    rewrite list_lookup_insert_eq by lia. congruence.
Qed.

End Recursion.

(** C7. On eight coefficients over [-1, 1], the recursion started from
    [0, 1, 0, 0, 0, 0, 0, 0] ends with [1, 0, 0, 0, 0, 0, 0, 0]; but
    [explicit_form] never reaches the recursion, because its body reads the
    arrays under names that are not its parameters. *)
Theorem explicit_form_scenario :
  explicit_form 8 (grid_stretch (-1, 1)) [0; 1; 0; 0; 0; 0; 0; 0]
    (replicate 8 0) (-1)
  = Raise NameError /\
  exists out,
    recursion 8 (grid_stretch (-1, 1)) [0; 1; 0; 0; 0; 0; 0; 0] (replicate 8 0)
    = Ok out /\
    Forall2 Qeq out [1; 0; 0; 0; 0; 0; 0; 0].
Proof.
  split; [reflexivity|].
  eexists. split; [vm_compute; reflexivity|].
  repeat constructor.
Qed.

End DifferentiateFacts.

(** ** The compound basis *)

Module CompoundFacts.

Import Compound.

Section Values.

Context {V : Type} (zero : V).




End Values.

(** C8. With two subbases on [0, 1] and [1, 2], interpolation at 1/2, inside
    the first interval, raises [TypeError] instead of returning a vector,
    and interpolation at 5/2, outside both, raises [ValueError]; the slices
    of coefficient data, which call [coeff_start], are returned. *)
Theorem Compound_interp_vector_scenario :
  Compound_interp_vector 0%Q two_intervals (1 # 2) = Raise TypeError /\
  Compound_interp_vector 0%Q two_intervals (5 # 2) = Raise ValueError /\
  sub_cdata two_intervals [10; 11; 12; 13; 14; 15; 16; 17]%Q 1
  = Ok [14; 15; 16; 17]%Q.
Proof. repeat split. Qed.

End CompoundFacts.

(** ** Fields *)

Module FieldFacts.

Import Distributor Field.

(** C9. Storing the array [1., 2.] in a zeroed field under its grid layout
    sets the layout but leaves the buffer as it was and overwrites the
    caller's array with the field's zeros: the arguments of the copy are
    swapped.  Under a layout name the call raises before it copies. *)
Theorem setitem_scenario :
  (exists field array,
     __setitem__ [2%Z] [2%Z] zero_field (KLayout line_layout) one_two
     = Ok (field, array) /\
     _layout field = line_layout /\
     _buffer field = _buffer zero_field /\
     bytes (data [2%Z] [2%Z] field) = replicate 16 0%Z /\
     bytes (data [2%Z] [2%Z] field) <> bytes one_two /\
     bytes array = replicate 16 0%Z) /\
  __setitem__ [2%Z] [2%Z] zero_field (KName "g") one_two = Raise AttributeError.
Proof.
  split; [|reflexivity].
  eexists _, _. split; [reflexivity|].
  repeat split. discriminate.
Qed.

End FieldFacts.

(** ** The library of a basis *)

Module LibraryFacts.

Import Library.

(** C10. Whatever [DEFAULT_LIBRARY] is configured, a SinCos basis is built
    with its transforms bound to its scipy implementations and its library
    set to scipy, while Chebyshev and Fourier bases follow the
    configuration. *)
Theorem SinCos_library_scipy (DEFAULT_LIBRARY : string) :
  SinCos_init DEFAULT_LIBRARY
  = Ok {| cls := SinCos;
          forward := Some (Method SinCos "_forward_scipy");
          backward := Some (Method SinCos "_backward_scipy");
          _library := Some "scipy"%string |} /\
  Chebyshev_init "FFTW"
  = Ok {| cls := Chebyshev;
          forward := Some (Method Chebyshev "_forward_fftw");
          backward := Some (Method Chebyshev "_backward_fftw");
          _library := Some "fftw"%string |} /\
  Fourier_init "scipy"
  = Ok {| cls := Fourier;
          forward := Some (Method Fourier "_forward_scipy");
          backward := Some (Method Fourier "_backward_scipy");
          _library := Some "scipy"%string |}.
Proof. repeat split. Qed.

End LibraryFacts.

(** ** More on the layout chain *)

Module LookupFacts.

Import Distributor Chain Lookup.

Lemma count_true_insert_true (l : list bool) (d : nat) :
  l !! d = Some false -> count_true (<[d:=true]> l) = S (count_true l).
Proof.
  revert d. induction l as [|b l IH]; intros [|d] H; try discriminate.
  - injection H as ->. change (<[0:=true]> (false :: l)) with (true :: l).
    rewrite !ShapeFacts.count_true_cons. reflexivity.
  - change (<[S d:=true]> (b :: l)) with (b :: <[d:=true]> l).
    rewrite !ShapeFacts.count_true_cons, (IH d H). lia.
Qed.

(** Along a linked chain, the axes in grid space count the transforms. *)
Lemma linked_grid_count (ls : list Layout) (ps : list Path) (l0 : Layout) :
  linked ls ps -> ls !! 0 = Some l0 ->
  forall k lk, k <= length ps -> ls !! k = Some lk ->
    count_true (grid_space lk)
    = count_true (grid_space l0) + length (filter is_transform (take k ps)).
Proof.
  intros Hlnk H0. induction k as [|k IH]; intros lk Hk Hlk.
  - assert (lk = l0) as -> by congruence.
    rewrite take_0, filter_nil. simpl. lia.
  - destruct (lookup_lt_is_Some_2 ps k) as [p Hp]; [lia|].
    destruct (Hlnk _ _ Hp) as (x0 & x1 & Hx0 & Hx1 & Hat).
    assert (x1 = lk) as -> by congruence.
    rewrite (take_S_r _ _ _ Hp), filter_app, length_app, Nat.add_assoc.
    rewrite <- (IH x0) by (lia || exact Hx0).
    destruct Hat as [(d & b & -> & Hgs & _ & Hgs1 & _) | (d & r & -> & _ & _ & _ & Hgs1 & _)].
    + rewrite Hgs1, (count_true_insert_true _ _ Hgs).
      rewrite filter_cons_True by reflexivity. simpl. lia.
    + rewrite Hgs1, filter_cons_False by (simpl; congruence). simpl. lia.
Qed.

Lemma transforms_or_transposes (ps : list Path) :
  length (filter is_transform ps) + length (filter is_transpose ps) = length ps.
Proof.
  induction ps as [|p ps IH]; [reflexivity|].
  destruct p.
  - rewrite filter_cons_True, filter_cons_False by (simpl; tauto).
    simpl. lia.
  - rewrite filter_cons_False, filter_cons_True by (simpl; tauto).
    simpl. lia.
Qed.

(** X1. The chain of a domain of dimension [D] on a mesh of [R < D]
    effective dimensions has exactly [D] transforms and [R] transposes. *)
Theorem transforms_and_transposes (domain : Domain) (mesh : option (list Z))
    (size : Z) (cart_coords : list Z -> list Z) (R D : nat) :
  length (effective_mesh mesh size) = R ->
  dim domain = D ->
  R < D ->
  prodZ (effective_mesh mesh size) = size ->
  length (cart_coords (effective_mesh mesh size)) = R ->
  exists dist,
    Distributor_init domain mesh size cart_coords = Ok dist /\
    length (filter is_transform (paths dist)) = D /\
    length (filter is_transpose (paths dist)) = R.
Proof.
  intros HR HD HRD Hprod Hcoords. subst R D.
  destruct (ChainFacts.Distributor_init_chain domain mesh size cart_coords HRD Hprod Hcoords)
    as (ls & ps & Hinit & Hnl & Hnp & _ & Hlnk & (l0 & Hl0 & _ & Hl0gs)
        & lf & Hlast & _ & Hlfgs).
  eexists. split; [exact Hinit|]. cbn.
  rewrite last_lookup, Hnl in Hlast.
  replace (pred (length (effective_mesh mesh size) + dim domain + 1))
    with (length ps) in Hlast by lia.
  pose proof (linked_grid_count ls ps l0 Hlnk Hl0 (length ps) lf (Nat.le_refl _) Hlast)
    as Hcount.
  rewrite take_ge, Hl0gs, Hlfgs in Hcount by lia.
  unfold grid_form in Hcount. cbn [replicate app] in Hcount.
  rewrite ChainFacts.count_true_replicate_true,
    ChainFacts.count_true_replicate_false in Hcount.
  pose proof (transforms_or_transposes ps). lia.
Qed.

Lemma transforms_and_transposes_witness :
  exists dist,
    Distributor_init fourier_cheb_cheb None 4 (fun _ => [1%Z]) = Ok dist /\
    length (filter is_transform (paths dist)) = 3 /\
    length (filter is_transpose (paths dist)) = 1.
Proof.
  apply (transforms_and_transposes fourier_cheb_cheb None 4 (fun _ => [1%Z]) 1 3).
  - reflexivity.
  - reflexivity.
  - lia.
  - reflexivity.
  - reflexivity.
Defined.

Lemma bind_inv {A B : Type} (m : result A) (k : A -> result B) (b : B) :
  Py.bind m k = Ok b -> exists a, m = Ok a /\ k a = Ok b.
Proof. destruct m as [a|e]; [eauto | discriminate]. Qed.

Section DryRun.

Variables (domain : Domain) (mesh coords : list Z).

Lemma visit_dry (d : nat) (basis : Basis) (i : nat) (st : Build) (f : Found) :
  visit domain mesh coords false d basis i st = Ok f ->
  visit domain mesh coords true d basis i (dry st) = Ok (dry_found f).
Proof.
  unfold visit. cbn [dry b_local b_grid_space b_dtype b_layouts].
  intros H. apply bind_inv in H as (l & -> & H). cbn [Py.bind].
  destruct l.
  - apply bind_inv in H as (gs' & -> & H). cbn [Py.bind].
    apply bind_inv in H as (layout_i & -> & H). cbn [Py.bind].
    apply bind_inv in H as (path_i & _ & H). injection H as <-. reflexivity.
  - apply bind_inv in H as (loc1 & -> & H). cbn [Py.bind].
    apply bind_inv in H as (loc2 & -> & H). cbn [Py.bind].
    apply bind_inv in H as (layout_i & -> & H). cbn [Py.bind].
    apply bind_inv in H as (path_i & _ & H). injection H as <-. reflexivity.
Qed.

Lemma inner_dry (items : list (nat * Basis)) (i : nat) (st : Build)
    (r : option Found) :
  inner domain mesh coords false items i st = Ok r ->
  inner domain mesh coords true items i (dry st) = Ok (dry_found <$> r).
Proof.
  induction items as [|[d basis] items IH]; cbn [inner].
  - intros H. injection H as <-. reflexivity.
  - cbn [dry b_grid_space]. intros H.
    apply bind_inv in H as (g & -> & H). cbn [Py.bind].
    destruct g; cbn [negb] in *.
    + apply IH, H.
    + apply bind_inv in H as (f & Hf & H). injection H as <-.
      rewrite (visit_dry _ _ _ _ _ Hf). reflexivity.
Qed.

Lemma step_dry (i : nat) (st st' : Build) :
  step domain mesh coords false i st = Ok st' ->
  step domain mesh coords true i (dry st) = Ok (dry st').
Proof.
  unfold step. intros H. apply bind_inv in H as (r & Hr & H).
  rewrite (inner_dry _ _ _ _ Hr). cbn [Py.bind].
  destruct r as [f|]; cbn [fmap option_fmap option_map].
  - injection H as <-. reflexivity.
  - cbn [dry b_layout_i]. destruct (b_layout_i st) as [l|]; [|discriminate].
    injection H as <-. reflexivity.
Qed.

Lemma for_range_dry (range : list nat) (st st' : Build) :
  for_range domain mesh coords false range st = Ok st' ->
  for_range domain mesh coords true range (dry st) = Ok (dry st').
Proof.
  revert st. induction range as [|i range IH]; intros st H; cbn [for_range] in *.
  - injection H as <-. reflexivity.
  - apply bind_inv in H as (st1 & Hstep & H).
    rewrite (step_dry _ _ _ Hstep). cbn [Py.bind]. apply IH, H.
Qed.

(** X2. Whenever [_build_layouts] returns, its dry run returns the same
    layouts and no path. *)
Theorem build_layouts_dry_run (ls : list Layout) (ps : list Path) :
  build_layouts domain mesh coords false = Ok (ls, ps) ->
  build_layouts domain mesh coords true = Ok (ls, []).
Proof.
  unfold build_layouts. intros H.
  apply bind_inv in H as (b & -> & H). cbn [Py.bind].
  apply bind_inv in H as (layout_0 & -> & H). cbn [Py.bind].
  apply bind_inv in H as (st & Hrun & H). injection H as <- <-.
  apply for_range_dry in Hrun. unfold dry at 1 in Hrun.
  cbn [b_local b_grid_space b_dtype b_layout_i b_path_i b_layouts b_paths] in Hrun.
  rewrite Hrun. reflexivity.
Qed.

End DryRun.

Lemma build_layouts_dry_run_witness :
  build_layouts fourier_cheb_cheb [4%Z] [1%Z] true
  = Ok (match build_layouts fourier_cheb_cheb [4%Z] [1%Z] false with
        | Ok (ls, _) => ls
        | Raise _ => []
        end, []).
Proof.
  apply (build_layouts_dry_run fourier_cheb_cheb [4%Z] [1%Z] _
           (match build_layouts fourier_cheb_cheb [4%Z] [1%Z] false with
            | Ok (_, ps) => ps
            | Raise _ => []
            end)).
  reflexivity.
Defined.

Lemma fits_range (i : Z) :
  Int64.fits i = true <-> (- 9223372036854775808 <= i < 9223372036854775808)%Z.
Proof.
  unfold Int64.fits.
  change (2 ^ 63)%Z with 9223372036854775808%Z.
  rewrite andb_true_iff, Z.leb_le, Z.ltb_lt. reflexivity.
Qed.

Lemma wrap_fits (i : Z) : Int64.fits i = true -> Int64.wrap i = i.
Proof.
  intros H. apply fits_range in H. unfold Int64.wrap.
  change (2 ^ 63)%Z with 9223372036854775808%Z.
  change (2 ^ 64)%Z with 18446744073709551616%Z.
  rewrite Z.mod_small by lia. lia.
Qed.

Lemma wrap_mod (i : Z) : (Int64.wrap i mod 2 ^ 64 = i mod 2 ^ 64)%Z.
Proof.
  unfold Int64.wrap. rewrite Zminus_mod_idemp_l. f_equal. lia.
Qed.

Lemma wrap_mul (a b : Z) : Int64.wrap (Int64.wrap a * b) = Int64.wrap (a * b).
Proof.
  assert (H : forall x y, (x mod 2 ^ 64 = y mod 2 ^ 64)%Z -> Int64.wrap x = Int64.wrap y).
  { intros x y Hxy. unfold Int64.wrap.
    rewrite <- (Zplus_mod_idemp_l x), Hxy, Zplus_mod_idemp_l. reflexivity. }
  apply H. rewrite <- Zmult_mod_idemp_l, wrap_mod, Zmult_mod_idemp_l. reflexivity.
Qed.

(** The wrapped running product is the product, wrapped once. *)
Lemma np_prod_wrap (l : list Z) : Int64.np_prod l = Int64.wrap (prodZ l).
Proof.
  unfold Int64.np_prod.
  assert (H : forall a, foldl (fun acc i => Int64.wrap (acc * i)) (Int64.wrap a) l
                        = Int64.wrap (a * prodZ l)).
  { induction l as [|x l IH]; intros a.
    - cbn [foldl prodZ foldr]. f_equal. lia.
    - cbn [foldl]. rewrite wrap_mul, IH. f_equal.
      unfold prodZ. cbn [foldr]. lia. }
  specialize (H 1%Z). rewrite (wrap_fits 1) in H by reflexivity.
  rewrite H. f_equal. lia.
Qed.

Lemma effective_mesh_entries (mesh : option (list Z)) (size : Z) :
  Forall (fun i => (1 < i)%Z) (effective_mesh mesh size).
Proof.
  apply Forall_forall. intros i Hi. unfold effective_mesh in Hi.
  apply list_elem_of_filter in Hi as [Hi _]. exact Hi.
Qed.

Lemma prodZ_entries (l : list Z) :
  Forall (fun i => (1 < i)%Z) l ->
  (1 <= prodZ l)%Z /\ Forall (fun i => (i <= prodZ l)%Z) l.
Proof.
  induction 1 as [|x l Hx Hl [IH1 IH2]]; [split; [reflexivity | constructor]|].
  unfold prodZ in *. cbn [foldr]. split; [nia|].
  constructor; [nia|].
  eapply Forall_impl; [exact IH2|]. cbn beta. intros i Hi. nia.
Qed.

(** A mesh whose product fits is held and multiplied as it is. *)
Lemma effective_mesh_exact (mesh : option (list Z)) (size : Z) :
  (prodZ (effective_mesh mesh size) < 2 ^ 63)%Z ->
  forallb Int64.fits (effective_mesh mesh size) = true /\
  Int64.np_prod (effective_mesh mesh size) = prodZ (effective_mesh mesh size).
Proof.
  change (2 ^ 63)%Z with 9223372036854775808%Z. intros Hp.
  pose proof (effective_mesh_entries mesh size) as Hent.
  destruct (prodZ_entries _ Hent) as [H1 Hle].
  split.
  - apply forallb_forall. intros i Hi. apply fits_range.
    apply list_elem_of_In in Hi.
    rewrite Forall_forall in Hent, Hle.
    specialize (Hent i Hi). specialize (Hle i Hi). lia.
  - rewrite np_prod_wrap. apply wrap_fits, fits_range. lia.
Qed.

(** X3. For a number of processes that fits a machine integer, the
    constructor raises [OverflowError] when an entry of the squeezed mesh does
    not fit, and otherwise [ValueError] unless the squeezed mesh has fewer
    dimensions than the domain and its product, taken in 64 bits, is the
    number of processes.  It then hands the mesh to MPI: what [Create_cart]
    raises, the constructor raises, and with coordinates for every mesh
    dimension it returns a distributor on the squeezed mesh.  A mesh whose
    product is below [2^63] fits and is multiplied exactly, and where that
    product is the number of processes the constructor does what
    [Distributor.Distributor_init] does. *)
Theorem Distributor_init_accepts (domain : Domain) (mesh : option (list Z))
    (size : Z) (Create_cart : list Z -> result (list Z)) :
  Int64.fits size = true ->
  (forallb Int64.fits (effective_mesh mesh size) = false ->
   Int64.Distributor_init domain mesh size Create_cart = Raise OverflowError) /\
  (forallb Int64.fits (effective_mesh mesh size) = true ->
   ~ (length (effective_mesh mesh size) < dim domain /\
      Int64.np_prod (effective_mesh mesh size) = size) ->
   Int64.Distributor_init domain mesh size Create_cart = Raise ValueError) /\
  (forallb Int64.fits (effective_mesh mesh size) = true ->
   length (effective_mesh mesh size) < dim domain ->
   Int64.np_prod (effective_mesh mesh size) = size ->
   (forall e, Create_cart (effective_mesh mesh size) = Raise e ->
      Int64.Distributor_init domain mesh size Create_cart = Raise e) /\
   (forall coords,
      Create_cart (effective_mesh mesh size) = Ok coords ->
      forallb Int64.fits coords = true ->
      length coords = length (effective_mesh mesh size) ->
      exists dist,
        Int64.Distributor_init domain mesh size Create_cart = Ok dist /\
        Distributor.mesh dist = effective_mesh mesh size)) /\
  ((prodZ (effective_mesh mesh size) < 2 ^ 63)%Z ->
   forallb Int64.fits (effective_mesh mesh size) = true /\
   Int64.np_prod (effective_mesh mesh size) = prodZ (effective_mesh mesh size)) /\
  (forall coords,
     Create_cart (effective_mesh mesh size) = Ok coords ->
     forallb Int64.fits coords = true ->
     length (effective_mesh mesh size) < dim domain ->
     prodZ (effective_mesh mesh size) = size ->
     Int64.Distributor_init domain mesh size Create_cart
     = Distributor.Distributor_init domain mesh size (fun _ => coords)).
Proof.
  intros Hsize.
  assert (Hstart : Int64.Distributor_init domain mesh size Create_cart
                   = let* m := Int64.np_array (effective_mesh mesh size) in
                     if decide (dim domain <= length m) then Raise ValueError
                     else if decide (Int64.np_prod m = size) then
                       let* coords := Create_cart m in
                       let* coords := Int64.np_array coords in
                       let* lp := build_layouts domain m coords false in
                       Ok {| Distributor.mesh := m; layouts := lp.1; paths := lp.2 |}
                     else Raise ValueError).
  { unfold Int64.Distributor_init, effective_mesh. destruct mesh as [m|].
    - reflexivity.
    - unfold Int64.np_array at 1. cbn [forallb]. rewrite Hsize. reflexivity. }
  set (eff := effective_mesh mesh size) in *.
  assert (Hfit : forallb Int64.fits eff = true ->
                 Int64.Distributor_init domain mesh size Create_cart
                 = if decide (dim domain <= length eff) then Raise ValueError
                   else if decide (Int64.np_prod eff = size) then
                     let* coords := Create_cart eff in
                     let* coords := Int64.np_array coords in
                     let* lp := build_layouts domain eff coords false in
                     Ok {| Distributor.mesh := eff; layouts := lp.1; paths := lp.2 |}
                   else Raise ValueError).
  { intros H. rewrite Hstart. unfold Int64.np_array at 1. rewrite H. reflexivity. }
  split; [|split; [|split; [|split]]].
  - intros H. rewrite Hstart. unfold Int64.np_array. rewrite H. reflexivity.
  - intros H Hnot. rewrite (Hfit H).
    destruct (decide (dim domain <= length eff)); [reflexivity|].
    destruct (decide (Int64.np_prod eff = size)); [|reflexivity].
    exfalso. apply Hnot. split; [lia | assumption].
  - intros H HRD Hprod. rewrite (Hfit H).
    destruct (decide (dim domain <= length eff)); [lia|].
    destruct (decide (Int64.np_prod eff = size)); [|contradiction].
    split.
    + intros err He. rewrite He. reflexivity.
    + intros coords Hc Hcf Hlen. rewrite Hc. cbn [Py.bind].
      unfold Int64.np_array. rewrite Hcf. cbn [Py.bind].
      destruct (ChainFacts.build_layouts_chain domain eff coords Hlen HRD)
        as (ls & ps & Hbuild & _).
      rewrite Hbuild. cbn [Py.bind]. eexists. split; reflexivity.
  - apply effective_mesh_exact.
  - intros coords Hc Hcf HRD Hprod.
    assert (Hp : (prodZ eff < 2 ^ 63)%Z).
    { rewrite Hprod. apply fits_range in Hsize.
      change (2 ^ 63)%Z with 9223372036854775808%Z. lia. }
    destruct (effective_mesh_exact mesh size Hp) as [H Hnp]. fold eff in H, Hnp.
    rewrite (Hfit H). unfold Distributor.Distributor_init. fold eff.
    destruct (decide (dim domain <= length eff)); [reflexivity|].
    rewrite Hnp.
    destruct (decide (prodZ eff = size)); [|contradiction].
    rewrite Hc. cbn [Py.bind]. unfold Int64.np_array. rewrite Hcf. reflexivity.
Qed.

Lemma Distributor_init_accepts_witness :
  (exists dist,
     Int64.Distributor_init fourier_cheb_cheb (Some [2; 1; 2]%Z) 4
       (fun _ => Ok [1; 0]%Z) = Ok dist /\
     Distributor.mesh dist = effective_mesh (Some [2; 1; 2]%Z) 4) /\
  Int64.Distributor_init fourier_cheb_cheb (Some [1180591620717411303424]%Z) 4
    (fun _ => Ok [1; 0]%Z) = Raise OverflowError /\
  Int64.np_prod (effective_mesh (Some [3; 6148914691236517206]%Z) 2) = 2%Z.
Proof.
  destruct (Distributor_init_accepts fourier_cheb_cheb (Some [2; 1; 2]%Z) 4
              (fun _ => Ok [1; 0]%Z) eq_refl) as (_ & _ & Hok & _).
  destruct (Distributor_init_accepts fourier_cheb_cheb
              (Some [1180591620717411303424]%Z) 4
              (fun _ => Ok [1; 0]%Z) eq_refl) as (Hover & _).
  split; [|split].
  - destruct (Hok eq_refl) as [_ H]; [vm_compute; lia | reflexivity|].
    apply (H [1; 0]%Z); reflexivity.
  - apply Hover. reflexivity.
  - reflexivity.
Defined.

Lemma getitemZ_first {A : Type} (l : list A) (x : A) :
  l !! 0 = Some x -> getitemZ l 0%Z = Ok x.
Proof. apply (DifferentiateFacts.getitemZ_nat l 0 x). Qed.

Lemma getitemZ_last {A : Type} (l : list A) (x : A) :
  last l = Some x -> getitemZ l (-1)%Z = Ok x.
Proof.
  intros H. rewrite last_lookup in H.
  assert (0 < length l) by (apply lookup_lt_Some in H; destruct l; simpl in *; lia).
  unfold getitemZ, position.
  destruct (decide (0 <= -1 < Z.of_nat (length l))%Z); [lia|].
  destruct (decide (- Z.of_nat (length l) <= -1 < 0)%Z); [|lia].
  replace (Z.to_nat (Z.of_nat (length l) + -1)) with (pred (length l)) by lia.
  unfold getitem. rewrite H. reflexivity.
Qed.

(** X4. In a distributor that was built, the names [c] and [coeff] denote
    the layout of index 0, which is in coefficient space on every axis, the
    names [g] and [grid] the layout of index [R+D], which is in grid space
    on every axis; any other name raises [KeyError], and a layout denotes
    itself. *)
Theorem get_layout_object_names (domain : Domain) (mesh : option (list Z))
    (size : Z) (cart_coords : list Z -> list Z) (R D : nat) :
  length (effective_mesh mesh size) = R ->
  dim domain = D ->
  R < D ->
  prodZ (effective_mesh mesh size) = size ->
  length (cart_coords (effective_mesh mesh size)) = R ->
  exists dist c g,
    Distributor_init domain mesh size cart_coords = Ok dist /\
    get_layout_object dist (Field.KName "c") = Ok c /\
    get_layout_object dist (Field.KName "coeff") = Ok c /\
    get_layout_object dist (Field.KName "g") = Ok g /\
    get_layout_object dist (Field.KName "grid") = Ok g /\
    index c = 0 /\ grid_space c = replicate D false /\
    index g = R + D /\ grid_space g = replicate D true /\
    (forall name : string,
       name <> "c"%string -> name <> "g"%string ->
       name <> "coeff"%string -> name <> "grid"%string ->
       get_layout_object dist (Field.KName name) = Raise KeyError) /\
    (forall layout, get_layout_object dist (Field.KLayout layout) = Ok layout).
Proof.
  intros HR HD HRD Hprod Hcoords. subst R D.
  destruct (ChainFacts.Distributor_init_chain domain mesh size cart_coords HRD Hprod Hcoords)
    as (ls & ps & Hinit & Hnl & _ & Hidx & _ & (l0 & Hl0 & _ & Hl0gs)
        & lf & Hlast & _ & Hlfgs).
  exists {| Distributor.mesh := effective_mesh mesh size; layouts := ls; paths := ps |},
    l0, lf.
  assert (Hrefs : layout_references
                    {| Distributor.mesh := effective_mesh mesh size;
                       layouts := ls; paths := ps |}
                  = Ok [("c"%string, l0); ("g"%string, lf);
                        ("coeff"%string, l0); ("grid"%string, lf)]).
  { unfold layout_references, coeff_layout, grid_layout. cbn [layouts].
    rewrite (getitemZ_first _ _ Hl0), (getitemZ_last _ _ Hlast). reflexivity. }
  split; [exact Hinit|].
  unfold get_layout_object. rewrite Hrefs. cbn [Py.bind].
  repeat (split; [reflexivity|]).
  split; [exact (Hidx _ _ Hl0)|]. split; [exact Hl0gs|].
  split.
  { rewrite last_lookup, Hnl in Hlast. rewrite (Hidx _ _ Hlast). lia. }
  split; [exact Hlfgs|]. split; [|reflexivity].
  intros name Hc Hg Hcoeff Hgrid. cbn [Field.dict_getitem].
  rewrite !(proj2 (String.eqb_neq _ _)) by congruence. reflexivity.
Qed.

Lemma get_layout_object_names_witness :
  exists dist c g,
    Distributor_init fourier_cheb_cheb None 4 (fun _ => [1%Z]) = Ok dist /\
    get_layout_object dist (Field.KName "c") = Ok c /\
    get_layout_object dist (Field.KName "coeff") = Ok c /\
    get_layout_object dist (Field.KName "g") = Ok g /\
    get_layout_object dist (Field.KName "grid") = Ok g /\
    index c = 0 /\ grid_space c = replicate 3 false /\
    index g = 1 + 3 /\ grid_space g = replicate 3 true /\
    (forall name : string,
       name <> "c"%string -> name <> "g"%string ->
       name <> "coeff"%string -> name <> "grid"%string ->
       get_layout_object dist (Field.KName name) = Raise KeyError) /\
    (forall layout, get_layout_object dist (Field.KLayout layout) = Ok layout).
Proof.
  apply (get_layout_object_names fourier_cheb_cheb None 4 (fun _ => [1%Z]) 1 3).
  - reflexivity.
  - reflexivity.
  - lia.
  - reflexivity.
  - reflexivity.
Defined.

End LookupFacts.

(** ** More on the block distribution *)

Module BlockFacts.

Import Distributor Shape Lookup.

Local Open Scope Z_scope.

Lemma mask_assign_inv (base : list Z) (mask : list bool) (vals out : list Z) :
  mask_assign base mask vals = Ok out ->
  length mask = length base /\ exists vals', out = scatter base mask vals'.
Proof.
  unfold mask_assign. intros H.
  destruct (decide (length mask = length base)); [|discriminate].
  split; [assumption|].
  destruct (decide (length vals = count_true mask)).
  - injection H as <-. eauto.
  - destruct vals as [|v [|? ?]]; try discriminate. injection H as <-. eauto.
Qed.

(** What a layout that was built holds. *)
Lemma Layout_init_inv (domain : Domain) (mesh coords : list Z)
    (local_ grid_space_ : list bool) (dt : dtype) (layout : Layout) :
  Layout_init domain mesh coords local_ grid_space_ dt = Ok layout ->
  local layout = local_ /\ grid_space layout = grid_space_ /\
  ldtype layout = dt /\ (length local_ = dim domain)%nat /\
  (exists vals, ext_mesh layout
                = scatter (replicate (dim domain) 1) (negb <$> local_) vals) /\
  (exists vals, ext_coords layout
                = scatter (replicate (dim domain) 0) (negb <$> local_) vals).
Proof.
  unfold Layout_init. intros H.
  apply LookupFacts.bind_inv in H as (em & Hem & H).
  apply LookupFacts.bind_inv in H as (ec & Hec & H).
  injection H as <-. cbn.
  apply mask_assign_inv in Hem as [Hlen Hem].
  apply mask_assign_inv in Hec as [_ Hec].
  rewrite length_fmap, length_replicate in Hlen.
  repeat split; assumption.
Qed.

Lemma lookup_scatter_unmasked (base : list Z) (mask : list bool) (vals : list Z)
    (d : nat) (b : Z) :
  base !! d = Some b -> mask !! d = Some false ->
  scatter base mask vals !! d = Some b.
Proof.
  revert base mask vals.
  induction d as [|d IH]; intros [|b0 bs] [|m0 ms] vals Hb Hm; try discriminate;
    simpl in Hb, Hm.
  - injection Hm as ->. exact Hb.
  - destruct m0; [destruct vals|]; simpl; apply IH; assumption.
Qed.

(** X6. On an axis that a layout keeps local, the process holds the whole
    axis: the extended mesh is 1, the block starts at 0 and the local size is
    the global size. *)
Theorem local_axis_whole (domain : Domain) (mesh coords : list Z)
    (local_ grid_space_ : list bool) (dt : dtype) (layout : Layout)
    (coeff grid : list Z) (d : nat) (g : Z) :
  Layout_init domain mesh coords local_ grid_space_ dt = Ok layout ->
  local_ !! d = Some true ->
  global_shape layout coeff grid !! d = Some g ->
  0 < g ->
  ext_mesh layout !! d = Some 1 /\
  ext_coords layout !! d = Some 0 /\
  start layout coeff grid !! d = Some 0 /\
  local_shape layout coeff grid !! d = Some g.
Proof.
  intros Hinit Hd Hg Hpos.
  apply Layout_init_inv in Hinit as (_ & _ & _ & Hlen & (vm & Hm) & (vc & Hc)).
  assert (Hlt : (d < dim domain)%nat) by (apply lookup_lt_Some in Hd; lia).
  assert (Hmask : (negb <$> local_) !! d = Some false)
    by (rewrite list_lookup_fmap, Hd; reflexivity).
  assert (Hm1 : ext_mesh layout !! d = Some 1).
  { rewrite Hm. apply lookup_scatter_unmasked; [|exact Hmask].
    apply lookup_replicate_2, Hlt. }
  assert (Hc0 : ext_coords layout !! d = Some 0).
  { rewrite Hc. apply lookup_scatter_unmasked; [|exact Hmask].
    apply lookup_replicate_2, Hlt. }
  split; [exact Hm1|]. split; [exact Hc0|]. split.
  - unfold start. rewrite lookup_zip_with, Hc0. cbn.
    rewrite (ShapeFacts.lookup_blocks _ _ _ _ _ _ Hg Hm1). reflexivity.
  - rewrite (ShapeFacts.lookup_local_shape _ _ _ _ _ _ _ Hg Hm1 Hc0).
    rewrite (ShapeFacts.local_size_whole g Hpos). reflexivity.
Qed.

Lemma local_axis_whole_witness :
  ext_mesh last_rank_layout !! 1%nat = Some 1 /\
  ext_coords last_rank_layout !! 1%nat = Some 0 /\
  start last_rank_layout [9; 8] [9; 8] !! 1%nat = Some 0 /\
  local_shape last_rank_layout [9; 8] [9; 8] !! 1%nat = Some 8.
Proof.
  apply (local_axis_whole two_axes [4] [3] [false; true] [false; false] complex128
           last_rank_layout [9; 8] [9; 8] 1 8).
  - reflexivity.
  - reflexivity.
  - reflexivity.
  - lia.
Defined.

Lemma extended_mesh_coords (mask : list bool) :
  forall (n : nat) (mesh coords : list Z),
    length mask = n ->
    count_true mask = length mesh ->
    Forall2 (fun c m => 0 <= c < m) coords mesh ->
    prodZ (scatter (replicate n 1) mask mesh) = prodZ mesh /\
    Forall2 (fun c m => 0 <= c < m)
      (scatter (replicate n 0) mask coords) (scatter (replicate n 1) mask mesh).
Proof.
  induction mask as [|[] mask IH]; intros n mesh coords Hn Hcount Hin;
    destruct n as [|n]; try discriminate.
  - destruct mesh; [|discriminate]. split; [reflexivity | constructor].
  - rewrite ShapeFacts.count_true_cons in Hcount.
    destruct Hin as [|c m coords mesh Hcm Hin]; [discriminate|].
    destruct (IH n mesh coords) as [Hprod Hall];
      [simpl in Hn; lia | simpl in Hcount; lia | exact Hin |].
    cbn [replicate scatter]. split.
    + change (prodZ (m :: ?l)) with (m * prodZ l). rewrite Hprod. reflexivity.
    + constructor; assumption.
  - rewrite ShapeFacts.count_true_cons in Hcount.
    destruct (IH n mesh coords) as [Hprod Hall];
      [simpl in Hn; lia | simpl in Hcount; lia | exact Hin |].
    cbn [replicate scatter]. split.
    + change (prodZ (1 :: ?l)) with (1 * prodZ l). rewrite Hprod. lia.
    + constructor; [lia | assumption].
Qed.

(** X7. When a layout is built for a process whose coordinates lie inside
    the mesh, with one distributed axis per mesh dimension, its extended mesh
    has the product of the mesh, and its extended coordinates lie inside the
    extended mesh on every axis. *)
Theorem Layout_init_extended (domain : Domain) (mesh coords : list Z)
    (local_ grid_space_ : list bool) (dt : dtype) (layout : Layout) :
  Layout_init domain mesh coords local_ grid_space_ dt = Ok layout ->
  count_true (negb <$> local_) = length mesh ->
  Forall2 (fun c m => 0 <= c < m) coords mesh ->
  prodZ (ext_mesh layout) = prodZ mesh /\
  Forall2 (fun c m => 0 <= c < m) (ext_coords layout) (ext_mesh layout).
Proof.
  intros Hinit Hcount Hin.
  pose proof (Layout_init_inv _ _ _ _ _ _ _ Hinit) as (_ & _ & _ & Hlen & _).
  rewrite ShapeFacts.Layout_init_ok in Hinit;
    [|exact Hlen | exact Hcount | exact (Forall2_length _ _ _ Hin)].
  injection Hinit as <-. cbn [ext_mesh ext_coords].
  apply extended_mesh_coords; [|exact Hcount | exact Hin].
  rewrite length_fmap. exact Hlen.
Qed.

Lemma Layout_init_extended_witness :
  prodZ (ext_mesh last_rank_layout) = prodZ [4] /\
  Forall2 (fun c m => 0 <= c < m) (ext_coords last_rank_layout)
    (ext_mesh last_rank_layout).
Proof.
  apply (Layout_init_extended two_axes [4] [3] [false; true] [false; false]
           complex128 last_rank_layout).
  - reflexivity.
  - reflexivity.
  - repeat constructor; lia.
Defined.

(** The block of one axis: start [c * b], size [local_size g m c]. *)
Lemma block_in_bounds (g m c : Z) :
  0 < g -> 0 < m -> 0 <= c ->
  0 <= local_size g m c <= ceil_div g m /\
  (0 < local_size g m c -> c * ceil_div g m + local_size g m c <= g) /\
  (c + 1 = m -> 0 < local_size g m c -> c * ceil_div g m + local_size g m c = g).
Proof.
  intros Hg Hm Hc.
  pose proof (ShapeFacts.ceil_div_pos g m Hg Hm) as Hb.
  pose proof (ShapeFacts.ceil_div_bounds g m Hm) as Hceil.
  pose proof (ShapeFacts.floor_div_bounds g _ Hb) as Hcut.
  unfold local_size.
  destruct (Z.gtb_spec c (floor_div g (ceil_div g m)));
    destruct (Z.eqb_spec c (floor_div g (ceil_div g m))); nia.
Qed.

Lemma block_abuts (g m c : Z) :
  0 < g -> 0 < m -> 0 <= c ->
  0 < local_size g m (c + 1) ->
  (c + 1) * ceil_div g m = c * ceil_div g m + local_size g m c.
Proof.
  intros Hg Hm Hc.
  pose proof (ShapeFacts.ceil_div_pos g m Hg Hm) as Hb.
  pose proof (ShapeFacts.floor_div_bounds g _ Hb) as Hcut.
  unfold local_size.
  destruct (Z.gtb_spec (c + 1) (floor_div g (ceil_div g m)));
    destruct (Z.eqb_spec (c + 1) (floor_div g (ceil_div g m)));
    destruct (Z.gtb_spec c (floor_div g (ceil_div g m)));
    destruct (Z.eqb_spec c (floor_div g (ceil_div g m))); nia.
Qed.

Lemma lookup_slices (layout : Layout) (coeff grid : list Z) (d : nat) (g m c : Z) :
  global_shape layout coeff grid !! d = Some g ->
  ext_mesh layout !! d = Some m ->
  ext_coords layout !! d = Some c ->
  slices layout coeff grid !! d
  = Some (c * ceil_div g m, c * ceil_div g m + local_size g m c).
Proof.
  intros Hg Hm Hc. unfold slices, start.
  rewrite lookup_zip_with, lookup_zip_with, Hc. cbn.
  rewrite (ShapeFacts.lookup_blocks _ _ _ _ _ _ Hg Hm). cbn.
  rewrite (ShapeFacts.lookup_local_shape _ _ _ _ _ _ _ Hg Hm Hc). reflexivity.
Qed.

(** X8. The slice of a process along an axis is never reversed, is at most
    one block long, lies inside the axis when it is not empty, starts at 0
    on the first process and, when it is not empty, ends at the end of the
    axis on the last process. *)
Theorem slices_in_bounds (layout : Layout) (coeff grid : list Z)
    (d : nat) (g m c : Z) :
  global_shape layout coeff grid !! d = Some g ->
  ext_mesh layout !! d = Some m ->
  ext_coords layout !! d = Some c ->
  0 < g -> 0 < m -> 0 <= c ->
  exists lo hi b,
    slices layout coeff grid !! d = Some (lo, hi) /\
    blocks layout coeff grid !! d = Some b /\
    0 <= lo <= hi /\ hi - lo <= b /\
    (lo < hi -> hi <= g) /\
    (c = 0 -> lo = 0) /\
    (c + 1 = m -> lo < hi -> hi = g).
Proof.
  intros Hg Hm Hc Hgpos Hmpos Hcpos.
  pose proof (block_in_bounds g m c Hgpos Hmpos Hcpos) as (H1 & H2 & H3).
  pose proof (ShapeFacts.ceil_div_pos g m Hgpos Hmpos) as Hb.
  eexists _, _, _. split; [exact (lookup_slices _ _ _ _ _ _ _ Hg Hm Hc)|].
  split; [exact (ShapeFacts.lookup_blocks _ _ _ _ _ _ Hg Hm)|].
  repeat split; intros; try nia.
Qed.

Lemma slices_in_bounds_witness :
  exists lo hi b,
    slices last_rank_layout [9; 8] [9; 8] !! 0%nat = Some (lo, hi) /\
    blocks last_rank_layout [9; 8] [9; 8] !! 0%nat = Some b /\
    0 <= lo <= hi /\ hi - lo <= b /\
    (lo < hi -> hi <= 9) /\
    (3 = 0 -> lo = 0) /\
    (3 + 1 = 4 -> lo < hi -> hi = 9).
Proof.
  apply (slices_in_bounds last_rank_layout [9; 8] [9; 8] 0 9 4 3).
  - reflexivity.
  - reflexivity.
  - reflexivity.
  - lia.
  - lia.
  - lia.
Defined.

(** X9. Along an axis, a slice that is not empty starts where the slice of
    the process before it ends. *)
Theorem slices_abut (before after : Layout) (coeff grid : list Z)
    (d : nat) (g m c : Z) :
  global_shape before coeff grid !! d = Some g ->
  global_shape after coeff grid !! d = Some g ->
  ext_mesh before !! d = Some m ->
  ext_mesh after !! d = Some m ->
  ext_coords before !! d = Some c ->
  ext_coords after !! d = Some (c + 1) ->
  0 < g -> 0 < m -> 0 <= c ->
  exists lo hi lo' hi',
    slices before coeff grid !! d = Some (lo, hi) /\
    slices after coeff grid !! d = Some (lo', hi') /\
    (lo' < hi' -> lo' = hi).
Proof.
  intros Hg Hg' Hm Hm' Hc Hc' Hgpos Hmpos Hcpos.
  eexists _, _, _, _.
  split; [exact (lookup_slices _ _ _ _ _ _ _ Hg Hm Hc)|].
  split; [exact (lookup_slices _ _ _ _ _ _ _ Hg' Hm' Hc')|].
  intros H. apply block_abuts; [assumption..|]. lia.
Qed.

Lemma slices_abut_witness :
  exists lo hi lo' hi',
    slices (rank_layout 1) [9; 8] [9; 8] !! 0%nat = Some (lo, hi) /\
    slices (rank_layout 2) [9; 8] [9; 8] !! 0%nat = Some (lo', hi') /\
    (lo' < hi' -> lo' = hi).
Proof.
  apply (slices_abut (rank_layout 1) (rank_layout 2) [9; 8] [9; 8] 0 9 4 1).
  - reflexivity.
  - reflexivity.
  - reflexivity.
  - reflexivity.
  - reflexivity.
  - reflexivity.
  - lia.
  - lia.
  - lia.
Defined.

End BlockFacts.

(** ** More on resizing *)

Module BasisFacts.

Import Distributor Resize Basis.

Section Arrays.

Context {A : Type} (zero : A).

(** The Chebyshev resize in one formula: the entries that fit, then
    zeros. *)
Lemma Chebyshev_resize_closed (cdata_in cdata_out : list A) :
  Chebyshev_resize_coeffs zero cdata_in cdata_out
  = Ok (take (length cdata_out) cdata_in
          ++ replicate (length cdata_out - length cdata_in) zero).
Proof.
  destruct (decide (length cdata_in <= length cdata_out)) as [H|H].
  - rewrite ResizeFacts.Chebyshev_resize_pad by exact H.
    rewrite take_ge by exact H. reflexivity.
  - rewrite ResizeFacts.Chebyshev_resize_truncate by lia.
    replace (length cdata_out - length cdata_in) with 0 by lia.
    rewrite app_nil_r. reflexivity.
Qed.

(** X10. Resizing Chebyshev coefficients through an intermediate array
    gives what the direct resize gives, provided the intermediate array is at
    least as long as the input or as the output; the result has the length of
    the output array and does not depend on what the arrays held. *)
Theorem Chebyshev_resize_compose (cdata_in middle cdata_out : list A) :
  length cdata_in <= length middle \/ length cdata_out <= length middle ->
  exists one two,
    Chebyshev_resize_coeffs zero cdata_in middle = Ok one /\
    Chebyshev_resize_coeffs zero one cdata_out = Ok two /\
    Chebyshev_resize_coeffs zero cdata_in cdata_out = Ok two /\
    length two = length cdata_out /\
    two = take (length cdata_out) cdata_in
            ++ replicate (length cdata_out - length cdata_in) zero.
Proof.
  intros H. eexists _, _.
  split; [apply Chebyshev_resize_closed|].
  split; [apply Chebyshev_resize_closed|].
  rewrite Chebyshev_resize_closed.
  assert (Heq : take (length cdata_out)
                  (take (length middle) cdata_in
                     ++ replicate (length middle - length cdata_in) zero)
                ++ replicate
                     (length cdata_out
                      - length (take (length middle) cdata_in
                                  ++ replicate (length middle - length cdata_in) zero))
                     zero
                = take (length cdata_out) cdata_in
                    ++ replicate (length cdata_out - length cdata_in) zero).
  { destruct (decide (length cdata_in <= length middle)) as [Hin|Hin].
    - rewrite (take_ge cdata_in (length middle)) by exact Hin.
      rewrite length_app, length_replicate.
      destruct (decide (length cdata_out <= length cdata_in)) as [Hout|Hout].
      + rewrite take_app_le by exact Hout.
        replace (length cdata_out - (length cdata_in + (length middle - length cdata_in)))
          with 0 by lia.
        replace (length cdata_out - length cdata_in) with 0 by lia.
        reflexivity.
      + rewrite take_app_ge by lia. rewrite take_replicate.
        rewrite (take_ge cdata_in) by lia.
        rewrite <- app_assoc, <- replicate_add. f_equal. f_equal. lia.
    - replace (length middle - length cdata_in) with 0 by lia.
      cbn [replicate]. rewrite app_nil_r, take_take, length_take.
      replace (length cdata_out `min` length middle) with (length cdata_out) by lia.
      replace (length cdata_out - length middle `min` length cdata_in) with 0 by lia.
      replace (length cdata_out - length cdata_in) with 0 by lia.
      reflexivity. }
  rewrite Heq. split; [reflexivity|]. split; [|reflexivity].
  rewrite length_app, length_take, length_replicate. lia.
Qed.

(** The real Fourier resize keeps the modes [0..k] and zeroes the rest. *)
Lemma Fourier_resize_real_keep (cdata_in cdata_out : list A) (grid_size : Z)
    (k : nat) :
  Z.min (Z.min ((grid_size - 1) / 2) (Z.of_nat (length cdata_in) - 1))
    (Z.of_nat (length cdata_out) - 1) = Z.of_nat k ->
  Fourier_resize_real_coeffs zero cdata_in cdata_out grid_size
  = Ok (take (k + 1) cdata_in ++ replicate (length cdata_out - (k + 1)) zero).
Proof.
  intros Hk. unfold Fourier_resize_real_coeffs. rewrite Hk.
  replace (Z.of_nat k + 1)%Z with (Z.of_nat (k + 1)) by lia.
  change 0%Z with (Z.of_nat 0).
  rewrite ResizeFacts.getslice_range by lia. rewrite drop_0, Nat.sub_0_r.
  assert (Htake : length (take (k + 1) cdata_in) = k + 1)
    by (rewrite length_take; lia).
  rewrite ResizeFacts.copyto_slice_range by lia.
  cbn [Py.bind]. rewrite take_0, app_nil_l.
  rewrite ResizeFacts.fill_slice_to_end by (rewrite length_app, length_drop; lia).
  rewrite take_app_length' by lia.
  rewrite length_app, length_drop. do 3 f_equal. lia.
Qed.

(** X11. Real Fourier coefficients survive dealiasing: for a basis of [N]
    grid points, its [(N-1)//2 + 1] coefficients, resized into the
    [G//2 + 1] entries of a grid of [G >= N] points and resized back, are
    unchanged, and in between they are followed by zeros. *)
Theorem Fourier_resize_real_there_and_back (N G : Z)
    (cdata temp cdata_out : list A) :
  (1 <= N)%Z -> (N <= G)%Z ->
  Z.of_nat (length cdata) = ((N - 1) / 2 + 1)%Z ->
  Z.of_nat (length temp) = (G / 2 + 1)%Z ->
  length cdata_out = length cdata ->
  Fourier_resize_real_coeffs zero cdata temp G
  = Ok (cdata ++ replicate (length temp - length cdata) zero) /\
  Fourier_resize_real_coeffs zero
    (cdata ++ replicate (length temp - length cdata) zero) cdata_out G
  = Ok cdata.
Proof.
  intros HN HG Hc Ht Hout.
  assert (H1 : (0 <= (N - 1) / 2)%Z) by (apply Z.div_pos; lia).
  assert (H2 : ((N - 1) / 2 <= (G - 1) / 2)%Z) by (apply Z.div_le_mono; lia).
  assert (H3 : ((G - 1) / 2 <= G / 2)%Z) by (apply Z.div_le_mono; lia).
  split.
  - rewrite (Fourier_resize_real_keep _ _ _ (length cdata - 1)) by lia.
    replace (length cdata - 1 + 1) with (length cdata) by lia.
    rewrite take_ge by lia. reflexivity.
  - rewrite (Fourier_resize_real_keep _ _ _ (length cdata - 1))
      by (rewrite length_app, length_replicate; lia).
    replace (length cdata - 1 + 1) with (length cdata) by lia.
    rewrite take_app_length, Hout, Nat.sub_diag, app_nil_r. reflexivity.
Qed.

(** X12. The real Fourier resize drops the Nyquist mode: between two arrays
    of [h + 1] entries for a grid of [2 h] points, it copies the entries
    [0..h-1] and zeroes the last one. *)
Theorem Fourier_resize_real_nyquist (h : nat) (cdata_in cdata_out : list A) :
  1 <= h -> length cdata_in = h + 1 -> length cdata_out = h + 1 ->
  Fourier_resize_real_coeffs zero cdata_in cdata_out (2 * Z.of_nat h)
  = Ok (take h cdata_in ++ [zero]).
Proof.
  intros Hh Hin Hout.
  assert (((2 * Z.of_nat h - 1) / 2 = Z.of_nat h - 1)%Z).
  { symmetry. apply Z.div_unique with (r := 1%Z); lia. }
  rewrite (Fourier_resize_real_keep _ _ _ (h - 1)) by lia.
  replace (h - 1 + 1) with h by lia.
  replace (length cdata_out - h) with 1 by lia. reflexivity.
Qed.

(** X13. Between two arrays of one length [n >= 3], the complex Fourier
    resize is the identity when [n] is odd and zeroes exactly the Nyquist
    entry [n/2] when [n] is even. *)
Theorem Fourier_resize_complex_same_size (k : nat) (cdata_in cdata_out : list A) :
  1 <= k -> length cdata_out = length cdata_in ->
  (length cdata_in = 2 * k + 1 ->
   Fourier_resize_complex_coeffs zero cdata_in cdata_out = Ok cdata_in) /\
  (length cdata_in = 2 * k + 2 ->
   Fourier_resize_complex_coeffs zero cdata_in cdata_out
   = Ok (<[k + 1:=zero]> cdata_in)).
Proof.
  intros Hk Hout. split; intros Hin.
  - rewrite (ResizeFacts.Fourier_resize_complex_modes zero _ _ k) by lia.
    rewrite Hout, Hin.
    replace (2 * k + 1 - (2 * k + 1)) with 0 by lia.
    replace (2 * k + 1 - k) with (k + 1) by lia.
    cbn [replicate app]. apply f_equal, take_drop.
  - rewrite (ResizeFacts.Fourier_resize_complex_modes zero _ _ k) by lia.
    rewrite Hout, Hin.
    replace (2 * k + 2 - (2 * k + 1)) with 1 by lia.
    replace (2 * k + 2 - k) with (S (k + 1)) by lia.
    f_equal. symmetry.
    destruct (lookup_lt_is_Some_2 cdata_in (k + 1)) as [x Hx]; [lia|].
    rewrite <- (take_drop_middle cdata_in (k + 1) x Hx) at 1.
    replace (k + 1) with (length (take (k + 1) cdata_in) + 0) at 1
      by (rewrite length_take; lia).
    rewrite insert_app_r. reflexivity.
Qed.

End Arrays.

Lemma Fourier_resize_real_there_and_back_witness :
  Fourier_resize_real_coeffs 0%Z [1; 2; 3; 4]%Z [9; 9; 9; 9; 9; 9; 9]%Z 12
  = Ok ([1; 2; 3; 4]%Z
          ++ replicate (length [9; 9; 9; 9; 9; 9; 9]%Z - length [1; 2; 3; 4]%Z) 0%Z) /\
  Fourier_resize_real_coeffs 0%Z
    ([1; 2; 3; 4]%Z
       ++ replicate (length [9; 9; 9; 9; 9; 9; 9]%Z - length [1; 2; 3; 4]%Z) 0%Z)
    [7; 7; 7; 7]%Z 12
  = Ok [1; 2; 3; 4]%Z.
Proof.
  apply (Fourier_resize_real_there_and_back 0%Z 8 12 [1; 2; 3; 4]%Z
           [9; 9; 9; 9; 9; 9; 9]%Z [7; 7; 7; 7]%Z).
  - lia.
  - lia.
  - reflexivity.
  - reflexivity.
  - reflexivity.
Defined.

Lemma Fourier_resize_real_nyquist_witness :
  Fourier_resize_real_coeffs 0%Z [1; 2; 3; 4; 5]%Z [7; 7; 7; 7; 7]%Z
    (2 * Z.of_nat 4)
  = Ok (take 4 [1; 2; 3; 4; 5]%Z ++ [0%Z]).
Proof.
  apply (Fourier_resize_real_nyquist 0%Z 4 [1; 2; 3; 4; 5]%Z [7; 7; 7; 7; 7]%Z).
  - lia.
  - reflexivity.
  - reflexivity.
Defined.

Lemma Fourier_resize_complex_same_size_witness :
  (length [1; 2; 3; 4; 5; 6]%Z = 2 * 2 + 1 ->
   Fourier_resize_complex_coeffs 0%Z [1; 2; 3; 4; 5; 6]%Z [7; 7; 7; 7; 7; 7]%Z
   = Ok [1; 2; 3; 4; 5; 6]%Z) /\
  (length [1; 2; 3; 4; 5; 6]%Z = 2 * 2 + 2 ->
   Fourier_resize_complex_coeffs 0%Z [1; 2; 3; 4; 5; 6]%Z [7; 7; 7; 7; 7; 7]%Z
   = Ok (<[2 + 1:=0%Z]> [1; 2; 3; 4; 5; 6]%Z)).
Proof.
  apply (Fourier_resize_complex_same_size 0%Z 2 [1; 2; 3; 4; 5; 6]%Z
           [7; 7; 7; 7; 7; 7]%Z).
  - lia.
  - reflexivity.
Defined.

Lemma Chebyshev_resize_compose_witness :
  exists one two,
    Chebyshev_resize_coeffs 0%Z [1; 2; 3]%Z [9; 9; 9; 9; 9]%Z = Ok one /\
    Chebyshev_resize_coeffs 0%Z one [7; 7]%Z = Ok two /\
    Chebyshev_resize_coeffs 0%Z [1; 2; 3]%Z [7; 7]%Z = Ok two /\
    length two = length [7; 7]%Z /\
    two = take (length [7; 7]%Z) [1; 2; 3]%Z
            ++ replicate (length [7; 7]%Z - length [1; 2; 3]%Z) 0%Z.
Proof.
  apply (Chebyshev_resize_compose 0%Z [1; 2; 3]%Z [9; 9; 9; 9; 9]%Z [7; 7]%Z).
  left. simpl. lia.
Defined.

(** X14. For [N >= 1] grid points and [kmax = (N-1)//2], a Fourier basis on
    real data has the wavenumbers [0..kmax], and one on complex data has
    [0..kmax] followed by [-kmax..-1]: [2 kmax + 1] coefficients, which is [N]
    for odd [N] and [N - 1] for even [N], so that no wavenumber reaches the
    Nyquist value [N/2]. *)
Theorem Fourier_set_dtype_wavenumbers (N : Z) (kmax : nat) :
  (1 <= N)%Z -> Z.of_nat kmax = ((N - 1) / 2)%Z ->
  Fourier_native_wavenumbers N float64 = seqZ 0 (Z.of_nat kmax + 1) /\
  Fourier_native_wavenumbers N complex128
  = seqZ 0 (Z.of_nat kmax + 1) ++ seqZ (- Z.of_nat kmax) (Z.of_nat kmax) /\
  Fourier_coeff_size N float64 = kmax + 1 /\
  Fourier_coeff_size N complex128 = 2 * kmax + 1 /\
  Z.of_nat (Fourier_coeff_size N complex128) = (if Z.odd N then N else N - 1)%Z /\
  Forall (fun k => (2 * Z.abs k < N)%Z) (Fourier_native_wavenumbers N complex128).
Proof.
  intros HN Hk.
  assert (Hreal : Fourier_native_wavenumbers N float64 = seqZ 0 (Z.of_nat kmax + 1)).
  { unfold Fourier_native_wavenumbers, arange. rewrite <- Hk. f_equal. lia. }
  assert (Hcomplex : Fourier_native_wavenumbers N complex128
                     = seqZ 0 (Z.of_nat kmax + 1)
                         ++ seqZ (- Z.of_nat kmax) (Z.of_nat kmax)).
  { unfold Fourier_native_wavenumbers, arange, roll. rewrite <- Hk.
    rewrite length_seqZ.
    replace (Z.of_nat kmax + 1 - - Z.of_nat kmax)%Z
      with (Z.of_nat kmax + (Z.of_nat kmax + 1))%Z by lia.
    replace (Z.to_nat ((- - Z.of_nat kmax)
                       `mod` Z.of_nat (Z.to_nat (Z.of_nat kmax + (Z.of_nat kmax + 1)))))
      with kmax.
    2: { rewrite Z2Nat.id, Z.opp_involutive, Z.mod_small by lia. lia. }
    rewrite seqZ_app by lia.
    replace (- Z.of_nat kmax + Z.of_nat kmax)%Z with 0%Z by lia.
    rewrite drop_app_length', take_app_length' by (rewrite length_seqZ; lia).
    reflexivity. }
  split; [exact Hreal|]. split; [exact Hcomplex|].
  assert (Hsize : Fourier_coeff_size N complex128 = 2 * kmax + 1).
  { unfold Fourier_coeff_size. rewrite Hcomplex, length_app, !length_seqZ. lia. }
  split; [unfold Fourier_coeff_size; rewrite Hreal, length_seqZ; lia|].
  split; [exact Hsize|]. split.
  - rewrite Hsize. pose proof (Zmod_odd N) as Hodd.
    destruct (Z.odd N); Z.div_mod_to_equations; lia.
  - rewrite Hcomplex. apply Forall_app.
    split; apply Forall_seqZ; intros k Hin; Z.div_mod_to_equations; lia.
Qed.

Lemma Fourier_set_dtype_wavenumbers_witness :
  Fourier_native_wavenumbers 8 float64 = seqZ 0 (Z.of_nat 3 + 1) /\
  Fourier_native_wavenumbers 8 complex128
  = seqZ 0 (Z.of_nat 3 + 1) ++ seqZ (- Z.of_nat 3) (Z.of_nat 3) /\
  Fourier_coeff_size 8 float64 = 3 + 1 /\
  Fourier_coeff_size 8 complex128 = 2 * 3 + 1 /\
  Z.of_nat (Fourier_coeff_size 8 complex128) = (if Z.odd 8 then 8 else 8 - 1)%Z /\
  Forall (fun k => (2 * Z.abs k < 8)%Z) (Fourier_native_wavenumbers 8 complex128).
Proof.
  apply (Fourier_set_dtype_wavenumbers 8 3).
  - lia.
  - reflexivity.
Defined.

Lemma prodZ_insert_ones (n k : nat) (x : Z) :
  k < n -> Distributor.prodZ (<[k:=x]> (replicate n 1%Z)) = x.
Proof.
  revert k. induction n as [|n IH]; intros k Hk; [lia|].
  destruct k as [|k].
  - change (<[0:=x]> (replicate (S n) 1%Z)) with (x :: replicate n 1%Z).
    unfold prodZ. cbn [foldr].
    assert (H1 : foldr Z.mul 1%Z (replicate n 1%Z) = 1%Z).
    { clear. induction n as [|n IHn]; [reflexivity|].
      cbn [replicate foldr]. rewrite IHn. reflexivity. }
    rewrite H1. lia.
  - change (<[S k:=x]> (replicate (S n) 1%Z)) with (1%Z :: <[k:=x]> (replicate n 1%Z)).
    unfold prodZ in *. cbn [foldr]. rewrite (IH k) by lia. lia.
Qed.

(** X15. For an axis with [-dim <= axis < dim], the shape that
    [reshape_vector] builds has [dim] entries whose product is the size of
    the data, so that the reshape is a valid one: the entry of the axis,
    counted from the end when negative, is the size and every other entry is 1.
    For any other axis the assignment raises [IndexError]. *)
Theorem reshape_vector_shape_product (size dim axis : Z) :
  ((- dim <= axis < dim)%Z ->
   exists shape,
     reshape_vector_shape size dim axis = Ok shape /\
     length shape = Z.to_nat dim /\
     prodZ shape = size /\
     shape !! Z.to_nat (axis mod dim) = Some size /\
     (forall i, i < Z.to_nat dim -> i <> Z.to_nat (axis mod dim) ->
        shape !! i = Some 1%Z)) /\
  (~ (- dim <= axis < dim)%Z ->
   reshape_vector_shape size dim axis = Raise IndexError).
Proof.
  unfold reshape_vector_shape, setitemZ, position.
  rewrite length_replicate. split.
  - intros H.
    assert (Hd : (0 < dim)%Z) by lia.
    rewrite Z2Nat.id by lia.
    set (k := Z.to_nat (axis mod dim)).
    assert (Hk : k < Z.to_nat dim).
    { subst k. pose proof (Z.mod_pos_bound axis dim Hd). lia. }
    assert (Hpos : (if decide (0 <= axis < dim)%Z then Ok (Z.to_nat axis)
                    else if decide (- dim <= axis < 0)%Z
                         then Ok (Z.to_nat (dim + axis))
                         else Raise IndexError) = Ok k).
    { subst k. destruct (decide (0 <= axis < dim)%Z) as [Hin|Hin].
      - rewrite Z.mod_small by lia. reflexivity.
      - destruct (decide (- dim <= axis < 0)%Z) as [Hneg|Hneg]; [|lia].
        replace (axis mod dim)%Z with (dim + axis)%Z; [reflexivity|].
        apply (Z.mod_unique axis dim (-1)); lia. }
    rewrite Hpos. eexists. split; [reflexivity|].
    split; [rewrite length_insert, length_replicate; reflexivity|].
    split; [apply prodZ_insert_ones; exact Hk|].
    split.
    + apply list_lookup_insert_eq. rewrite length_replicate. exact Hk.
    + intros i Hi Hne. rewrite list_lookup_insert_ne by congruence.
      apply lookup_replicate_2. exact Hi.
  - intros H.
    destruct (decide (0 <= axis < Z.of_nat (Z.to_nat dim))%Z); [lia|].
    destruct (decide (- Z.of_nat (Z.to_nat dim) <= axis < 0)%Z); [lia|].
    reflexivity.
Qed.

Lemma reshape_vector_shape_product_witness :
  (exists shape,
     reshape_vector_shape 5 3 (-1) = Ok shape /\
     length shape = Z.to_nat 3 /\
     prodZ shape = 5%Z /\
     shape !! Z.to_nat (-1 mod 3) = Some 5%Z /\
     (forall i, i < Z.to_nat 3 -> i <> Z.to_nat (-1 mod 3) ->
        shape !! i = Some 1%Z)) /\
  reshape_vector_shape 5 3 3 = Raise IndexError.
Proof.
  destruct (reshape_vector_shape_product 5 3 (-1)) as [Hin _].
  destruct (reshape_vector_shape_product 5 3 3) as [_ Hout].
  split; [apply Hin; lia | apply Hout; lia].
Defined.

End BasisFacts.

(** ** The transform library of a basis *)

Module SetterFacts.

Import Library.

Lemma lower_ascii_idempotent (a : Ascii.ascii) :
  lower_ascii (lower_ascii a) = lower_ascii a.
Proof. destruct a as [[] [] [] [] [] [] [] []]; reflexivity. Qed.

Lemma lower_idempotent (s : string) : lower (lower s) = lower s.
Proof.
  induction s as [|a s IH]; [reflexivity|].
  cbn [lower]. rewrite lower_ascii_idempotent, IH. reflexivity.
Qed.

(** X16. The [library] setter accepts a value exactly when its lower-case
    form is [scipy] or [fftw] on a Chebyshev, Fourier or SinCos basis, or
    [scaling] on a Chebyshev basis: it then binds the transforms of the
    basis's own class and stores the lower-case name.  For every other value,
    and on the base classes, it raises [AttributeError].  The outcome depends
    on the value only through its lower-case form. *)
Theorem set_library_accepts (c : class) (value : string) :
  (((c = Chebyshev \/ c = Fourier \/ c = SinCos) /\
    (lower value = "scipy"%string \/ lower value = "fftw"%string)) \/
   (c = Chebyshev /\ lower value = "scaling"%string) ->
   set_library (new c) value
   = Ok {| cls := c;
           forward := Some (Method c ("_forward_" ++ lower value));
           backward := Some (Method c ("_backward_" ++ lower value));
           _library := Some (lower value) |}) /\
  (~ (((c = Chebyshev \/ c = Fourier \/ c = SinCos) /\
       (lower value = "scipy"%string \/ lower value = "fftw"%string)) \/
      (c = Chebyshev /\ lower value = "scaling"%string)) ->
   set_library (new c) value = Raise AttributeError) /\
  set_library (new c) (lower value) = set_library (new c) value.
Proof.
  split; [|split].
  3: { unfold set_library. rewrite lower_idempotent. reflexivity. }
  all: unfold set_library, new; cbn [cls]; generalize (lower value) as v; intros v.
  all: unfold getattr; destruct c; cbn.
  all: destruct (String.eqb_spec v "scipy") as [->|Hs]; cbn.
  all: try destruct (String.eqb_spec v "fftw") as [->|Hf]; cbn.
  all: try destruct (String.eqb_spec v "scaling") as [->|Hc]; cbn.
  all: intros H; try reflexivity.
  all: try (exfalso; apply H; clear H; tauto).
  all: exfalso; intuition congruence.
Qed.

Lemma set_library_accepts_witness :
  set_library (new Chebyshev) "Scaling"
  = Ok {| cls := Chebyshev;
          forward := Some (Method Chebyshev ("_forward_" ++ lower "Scaling"));
          backward := Some (Method Chebyshev ("_backward_" ++ lower "Scaling"));
          _library := Some (lower "Scaling") |} /\
  set_library (new Fourier) "scaling" = Raise AttributeError.
Proof.
  destruct (set_library_accepts Chebyshev "Scaling") as (Hok & _ & _).
  destruct (set_library_accepts Fourier "scaling") as (_ & Hraise & _).
  split.
  - apply Hok. right. split; reflexivity.
  - apply Hraise. vm_compute.
    intros [[_ [H|H]]|[H _]]; discriminate H.
Defined.

End SetterFacts.

(** ** Compound bases *)

Module JoinFacts.

Import Compound Join.

Local Open Scope Q_scope.

Section Values.

Context {V : Type} (zero : V).

Implicit Types subbases : list (@Subbasis V).

Lemma check_intervals_spec subbases (range : list nat) :
  Forall (fun i => (i + 1 < length subbases)%nat) range ->
  (check_intervals subbases range = Ok tt /\
   Forall (fun i => forall b0 b1,
             subbases !! i = Some b0 -> subbases !! (i + 1)%nat = Some b1 ->
             (interval b0).2 == (interval b1).1) range) \/
  (check_intervals subbases range = Raise ValueError /\
   Exists (fun i => exists b0 b1,
             subbases !! i = Some b0 /\ subbases !! (i + 1)%nat = Some b1 /\
             ~ (interval b0).2 == (interval b1).1) range).
Proof.
  induction range as [|i range IH]; intros Hr.
  - left. split; [reflexivity | constructor].
  - apply Forall_cons in Hr as [Hi Hr]. specialize (IH Hr).
    destruct (lookup_lt_is_Some_2 subbases i) as [b0 Hb0]; [lia|].
    destruct (lookup_lt_is_Some_2 subbases (i + 1)) as [b1 Hb1]; [lia|].
    cbn [check_intervals]. unfold getitem. rewrite Hb0, Hb1. cbn [Py.bind].
    destruct (Qeq_bool (interval b0).2 (interval b1).1) eqn:Heq; cbn [negb].
    + apply Qeq_bool_iff in Heq.
      destruct IH as [[Hok Hall] | [Hraise Hex]].
      * left. split; [exact Hok|]. constructor; [|exact Hall].
        intros x0 x1 Hx0 Hx1.
        assert (x0 = b0) as -> by congruence.
        assert (x1 = b1) as -> by congruence. exact Heq.
      * right. split; [exact Hraise|]. apply Exists_cons_tl. exact Hex.
    + right. split; [reflexivity|]. apply Exists_cons_hd.
      exists b0, b1. split; [exact Hb0|]. split; [exact Hb1|].
      intros Hq. apply Qeq_bool_iff in Hq. congruence.
Qed.

Lemma check_intervals_adjacent subbases :
  (adjacent subbases ->
   check_intervals subbases (seq 0 (length subbases - 1)) = Ok tt) /\
  (~ adjacent subbases ->
   check_intervals subbases (seq 0 (length subbases - 1)) = Raise ValueError) /\
  (check_intervals subbases (seq 0 (length subbases - 1)) = Ok tt ->
   adjacent subbases).
Proof.
  assert (Hr : Forall (fun i => (i + 1 < length subbases)%nat)
                 (seq 0 (length subbases - 1))).
  { apply Forall_forall. intros i Hi. apply elem_of_seq in Hi. lia. }
  assert (Hadj : Forall (fun i => forall b0 b1,
                    subbases !! i = Some b0 -> subbases !! (i + 1)%nat = Some b1 ->
                    (interval b0).2 == (interval b1).1)
                   (seq 0 (length subbases - 1)) -> adjacent subbases).
  { intros Hall i b0 b1 Hb0 Hb1. rewrite Forall_forall in Hall.
    apply (Hall i); [|exact Hb0 | exact Hb1].
    apply elem_of_seq. apply lookup_lt_Some in Hb1. lia. }
  destruct (check_intervals_spec subbases _ Hr) as [[Hok Hall] | [Hraise Hex]].
  - split; [intros _; exact Hok|]. split; [|intros _; exact (Hadj Hall)].
    intros Hn. exfalso. exact (Hn (Hadj Hall)).
  - assert (Hn : ~ adjacent subbases).
    { intros Ha. apply Exists_exists in Hex as (i & _ & b0 & b1 & Hb0 & Hb1 & Hne).
      exact (Hne (Ha i b0 b1 Hb0 Hb1)). }
    split; [intros Ha; contradiction|]. split; [intros _; exact Hraise|].
    rewrite Hraise. discriminate.
Qed.

(** X17. [Compound.__init__] returns exactly for a non-empty list of
    subbases in which each interval ends where the next one starts; its
    interval then runs from the start of the first subbasis to the end of
    the last.  A gap or an overlap raises [ValueError], and the empty list
    passes the check and then raises [IndexError]. *)
Theorem Compound_init_accepts subbases :
  (subbases = [] -> Compound_init subbases = Raise IndexError) /\
  (subbases <> [] -> adjacent subbases ->
   exists first final,
     head subbases = Some first /\ last subbases = Some final /\
     Compound_init subbases
     = Ok ({| Compound.subbases := subbases |},
           ((interval first).1, (interval final).2))) /\
  (subbases <> [] -> ~ adjacent subbases ->
   Compound_init subbases = Raise ValueError).
Proof.
  destruct (check_intervals_adjacent subbases) as (Hok & Hraise & _).
  split; [|split].
  - intros ->. reflexivity.
  - intros Hne Ha.
    destruct subbases as [|first rest] eqn:E; [contradiction|]. rewrite <- E in *.
    destruct (last subbases) as [final|] eqn:Hlast.
    2: { rewrite E in Hlast. apply last_None in Hlast. discriminate. }
    exists first, final. split; [rewrite E; reflexivity|]. split; [reflexivity|].
    unfold Compound_init. rewrite (Hok Ha). cbn [Py.bind].
    rewrite (LookupFacts.getitemZ_first subbases first) by (rewrite E; reflexivity).
    cbn [Py.bind].
    rewrite (LookupFacts.getitemZ_last subbases final Hlast). reflexivity.
  - intros _ Hn. unfold Compound_init. rewrite (Hraise Hn). reflexivity.
Qed.



Lemma sum_list_app (l k : list nat) :
  sum_list (l ++ k) = (sum_list l + sum_list k)%nat.
Proof. induction l as [|x l IH]; [reflexivity|]. cbn. rewrite IH. lia. Qed.

Lemma sum_list_take_S (sizes : list nat) (i s : nat) :
  sizes !! i = Some s ->
  sum_list (take (S i) sizes) = (sum_list (take i sizes) + s)%nat.
Proof.
  intros H. rewrite (take_S_r _ _ _ H), sum_list_app. cbn. lia.
Qed.

Lemma sum_list_take_le (sizes : list nat) (i : nat) :
  (sum_list (take i sizes) <= sum_list sizes)%nat.
Proof.
  rewrite <- (take_drop i sizes) at 2. rewrite sum_list_app. lia.
Qed.

Lemma lookup_reshape (sizes : list nat) (l : list V) (i s : nat) :
  sizes !! i = Some s ->
  reshape sizes l !! i = Some (take s (drop (sum_list (take i sizes)) l)).
Proof.
  revert l i. induction sizes as [|sz sizes IH]; intros l i H; [discriminate|].
  destruct i as [|i].
  - injection H as ->. reflexivity.
  - cbn [reshape]. change ((take sz l :: reshape sizes (drop sz l)) !! S i)
      with (reshape sizes (drop sz l) !! i).
    rewrite (IH (drop sz l) i H), drop_drop. reflexivity.
Qed.

Lemma concat_reshape (sizes : list nat) (l : list V) :
  length l = sum_list sizes -> concat (reshape sizes l) = l.
Proof.
  revert l. induction sizes as [|sz sizes IH]; intros l H.
  - destruct l; [reflexivity | discriminate].
  - cbn [reshape concat]. cbn in H.
    rewrite IH by (rewrite length_drop; lia). apply take_drop.
Qed.

Lemma coeff_start_nat (self : @Compound V) (k : nat) :
  (k <= length (subbases self))%nat ->
  coeff_start self (Z.of_nat k)
  = Z.of_nat (sum_list (take k (coeff_size <$> subbases self))).
Proof.
  intros H. unfold coeff_start, Resize.getslice, Resize.slice_bounds, Resize.clip.
  destruct (Z.ltb_spec (Z.of_nat k) 0); [lia|].
  rewrite Z.min_l by lia.
  replace (Z.to_nat (Z.of_nat k - 0)) with k by lia.
  change (Z.to_nat 0) with 0%nat. rewrite drop_0, fmap_take. reflexivity.
Qed.

(** X19. For coefficient data whose length is the coefficient size of a
    compound basis, the parts that [sub_cdata] returns for the subbases, in
    order, have the coefficient sizes of the subbases and concatenate to the
    data: every coefficient belongs to exactly one subbasis. *)
Theorem sub_cdata_partition (self : @Compound V) (cdata : list V) :
  Z.of_nat (length cdata) = Compound_coeff_size self ->
  exists pieces,
    length pieces = length (subbases self) /\
    (forall i b, subbases self !! i = Some b ->
       exists piece,
         pieces !! i = Some piece /\
         sub_cdata self cdata (Z.of_nat i) = Ok piece /\
         length piece = coeff_size b) /\
    concat pieces = cdata.
Proof.
  unfold Compound_coeff_size. intros Hlen. apply Nat2Z.inj in Hlen.
  set (sizes := coeff_size <$> subbases self) in *.
  exists (reshape sizes cdata).
  split; [rewrite length_reshape; unfold sizes; apply length_fmap|].
  split; [|apply concat_reshape; exact Hlen].
  intros i b Hb.
  assert (Hs : sizes !! i = Some (coeff_size b)).
  { unfold sizes. rewrite list_lookup_fmap, Hb. reflexivity. }
  pose proof (lookup_lt_Some _ _ _ Hb) as Hi.
  pose proof (sum_list_take_S sizes i _ Hs) as HS.
  pose proof (sum_list_take_le sizes (S i)) as Hle.
  eexists. split; [apply lookup_reshape; exact Hs|].
  split.
  - unfold sub_cdata, get_coeff_start, call. cbn [Py.bind].
    replace (Z.of_nat i + 1)%Z with (Z.of_nat (S i)) by lia.
    rewrite !coeff_start_nat by lia. fold sizes.
    rewrite ResizeFacts.getslice_range by lia.
    do 2 f_equal. lia.
  - rewrite length_take, length_drop. lia.
Qed.

End Values.

Lemma two_intervals_adjacent : adjacent (subbases two_intervals).
Proof.
  intros i b0 b1 H0 H1. destruct i as [|[|i]]; cbn in H0, H1.
  - injection H0 as <-. injection H1 as <-. reflexivity.
  - discriminate H1.
  - discriminate H0.
Qed.

Lemma Compound_init_accepts_witness :
  exists first final,
    head (subbases two_intervals) = Some first /\
    last (subbases two_intervals) = Some final /\
    Compound_init (subbases two_intervals)
    = Ok ({| subbases := subbases two_intervals |},
          ((interval first).1, (interval final).2)).
Proof.
  apply (Compound_init_accepts (subbases two_intervals)).
  - discriminate.
  - exact two_intervals_adjacent.
Defined.


Lemma sub_cdata_partition_witness :
  exists pieces,
    length pieces = length (subbases two_intervals) /\
    (forall i b, subbases two_intervals !! i = Some b ->
       exists piece,
         pieces !! i = Some piece /\
         sub_cdata two_intervals [10; 11; 12; 13; 14; 15; 16; 17] (Z.of_nat i)
         = Ok piece /\
         length piece = coeff_size b) /\
    concat pieces = [10; 11; 12; 13; 14; 15; 16; 17].
Proof.
  apply (sub_cdata_partition two_intervals [10; 11; 12; 13; 14; 15; 16; 17]).
  reflexivity.
Defined.

End JoinFacts.

(** ** The buffers of a transpose *)

Module ViewsFacts.

Import Basis Views.

Lemma positions_app (n : nat) (a b : list Z) (pa pb : list nat) :
  positions n a = Ok pa -> positions n b = Ok pb ->
  positions n (a ++ b) = Ok (pa ++ pb).
Proof.
  revert pa. induction a as [|x a IH]; intros pa Ha Hb.
  - injection Ha as <-. exact Hb.
  - cbn [positions app] in *.
    destruct (position n x) as [p|e]; [|discriminate Ha]. cbn [Py.bind] in *.
    destruct (positions n a) as [ps|e]; [|discriminate Ha]. cbn [Py.bind] in *.
    injection Ha as <-. rewrite (IH ps eq_refl Hb). reflexivity.
Qed.

Lemma positions_seqZ (n a c : nat) :
  a + c <= n -> positions n (seqZ (Z.of_nat a) (Z.of_nat c)) = Ok (seq a c).
Proof.
  revert a. induction c as [|c IH]; intros a H; [reflexivity|].
  rewrite seqZ_cons by lia. cbn [positions seq].
  rewrite DifferentiateFacts.position_nat by lia. cbn [Py.bind].
  replace (Z.succ (Z.of_nat a)) with (Z.of_nat (S a)) by lia.
  replace (Z.pred (Z.of_nat (S c))) with (Z.of_nat c) by lia.
  rewrite IH by lia. reflexivity.
Qed.

Lemma select_app (shape : list Z) (p q : list nat) (xs ys : list Z) :
  select shape p = Ok xs -> select shape q = Ok ys ->
  select shape (p ++ q) = Ok (xs ++ ys).
Proof.
  revert xs. induction p as [|i p IH]; intros xs Hp Hq.
  - injection Hp as <-. exact Hq.
  - cbn [select app] in *.
    destruct (getitem shape i) as [x|e]; [|discriminate Hp]. cbn [Py.bind] in *.
    destruct (select shape p) as [zs|e]; [|discriminate Hp]. cbn [Py.bind] in *.
    injection Hp as <-. rewrite (IH zs eq_refl Hq). reflexivity.
Qed.

Lemma select_seq (shape : list Z) (a c : nat) :
  a + c <= length shape -> select shape (seq a c) = Ok (take c (drop a shape)).
Proof.
  revert a. induction c as [|c IH]; intros a H; [reflexivity|].
  cbn [select seq].
  destruct (lookup_lt_is_Some_2 shape a) as [x Hx]; [lia|].
  unfold getitem. rewrite Hx. cbn [Py.bind]. rewrite IH by lia. cbn [Py.bind].
  rewrite (drop_S _ _ _ Hx). reflexivity.
Qed.

(** Rolling a shape one way and the axes the other way cancel. *)
Lemma transpose_roll (l : list Z) (k : Z) :
  transpose_shape (roll l (- k)) (roll (arange 0 (Z.of_nat (length l))) k) = Ok l.
Proof.
  destruct l as [|x0 l0] eqn:E.
  { unfold roll, arange. change (seqZ 0 (Z.of_nat (length (@nil Z)) - 0)) with (@nil Z).
    rewrite !drop_nil, !take_nil. reflexivity. }
  rewrite <- E.
  assert (Hn : 0 < length l) by (rewrite E; cbn; lia). clear E x0 l0.
  unfold roll, arange. rewrite length_seqZ, Z.opp_involutive.
  replace (Z.of_nat (length l) - 0)%Z with (Z.of_nat (length l)) by lia.
  rewrite Z2Nat.id by lia.
  set (n := length l) in *.
  set (kk := Z.to_nat (k mod Z.of_nat n)).
  set (m := Z.to_nat ((- k) mod Z.of_nat n)).
  assert (Hkm : (kk = 0 /\ m = 0) \/ (0 < kk /\ kk + m = n)).
  { subst kk m. pose proof (Z.mod_pos_bound k (Z.of_nat n) ltac:(lia)).
    destruct (decide (k mod Z.of_nat n = 0)%Z) as [Hz|Hz].
    - left. rewrite Z.mod_opp_l_z by lia. rewrite Hz. split; reflexivity.
    - right. rewrite Z.mod_opp_l_nz by lia. lia. }
  assert (Hm : m <= n) by lia.
  assert (Haxes : drop m (seqZ 0 (Z.of_nat n)) ++ take m (seqZ 0 (Z.of_nat n))
                  = seqZ (Z.of_nat m) (Z.of_nat (n - m)) ++ seqZ (Z.of_nat 0) (Z.of_nat m)).
  { replace (Z.of_nat n) with (Z.of_nat m + Z.of_nat (n - m))%Z at 1 2 by lia.
    rewrite seqZ_app by lia.
    rewrite drop_app_length', take_app_length' by (rewrite length_seqZ; lia).
    reflexivity. }
  rewrite Haxes. unfold transpose_shape.
  assert (Hlen : length (drop kk l ++ take kk l) = n).
  { rewrite length_app, length_drop, length_take. fold n. lia. }
  rewrite Hlen.
  destruct (decide (length (seqZ (Z.of_nat m) (Z.of_nat (n - m))
                            ++ seqZ (Z.of_nat 0) (Z.of_nat m)) = n)) as [_|Hne].
  2: { exfalso. apply Hne. rewrite length_app, !length_seqZ. lia. }
  rewrite (positions_app n _ _ (seq m (n - m)) (seq 0 m))
    by (apply positions_seqZ; lia).
  cbn [Py.bind].
  destruct (decide (NoDup (seq m (n - m) ++ seq 0 m))) as [_|Hnd].
  2: { exfalso. apply Hnd. apply NoDup_app. split; [apply NoDup_seq|].
       split; [|apply NoDup_seq].
       intros i Hi Hj. apply elem_of_seq in Hi. apply elem_of_seq in Hj. lia. }
  rewrite (select_app _ _ _ (take (n - m) (drop m (drop kk l ++ take kk l)))
             (take m (drop 0 (drop kk l ++ take kk l))))
    by (apply select_seq; rewrite Hlen; lia).
  f_equal. rewrite drop_0.
  destruct Hkm as [[Hk0 Hm0] | [Hk Hsum]].
  - rewrite Hk0, Hm0, !drop_0, take_0, !app_nil_r, Nat.sub_0_r.
    apply take_ge. fold n. lia.
  - assert (Hd : length (drop kk l) = m) by (rewrite length_drop; fold n; lia).
    rewrite drop_app_length', take_app_length' by (exact Hd || exact (eq_sym Hd)).
    rewrite take_ge by (rewrite length_take; lia).
    apply take_drop.
Qed.

(** X20. For every local shape and every axis, the view of the plan
    buffer that a transpose copies the field data to and from has exactly the
    local shape of the layout, even though the buffer itself is laid out with
    the axes rolled; for a group of fields the view has the number of fields
    in front of the local shape. *)
Theorem temp_shape_matches (nfields : Z) (shape : list Z) (dim axis : Z) :
  dim = Z.of_nat (length shape) ->
  temp_shape shape dim axis = Ok shape /\
  group_temp_shape nfields shape dim axis = Ok (nfields :: shape).
Proof.
  intros ->. unfold temp_shape, group_temp_shape. split.
  - apply transpose_roll.
  - replace (Z.of_nat (length shape) + 1)%Z
      with (Z.of_nat (length (nfields :: shape))) by (cbn [length]; lia).
    apply transpose_roll.
Qed.

Lemma temp_shape_matches_witness :
  temp_shape [4; 6; 8]%Z 3 1 = Ok [4; 6; 8]%Z /\
  group_temp_shape 2 [4; 6; 8]%Z 3 1 = Ok [2; 4; 6; 8]%Z.
Proof. apply (temp_shape_matches 2 [4; 6; 8]%Z 3 1). reflexivity. Defined.

End ViewsFacts.

(** ** Fields of the earlier code *)

Module KeatonFacts.

Import Ascii Keaton.

Section Fields.

Context {D : Type} (store : D -> D -> result D).

Implicit Types f : @Field D.

Lemma enumerate_cons (n : nat) (x t : ascii) (rest : list ascii) :
  imap (fun i c => (n + i, c)) (t :: rest)
  = (n, t) :: imap (fun i c => (S n + i, c)) rest.
Proof.
  cbn [imap]. f_equal; [f_equal; lia|].
  apply imap_ext. intros i c _. unfold compose. f_equal. lia.
Qed.

Lemma getitem_middle {A : Type} (pre post : list A) (x : A) :
  getitem (pre ++ x :: post) (length pre) = Ok x.
Proof. unfold getitem. rewrite list_lookup_middle by reflexivity. reflexivity. Qed.

Lemma length_snoc {A : Type} (pre : list A) (x : A) :
  length (pre ++ [x]) = S (length pre).
Proof. rewrite length_app. cbn. lia. Qed.

(** Where the entries already agree, the loop changes nothing. *)
Lemma require_loop_noop f (pre rest post : list ascii) :
  space f = pre ++ rest ++ post ->
  require_loop f (imap (fun i c => (length pre + i, c)) rest) = Ok f.
Proof.
  revert pre. induction rest as [|t rest IH]; intros pre Hsp; [reflexivity|].
  rewrite (enumerate_cons _ t). cbn [require_loop]. unfold require_space.
  rewrite Hsp. cbn [app]. rewrite getitem_middle. cbn [Py.bind].
  rewrite Ascii.eqb_refl. cbn [negb Py.bind].
  rewrite <- (length_snoc pre t). apply IH.
  rewrite Hsp, <- app_assoc. reflexivity.
Qed.

Lemma transform_distributed f (i : nat) :
  local f !! i = Some false -> transform f i = Raise NotImplementedError.
Proof.
  intros H. unfold transform, require_local, getitem. rewrite H. reflexivity.
Qed.

Lemma transform_flip f (pre cur : list ascii) (c t : ascii) :
  space f = pre ++ c :: cur -> known c -> known t -> c <> t ->
  local f !! length pre = Some true ->
  length pre < length (bases (domain f)) ->
  exists d,
    transform f (length pre)
    = Ok {| domain := domain f; data := d; space := pre ++ t :: cur;
            local := local f |}.
Proof.
  intros Hsp Hc Ht Hne Hloc Hb.
  destruct (lookup_lt_is_Some_2 (bases (domain f)) (length pre) Hb) as [basis Hbasis].
  assert (Hset : forall x, setitem (space f) (length pre) x = Ok (pre ++ x :: cur)).
  { intros x. rewrite ChainFacts.setitem_ok
      by (rewrite Hsp, length_app; cbn; lia).
    rewrite Hsp, insert_app_r_alt, Nat.sub_diag by lia. reflexivity. }
  unfold transform, require_local.
  rewrite (ChainFacts.getitem_ok _ _ _ Hloc). cbn [negb Py.bind].
  rewrite (ChainFacts.getitem_ok _ _ _ Hbasis), !Hset.
  assert (Hget : getitem (space f) (length pre) = Ok c)
    by (rewrite Hsp; apply getitem_middle).
  rewrite Hget. cbn [Py.bind].
  destruct Hc as [-> | ->], Ht as [-> | ->]; try congruence.
  - change (Ascii.eqb "x" "x") with true. cbn iota. eexists. reflexivity.
  - change (Ascii.eqb "k" "x") with false. change (Ascii.eqb "k" "k") with true.
    cbn iota. eexists. reflexivity.
Qed.

Lemma require_loop_spec (rest pre cur : list ascii) f :
  space f = pre ++ cur -> length rest <= length cur ->
  Forall known cur -> Forall known rest ->
  length pre + length rest <= length (bases (domain f)) ->
  length pre + length rest <= length (local f) ->
  match require_loop f (imap (fun i c => (length pre + i, c)) rest) with
  | Ok f' =>
      space f' = pre ++ rest ++ drop (length rest) cur /\
      local f' = local f /\ domain f' = domain f /\
      (forall i c t, cur !! i = Some c -> rest !! i = Some t -> c <> t ->
         local f !! (length pre + i) = Some true)
  | Raise e =>
      e = NotImplementedError /\
      exists i c t, cur !! i = Some c /\ rest !! i = Some t /\ c <> t /\
        local f !! (length pre + i) = Some false
  end.
Proof.
  revert pre cur f.
  induction rest as [|t rest IH]; intros pre cur f Hsp Hlen Hcur Hrest Hb Hl.
  - cbn [imap require_loop length drop app].
    split; [exact Hsp|]. split; [reflexivity|]. split; [reflexivity|].
    intros i c t _ Ht. discriminate Ht.
  - destruct cur as [|c cur]; [cbn in Hlen; lia|].
    apply Forall_cons in Hcur as [Hc Hcur]. apply Forall_cons in Hrest as [Ht Hrest].
    cbn [length] in Hlen, Hb, Hl.
    assert (Hget : getitem (space f) (length pre) = Ok c)
      by (rewrite Hsp; apply getitem_middle).
    rewrite (enumerate_cons _ t). cbn [require_loop]. unfold require_space.
    rewrite Hget. cbn [Py.bind].
    destruct (Ascii.eqb_spec c t) as [->|Hne]; cbn [negb Py.bind].
    + specialize (IH (pre ++ [t]) cur f).
      rewrite length_snoc in IH.
      destruct (require_loop f _) as [f'|e].
      * destruct IH as (Hs & Hloc & Hdom & Hall);
          [rewrite Hsp, <- app_assoc; reflexivity | lia | assumption.. | lia | lia |].
        split; [rewrite Hs, <- app_assoc; reflexivity|].
        split; [exact Hloc|]. split; [exact Hdom|].
        intros [|i] c0 t0 Hc0 Ht0 Hneq.
        -- cbn in Hc0, Ht0. congruence.
        -- replace (length pre + S i) with (S (length pre) + i) by lia.
           exact (Hall i c0 t0 Hc0 Ht0 Hneq).
      * destruct IH as (He & i & c0 & t0 & Hc0 & Ht0 & Hneq & Hfalse);
          [rewrite Hsp, <- app_assoc; reflexivity | lia | assumption.. | lia | lia |].
        split; [exact He|]. exists (S i), c0, t0.
        replace (length pre + S i) with (S (length pre) + i) by lia.
        repeat split; assumption.
    + destruct (lookup_lt_is_Some_2 (local f) (length pre)) as [here Hhere]; [lia|].
      destruct here.
      2: { rewrite (transform_distributed f _ Hhere). cbn [Py.bind].
           split; [reflexivity|]. exists 0, c, t.
           rewrite Nat.add_0_r. repeat split; assumption || reflexivity. }
      destruct (transform_flip f pre cur c t Hsp Hc Ht Hne Hhere) as [d Hd]; [lia|].
      rewrite Hd. cbn [Py.bind].
      set (f1 := {| domain := domain f; data := d; space := pre ++ t :: cur;
                    local := local f |}).
      specialize (IH (pre ++ [t]) cur f1).
      rewrite length_snoc in IH.
      destruct (require_loop f1 _) as [f'|e].
      * destruct IH as (Hs & Hloc & Hdom & Hall);
          [cbn [space f1]; rewrite <- app_assoc; reflexivity | lia | assumption..
          | cbn [domain f1]; lia | cbn [local f1]; lia |].
        split; [rewrite Hs, <- app_assoc; reflexivity|].
        split; [exact Hloc|]. split; [exact Hdom|].
        intros [|i] c0 t0 Hc0 Ht0 Hneq.
        -- rewrite Nat.add_0_r. exact Hhere.
        -- replace (length pre + S i) with (S (length pre) + i) by lia.
           exact (Hall i c0 t0 Hc0 Ht0 Hneq).
      * destruct IH as (He & i & c0 & t0 & Hc0 & Ht0 & Hneq & Hfalse);
          [cbn [space f1]; rewrite <- app_assoc; reflexivity | lia | assumption..
          | cbn [domain f1]; lia | cbn [local f1]; lia |].
        split; [exact He|]. exists (S i), c0, t0.
        replace (length pre + S i) with (S (length pre) + i) by lia.
        repeat split; assumption.
Qed.

(** X21. Where every entry of the field's space and of the requested
    space is [x] or [k], the request is not longer than the field's axes and
    every axis whose entry differs is local, [require_global_space] returns
    with the requested entries in place of the first entries of the space and
    with the domain and the distribution unchanged; requiring the same space
    again changes nothing, and so transforms nothing. *)
Theorem require_global_space_reaches f (s : string) (target : list ascii) :
  list_ascii_of_string (expand f s) = target ->
  length target <= length (space f) ->
  Forall known (space f) -> Forall known target ->
  length target <= length (bases (domain f)) ->
  length target <= length (local f) ->
  (forall i c t, space f !! i = Some c -> target !! i = Some t -> c <> t ->
     local f !! i = Some true) ->
  exists f',
    require_global_space f s = Ok f' /\
    space f' = target ++ drop (length target) (space f) /\
    local f' = local f /\ domain f' = domain f /\
    require_global_space f' s = Ok f'.
Proof.
  intros Ht Hlen Hsp Htarget Hb Hl Hlocal.
  pose proof (require_loop_spec target [] (space f) f eq_refl Hlen Hsp Htarget Hb Hl)
    as H.
  cbn [length Nat.add app] in H.
  unfold require_global_space at 1. unfold enumerate. rewrite Ht.
  destruct (require_loop f _) as [f'|e].
  - destruct H as (Hs & Hloc & Hdom & _). exists f'.
    split; [reflexivity|]. split; [exact Hs|]. split; [exact Hloc|].
    split; [exact Hdom|].
    unfold require_global_space, enumerate, expand. rewrite Hdom.
    fold (expand f s). rewrite Ht.
    apply (require_loop_noop f' [] target (drop (length target) (space f))).
    exact Hs.
  - destruct H as (_ & i & c & t & Hc & Hti & Hne & Hfalse).
    rewrite (Hlocal i c t Hc Hti Hne) in Hfalse. discriminate Hfalse.
Qed.

(** X22. Under the same conditions on the entries and the lengths, if
    some axis whose entry differs from the requested one is distributed, the
    request raises [NotImplementedError]: the transpose it needs is not
    implemented. *)
Theorem require_global_space_distributed f (s : string) (target : list ascii)
    (i : nat) (c t : ascii) :
  list_ascii_of_string (expand f s) = target ->
  length target <= length (space f) ->
  Forall known (space f) -> Forall known target ->
  length target <= length (bases (domain f)) ->
  length target <= length (local f) ->
  space f !! i = Some c -> target !! i = Some t -> c <> t ->
  local f !! i = Some false ->
  require_global_space f s = Raise NotImplementedError.
Proof.
  intros Ht Hlen Hsp Htarget Hb Hl Hc Hti Hne Hfalse.
  pose proof (require_loop_spec target [] (space f) f eq_refl Hlen Hsp Htarget Hb Hl)
    as H.
  cbn [length Nat.add app] in H.
  unfold require_global_space, enumerate. rewrite Ht.
  destruct (require_loop f _) as [f'|e].
  - destruct H as (_ & _ & _ & Hall).
    rewrite (Hall i c t Hc Hti Hne) in Hfalse. discriminate Hfalse.
  - destruct H as [-> _]. reflexivity.
Qed.

(** X23. Reading a field in the space it has just been assigned in
    returns the stored array and leaves the field as the assignment left it,
    with no transform, whatever the string that names the space. *)
Theorem setitem_getitem f f1 (s : string) (new : D) :
  __setitem__ store f s new = Ok f1 ->
  __getitem__ f1 s = Ok (f1, data f1) /\
  store (data f) new = Ok (data f1) /\
  space f1 = list_ascii_of_string (expand f s).
Proof.
  unfold __setitem__. intros H.
  apply LookupFacts.bind_inv in H as (d & Hd & H). injection H as <-.
  cbn [data space]. split; [|split; [exact Hd | reflexivity]].
  unfold __getitem__, require_global_space, enumerate.
  set (f1 := {| domain := domain f; data := d;
                space := list_ascii_of_string (expand f s); local := local f |}).
  change (expand f1 s) with (expand f s).
  assert (H : space f1 = [] ++ list_ascii_of_string (expand f s) ++ [])
    by (cbn [f1 space app]; rewrite app_nil_r; reflexivity).
  apply require_loop_noop in H. cbn [length Nat.add] in H.
  rewrite H. reflexivity.
Qed.

End Fields.

Lemma known_x : known "x"%char.
Proof. left. reflexivity. Qed.

Lemma known_k : known "k"%char.
Proof. right. reflexivity. Qed.

Lemma require_global_space_reaches_witness :
  exists f',
    require_global_space plane "K" = Ok f' /\
    space f' = ["k"; "k"]%char ++ drop (length ["k"; "k"]%char) (space plane) /\
    local f' = local plane /\ domain f' = domain plane /\
    require_global_space f' "K" = Ok f'.
Proof.
  apply (require_global_space_reaches plane "K" ["k"; "k"]%char).
  - reflexivity.
  - simpl. lia.
  - repeat constructor; exact known_x.
  - repeat constructor; exact known_k.
  - simpl. lia.
  - simpl. lia.
  - intros [|[|i]] c t Hc Ht Hne; [reflexivity | reflexivity | discriminate Hc].
Defined.

Lemma setitem_getitem_witness :
  __getitem__
    {| domain := domain plane; data := 7%Z;
       space := list_ascii_of_string "kk"; local := local plane |} "K"
  = Ok ({| domain := domain plane; data := 7%Z;
           space := list_ascii_of_string "kk"; local := local plane |}, 7%Z) /\
  Ok 7%Z = Ok 7%Z /\
  list_ascii_of_string "kk" = list_ascii_of_string (expand plane "K").
Proof.
  apply (setitem_getitem (fun _ new => Ok new) plane
           {| domain := domain plane; data := 7%Z;
              space := list_ascii_of_string "kk"; local := local plane |}
           "K" 7%Z).
  reflexivity.
Defined.

Lemma require_global_space_distributed_witness :
  require_global_space distributed_plane "K" = Raise NotImplementedError.
Proof.
  apply (require_global_space_distributed distributed_plane "K" ["k"; "k"]%char
           1 "x"%char "k"%char).
  - reflexivity.
  - simpl. lia.
  - repeat constructor; exact known_x.
  - repeat constructor; exact known_k.
  - simpl. lia.
  - simpl. lia.
  - reflexivity.
  - reflexivity.
  - discriminate.
  - reflexivity.
Defined.

End KeatonFacts.

(** ** Checking transform arrays *)

Module CheckFacts.

Import Distributor Check.

Lemma dtype_eqb_eq (x y : dtype) : Field.dtype_eqb x y = true -> x = y.
Proof. destruct x, y; (reflexivity || discriminate). Qed.

Lemma setitemZ_getitemZ {A : Type} (l l' : list A) (axis : Z) (x : A) :
  setitemZ l axis x = Ok l' ->
  getitemZ l' axis = Ok x /\
  exists k, position (length l) axis = Ok k /\ l' = <[k:=x]> l.
Proof.
  unfold setitemZ, getitemZ. destruct (position (length l) axis) as [k|e] eqn:E;
    [|discriminate].
  intros H. injection H as <-. rewrite length_insert, E.
  assert (Hk : k < length l).
  { unfold position in E. repeat destruct (decide _) in E; try discriminate;
      injection E as <-; lia. }
  split; [|exists k; split; reflexivity].
  unfold getitem. rewrite list_lookup_insert_eq by exact Hk. reflexivity.
Qed.

Section Scales.

Variables (S : Type) (truthy : S -> bool) (grid_size : S -> result Z).

(** X24. Whenever [check_arrays] returns, the coefficient array has the
    basis's coefficient size along the axis and its coefficient dtype, the
    grid array has its grid dtype and, for a scale that counts as true, the
    scaled grid size along the axis; an array that was passed in is returned
    as it is, and an array that was built has the shape of the other one
    except along the axis. *)
Theorem check_arrays_returns (self : Attributes) (cdata gdata : option ndarray)
    (axis : Z) (scale : option S) (c g : ndarray) :
  check_arrays S truthy grid_size self cdata gdata axis scale = Ok (c, g) ->
  getitemZ (shape c) axis = Ok (coeff_size self) /\
  adtype c = coeff_dtype self /\
  adtype g = grid_dtype self /\
  (forall sc, scale = Some sc -> truthy sc = true ->
     exists n, grid_size sc = Ok n /\ getitemZ (shape g) axis = Ok n) /\
  (forall c0, cdata = Some c0 -> c = c0) /\
  (forall g0, gdata = Some g0 -> g = g0) /\
  (cdata = None ->
   exists k, position (length (shape g)) axis = Ok k /\
     shape c = <[k:=coeff_size self]> (shape g)) /\
  (gdata = None ->
   exists k n, position (length (shape c)) axis = Ok k /\
     shape g = <[k:=n]> (shape c)).
Proof.
  unfold check_arrays. intros H.
  apply LookupFacts.bind_inv in H as (c1 & Hc & H).
  apply LookupFacts.bind_inv in H as (size & Hsize & H).
  assert (Hc1 : getitemZ (shape c1) axis = Ok (coeff_size self) /\
                adtype c1 = coeff_dtype self /\
                (forall c0, cdata = Some c0 -> c1 = c0) /\
                (cdata = None -> exists g0 k, gdata = Some g0 /\
                   position (length (shape g0)) axis = Ok k /\
                   shape c1 = <[k:=coeff_size self]> (shape g0))).
  { destruct cdata as [c0|].
    - apply LookupFacts.bind_inv in Hc as (n & Hn & Hc).
      destruct (Z.eqb_spec n (coeff_size self)) as [->|Hne]; [|discriminate Hc].
      cbn [negb] in Hc.
      destruct (Field.dtype_eqb (adtype c0) (coeff_dtype self)) eqn:Hdt;
        [|discriminate Hc].
      cbn [negb] in Hc. injection Hc as <-.
      split; [exact Hn|]. split; [apply dtype_eqb_eq; exact Hdt|].
      split; [intros x Hx; congruence | discriminate].
    - destruct gdata as [g0|]; [|discriminate Hc].
      apply LookupFacts.bind_inv in Hc as (cshape & Hset & Hc). injection Hc as <-.
      apply setitemZ_getitemZ in Hset as (Hget & k & Hk & ->).
      cbn [create_array shape adtype].
      split; [exact Hget|]. split; [reflexivity|].
      split; [discriminate|]. intros _. exists g0, k. repeat split. exact Hk. }
  destruct Hc1 as (Hcs & Hcd & Hcin & Hcbuilt).
  assert (Hscale : forall sc, scale = Some sc -> truthy sc = true ->
                     exists n, grid_size sc = Ok n /\ size = Some n).
  { intros sc -> Ht. rewrite Ht in Hsize.
    apply LookupFacts.bind_inv in Hsize as (n & Hn & Hsize). injection Hsize as <-.
    exists n. split; [exact Hn | reflexivity]. }
  destruct gdata as [g0|].
  - apply LookupFacts.bind_inv in H as ([] & Hchk & H).
    destruct (Field.dtype_eqb (adtype g0) (grid_dtype self)) eqn:Hdt;
      [|discriminate H].
    cbn [negb] in H. injection H as <- <-.
    split; [exact Hcs|]. split; [exact Hcd|].
    split; [apply dtype_eqb_eq; exact Hdt|].
    split.
    { intros sc Hsc Ht. destruct (Hscale sc Hsc Ht) as (n & Hn & ->).
      exists n. split; [exact Hn|].
      apply LookupFacts.bind_inv in Hchk as (m & Hm & Hchk).
      destruct (Z.eqb_spec m n) as [->|Hne]; [exact Hm | discriminate Hchk]. }
    split; [exact Hcin|]. split; [intros x Hx; congruence|].
    split; [|discriminate].
    intros Hnone. destruct (Hcbuilt Hnone) as (x & k & Hx & Hk & Hshape).
    assert (x = g0) as -> by congruence. exists k. split; assumption.
  - destruct size as [n|]; [|discriminate H].
    apply LookupFacts.bind_inv in H as (gshape & Hset & H). injection H as <- <-.
    apply setitemZ_getitemZ in Hset as (Hget & k & Hk & ->).
    cbn [create_array shape adtype].
    split; [exact Hcs|]. split; [exact Hcd|]. split; [reflexivity|].
    split.
    { intros sc Hsc Ht. destruct (Hscale sc Hsc Ht) as (n' & Hn & Heq).
      exists n. split; [congruence | exact Hget]. }
    split; [exact Hcin|]. split; [discriminate|].
    split.
    + intros Hnone. destruct (Hcbuilt Hnone) as (x & _ & Hx & _). discriminate Hx.
    + intros _. exists k, n. split; [exact Hk | reflexivity].
Qed.

(** X25. With neither array, [check_arrays] raises [AttributeError]; with
    a coefficient array that passes its checks, no grid array and no scale,
    or a scale that counts as false, it raises [UnboundLocalError], because
    the grid size is computed only for a scale that counts as true. *)
Theorem check_arrays_unbuilt (self : Attributes) (c : ndarray) (axis : Z)
    (scale : option S) :
  getitemZ (shape c) axis = Ok (coeff_size self) ->
  adtype c = coeff_dtype self ->
  (forall sc, scale = Some sc -> truthy sc = false) ->
  check_arrays S truthy grid_size self None None axis scale = Raise AttributeError /\
  check_arrays S truthy grid_size self (Some c) None axis scale
  = Raise UnboundLocalError.
Proof.
  intros Hn Hdt Hscale. split; [reflexivity|].
  unfold check_arrays. rewrite Hn. cbn [Py.bind].
  rewrite Z.eqb_refl, Hdt. cbn [negb].
  assert (Hd : Field.dtype_eqb (coeff_dtype self) (coeff_dtype self) = true)
    by (destruct (coeff_dtype self); reflexivity).
  rewrite Hd. cbn [negb Py.bind].
  destruct scale as [sc|]; [rewrite (Hscale sc eq_refl)|]; reflexivity.
Qed.

End Scales.

Lemma check_arrays_returns_witness :
  getitemZ (shape (create_array [4; 5]%Z complex128)) 1 = Ok 5%Z /\
  adtype (create_array [4; 5]%Z complex128) = complex128 /\
  adtype (create_array [4; 12]%Z float64) = float64.
Proof.
  pose proof (check_arrays_returns Z (fun sc => negb (sc =? 0)%Z)
                (fun sc => Ok (4 * sc)%Z)
                {| coeff_size := 5; coeff_dtype := complex128; grid_dtype := float64 |}
                (Some (create_array [4; 5]%Z complex128)) None 1 (Some 3%Z)
                (create_array [4; 5]%Z complex128)
                (create_array [4; 12]%Z float64) eq_refl)
    as (H1 & H2 & H3 & _).
  split; [exact H1|]. split; [exact H2 | exact H3].
Defined.

Lemma check_arrays_unbuilt_witness :
  check_arrays Z (fun sc => negb (sc =? 0)%Z) (fun sc => Ok (4 * sc)%Z)
    {| coeff_size := 5; coeff_dtype := complex128; grid_dtype := float64 |}
    None None 1 (Some 0%Z) = Raise AttributeError /\
  check_arrays Z (fun sc => negb (sc =? 0)%Z) (fun sc => Ok (4 * sc)%Z)
    {| coeff_size := 5; coeff_dtype := complex128; grid_dtype := float64 |}
    (Some (create_array [4; 5]%Z complex128)) None 1 (Some 0%Z)
  = Raise UnboundLocalError.
Proof.
  apply (check_arrays_unbuilt Z (fun sc => negb (sc =? 0)%Z)
           (fun sc => Ok (4 * sc)%Z)
           {| coeff_size := 5; coeff_dtype := complex128; grid_dtype := float64 |}
           (create_array [4; 5]%Z complex128) 1 (Some 0%Z)).
  - reflexivity.
  - reflexivity.
  - intros sc H. injection H as <-. reflexivity.
Defined.

End CheckFacts.

(** ** Walking a field along the paths *)

Module WalkFacts.

Import Distributor Library Walk.

(** No function that a basis holds as a transform takes four arguments by
    position. *)
Lemma call_four (m : method) : call m 4 = Raise TypeError.
Proof.
  unfold call, parameters_of.
  destruct (existsb _ _); reflexivity.
Qed.

Lemma set_library_binds (c : class) (value : string) (b : instance) :
  set_library (new c) value = Ok b ->
  exists f g, forward b = Some f /\ backward b = Some g.
Proof.
  unfold set_library. intros H.
  apply LookupFacts.bind_inv in H as (f & _ & H).
  apply LookupFacts.bind_inv in H as (g & _ & H).
  injection H as <-. exists f, g. split; reflexivity.
Qed.

(** Forward truncates: two different outputs of the transform of [G]
    points leave the same [N < G] coefficients, so that no backward transform
    can give both grids back. *)
Lemma truncation_loses (N G : nat) (cdata : list Q) :
  N < G -> length cdata = N ->
  exists temp temp' : list Q,
    length temp = G /\ length temp' = G /\ temp <> temp' /\
    Resize.Chebyshev_resize_coeffs 0%Q temp cdata
    = Resize.Chebyshev_resize_coeffs 0%Q temp' cdata.
Proof.
  intros HNG Hlen.
  exists (replicate G 0%Q), (replicate N 0%Q ++ 1%Q :: replicate (G - N - 1) 0%Q).
  split; [apply length_replicate|].
  split; [rewrite length_app, length_replicate; cbn [length];
          rewrite length_replicate; lia|].
  split.
  - intros Heq. apply (f_equal (fun l => l !! N)) in Heq.
    rewrite lookup_replicate_2 in Heq by lia.
    rewrite list_lookup_middle in Heq by (rewrite length_replicate; reflexivity).
    discriminate Heq.
  - rewrite !BasisFacts.Chebyshev_resize_closed, Hlen.
    rewrite take_replicate, take_app_length'
      by (rewrite length_replicate; reflexivity).
    rewrite Nat.min_l by lia.
    rewrite length_app, !length_replicate. cbn [length].
    rewrite length_replicate. do 3 f_equal. lia.
Qed.

(** C3. A transform whose basis has had its library set calls
    [basis.backward] or [basis.forward] with four arguments by position,
    which no transform of basis.py accepts: on a field with local data the
    step raises [TypeError] once it has read [field.meta], or what reading
    [field.meta[axis]] raises, and it returns only where there is no local
    data, having done no more than set the layout.  So on one process, with a
    complex Fourier basis of 4 points and a Chebyshev basis of 8 at scale
    3/2, the round trip of a field from the coefficient layout to the grid
    layout and back raises [TypeError] at its first step instead of giving the
    data back, as does the round trip from the grid layout; a field without
    [meta], as field.py builds it, raises [AttributeError]. *)
Theorem round_trip_raises :
  (forall (gcs ggs : list Z) (M : Type) (run : method -> @operand M -> result operand)
          (c : class) (value : string) (b : instance) (layout0 layout1 : Layout)
          (axis : nat) (f : @operand M),
     set_library (new c) value = Ok b ->
     increment_single gcs ggs run layout0 layout1 axis b f
     = (if (prodZ (Field.shape (data gcs ggs f)) =? 0)%Z
        then Ok (set_layout f layout1)
        else let* m := meta_item f (Z.of_nat axis) in Raise TypeError) /\
     decrement_single gcs ggs run layout0 layout1 axis b f
     = (if (prodZ (Field.shape (data gcs ggs f)) =? 0)%Z
        then Ok (set_layout f layout0)
        else let* m := meta_item f (Z.of_nat axis) in Raise TypeError)) /\
  Fourier_init "scipy" = getitem scipy_bases 0 /\
  Chebyshev_init "scipy" = getitem scipy_bases 1 /\
  Distributor_init fourier_cheb None 1 (fun _ => []) = Ok serial_distributor /\
  Lookup.coeff_layout serial_distributor = Ok (serial 0 [false; false]) /\
  Lookup.grid_layout serial_distributor = Ok (serial 2 [true; true]) /\
  forall run group transpose GROUP_TRANSFORMS,
    round_trip [3; 8]%Z [6; 12]%Z run group transpose GROUP_TRANSFORMS
      scipy_bases serial_distributor (serial 2 [true; true])
      (zeros (serial 0 [false; false]) (Some [3 # 2; 3 # 2]%Q))
    = Raise TypeError /\
    round_trip [3; 8]%Z [6; 12]%Z run group transpose GROUP_TRANSFORMS
      scipy_bases serial_distributor (serial 0 [false; false])
      (zeros (serial 2 [true; true]) (Some [3 # 2; 3 # 2]%Q))
    = Raise TypeError /\
    round_trip [3; 8]%Z [6; 12]%Z run group transpose GROUP_TRANSFORMS
      scipy_bases serial_distributor (serial 2 [true; true])
      (zeros (serial 0 [false; false]) None)
    = Raise AttributeError.
Proof.
  split; [|split; [reflexivity|split; [reflexivity|]]].
  - intros gcs ggs M run c value b layout0 layout1 axis f Hb.
    destruct (set_library_binds c value b Hb) as (fw & bw & Hfw & Hbw).
    unfold increment_single, decrement_single, forward_of, backward_of.
    rewrite Hfw, Hbw. cbn [Py.bind].
    split; destruct (prodZ (Field.shape (data gcs ggs f)) =? 0)%Z; try reflexivity.
    all: change (meta_item (set_layout f _) (Z.of_nat axis))
           with (meta_item f (Z.of_nat axis)).
    all: destruct (meta_item f (Z.of_nat axis)); cbn [Py.bind];
      [rewrite call_four|]; reflexivity.
  - split; [vm_compute; reflexivity|].
    split; [reflexivity|]. split; [reflexivity|].
    intros run group transpose GROUP_TRANSFORMS.
    split; [|split]; vm_compute; reflexivity.
Qed.

Lemma round_trip_raises_witness :
  increment_single [3; 8]%Z [6; 12]%Z (fun _ f => Ok f)
    (serial 0 [false; false]) (serial 1 [false; true]) 1
    {| cls := Chebyshev;
       forward := Some (Method Chebyshev "_forward_fftw");
       backward := Some (Method Chebyshev "_backward_fftw");
       _library := Some "fftw"%string |}
    (zeros (serial 0 [false; false]) (Some [3 # 2; 3 # 2]%Q))
  = Raise TypeError.
Proof.
  destruct round_trip_raises as [H _].
  destruct (H [3; 8]%Z [6; 12]%Z Q (fun _ f => Ok f) Chebyshev "FFTW"%string
              {| cls := Chebyshev;
                 forward := Some (Method Chebyshev "_forward_fftw");
                 backward := Some (Method Chebyshev "_backward_fftw");
                 _library := Some "fftw"%string |}
              (serial 0 [false; false]) (serial 1 [false; true]) 1
              (zeros (serial 0 [false; false]) (Some [3 # 2; 3 # 2]%Q)) eq_refl)
    as [Hinc _].
  rewrite Hinc. reflexivity.
Defined.

End WalkFacts.
